(** * A shallow embedding of the state-vector quantum simulator

    The JavaScript sources (js/complex.js, js/quantum-state.js,
    js/quantum-gates.js, js/quantum-register.js, js/algorithms.js,
    js/quantum-tape.js) are transcribed function by function.  JavaScript
    numbers are kept abstract behind the interface [JsNum], so that one and
    the same transcription is read in two ways:

    - at [R] (instance [Real_Num]): exact arithmetic, in which the algebraic
      statements of the specification are proved;
    - at [float] (instance [Float_Num]): the IEEE binary64 numbers the
      program really runs on, with which concrete runs are evaluated.

    Integers used as qubit numbers and basis-state indices are [Z] at the
    boundary of a method (where the source tests them against [0]) and [nat]
    inside loops and as array positions.  The constructor only admits 1 to 20
    qubits, so every index stays below 2^20 and the 32-bit wrap-around of the
    JavaScript operators [<<], [>>], [&], [^] never comes into play; they are
    [Nat.shiftl], [Nat.shiftr], [Nat.land], [Nat.lxor].

    Arrays are lists read with stdpp's total lookup [l !!! i] and written
    with [<[i:=x]> l].  All reads and writes of the source are in range
    whenever the register is well formed ([QuantumRegister.wf]).  The entries
    gate.elements[r][c] of a gate are read the same way: the transcription
    follows the source on matrices that have all their entries, and reads
    zero where a row or an entry is missing, on which the JavaScript throws
    a TypeError. *)

From Stdlib Require Import Floats.
From Stdlib Require Import Reals Lra Lia ZArith List String Permutation.
From stdpp Require Import base list.
Import ListNotations.

(** ** JavaScript numbers *)

Class JsNum (F : Type) := {
  nof_Z : Z -> F;            (* an integer literal *)
  nadd : F -> F -> F;
  nsub : F -> F -> F;
  nmul : F -> F -> F;
  ndiv : F -> F -> F;
  nneg : F -> F;
  nsqrt : F -> F;            (* Math.sqrt *)
  nabs : F -> F;             (* Math.abs *)
  nlt : F -> F -> bool;      (* < *)
  lit_1e_15 : F;             (* the literal 1e-15 *)
  lit_1e_10 : F              (* the literal 1e-10 *)
}.

Declare Scope num_scope.
Delimit Scope num_scope with num.
Infix "+" := nadd : num_scope.
Infix "-" := nsub : num_scope.
Infix "*" := nmul : num_scope.
Infix "/" := ndiv : num_scope.
Notation "- x" := (nneg x) : num_scope.
Infix "<?" := nlt : num_scope.

Definition Rltb (x y : R) : bool := if Rlt_dec x y then true else false.

#[export] Instance Real_Num : JsNum R := {|
  nof_Z := IZR;
  nadd := Rplus;
  nsub := Rminus;
  nmul := Rmult;
  ndiv := Rdiv;
  nneg := Ropp;
  nsqrt := sqrt;
  nabs := Rabs;
  nlt := Rltb;
  lit_1e_15 := (1 / 10 ^ 15)%R;
  lit_1e_10 := (1 / 10 ^ 10)%R
|}.

Definition float_of_Z (z : Z) : float :=
  match z with
  | Z0 => PrimFloat.of_uint63 (Uint63.of_Z 0)
  | Zpos _ => PrimFloat.of_uint63 (Uint63.of_Z z)
  | Zneg p => PrimFloat.opp (PrimFloat.of_uint63 (Uint63.of_Z (Zpos p)))
  end.

#[export] Instance Float_Num : JsNum float := {|
  nof_Z := float_of_Z;
  nadd := PrimFloat.add;
  nsub := PrimFloat.sub;
  nmul := PrimFloat.mul;
  ndiv := PrimFloat.div;
  nneg := PrimFloat.opp;
  nsqrt := PrimFloat.sqrt;
  nabs := PrimFloat.abs;
  nlt := PrimFloat.ltb;
  lit_1e_15 := PrimFloat.div (float_of_Z 1) (float_of_Z (10 ^ 15));
  lit_1e_10 := PrimFloat.div (float_of_Z 1) (float_of_Z (10 ^ 10))
|}.

(** Math.cos, Math.sin, Math.log2, Math.PI, Math.min and Math.max.  Rocq's
    binary64 numbers come without them, so the functions that call them are
    read in exact arithmetic only.  [nlog2] is only ever called on a
    probability above 1e-15. *)
Class JsMath (F : Type) := {
  ncos : F -> F;
  nsin : F -> F;
  nlog2 : F -> F;
  nPI : F;
  nmin : F -> F -> F;
  nmax : F -> F -> F
}.

#[export] Instance Real_Math : JsMath R := {|
  ncos := cos;
  nsin := sin;
  nlog2 := fun x => (ln x / ln 2)%R;
  nPI := PI;
  nmin := Rmin;
  nmax := Rmax
|}.

(** ** Exceptions and methods

    Every [throw new Error(...)] of the sources is one constructor of
    [error].  A method of a mutable object is a function from the object's
    state to a result and the state it leaves behind. *)

Inductive error : Type :=
| DivisionByZero           (* Complex.div *)
| ZeroVector               (* ComplexUtils.normalize *)
| DimensionMismatch        (* QuantumMatrix.apply *)
| InvalidQubitCount        (* new QuantumRegister *)
| BasisStateOutOfRange     (* getAmplitude, setAmplitude *)
| QubitIndexOutOfRange     (* applySingleQubitGate, applyTwoQubitGate, measureQubit *)
| InvalidQubitPair         (* applyTwoQubitGate *)
| InvalidAlgorithmParameter (* groverAlgorithm *)
| TypeError.               (* a property read on undefined *)

Inductive result (A : Type) : Type :=
| Ok (a : A)
| Err (e : error).
Arguments Ok {A} a.
Arguments Err {A} e.

Definition Method (S A : Type) : Type := S -> result A * S.

Definition ret {S A} (a : A) : Method S A := fun s => (Ok a, s).
Definition throw {S A} (e : error) : Method S A := fun s => (Err e, s).
Definition bind {S A B} (m : Method S A) (k : A -> Method S B) : Method S B :=
  fun s => match m s with
           | (Ok a, s') => k a s'
           | (Err e, s') => (Err e, s')
           end.
Definition get {S} : Method S S := fun s => (Ok s, s).
Definition put {S} (s : S) : Method S unit := fun _ => (Ok tt, s).
Definition lift {S A} (r : result A) : Method S A := fun s => (r, s).

Declare Scope method_scope.
Delimit Scope method_scope with method.
Notation "m >>= k" := (bind m k) (at level 62, left associativity) : method_scope.
Notation "m >> k" := (bind m (fun _ => k)) (at level 62, left associativity) : method_scope.

(** [for (let i = 0; i < n; i++) body] over a local accumulator, and the same
    loop when the body calls methods that may throw. *)
Definition for_loop {A} (n : nat) (body : nat -> A -> A) (a : A) : A :=
  fold_left (fun a i => body i a) (seq 0 n) a.

Fixpoint for_each {S A} (l : list nat) (body : nat -> A -> Method S A) (a : A)
  : Method S A :=
  match l with
  | [] => ret a
  | i :: l' => bind (body i a) (for_each l' body)
  end.

Definition for_loopM {S A} (n : nat) (body : nat -> A -> Method S A) (a : A)
  : Method S A :=
  for_each (seq 0 n) body a.

(** ** js/complex.js *)

Module Complex.
Section Complex.
Context {F : Type} {N : JsNum F}.
Local Open Scope num_scope.

Record t : Type := Build { re : F; im : F }.

Definition add (this other : t) : t :=
  Build (re this + re other) (im this + im other).

Definition sub (this other : t) : t :=
  Build (re this - re other) (im this - im other).

Definition mul (this other : t) : t :=
  Build (re this * re other - im this * im other)
        (re this * im other + im this * re other).

Definition div (this other : t) : result t :=
  let denominator := re other * re other + im other * im other in
  if nabs denominator <? lit_1e_15 then Err DivisionByZero
  else Ok (Build ((re this * re other + im this * im other) / denominator)
                 ((im this * re other - re this * im other) / denominator)).

Definition conj (this : t) : t := Build (re this) (- im this).

Definition abs (this : t) : F := nsqrt (re this * re this + im this * im this).

(* equals(other, eps = 1e-10) *)
Definition equals (this other : t) (eps : F) : bool :=
  (nabs (re this - re other) <? eps) && (nabs (im this - im other) <? eps).

Definition clone (this : t) : t := Build (re this) (im this).

Definition ZERO : t := Build (nof_Z 0) (nof_Z 0).
Definition ONE : t := Build (nof_Z 1) (nof_Z 0).
Definition I : t := Build (nof_Z 0) (nof_Z 1).
Definition MINUS_I : t := Build (nof_Z 0) (nof_Z (-1)).

End Complex.
Arguments t F : clear implicits.
Section ComplexTrig.
Context {F : Type} {N : JsNum F} {M : JsMath F}.
Local Open Scope num_scope.

(* static exp(angle): cos(angle) + i sin(angle) *)
Definition exp (angle : F) : t F := Build (ncos angle) (nsin angle).

End ComplexTrig.

End Complex.

#[export] Instance Complex_inhabited {F} {N : JsNum F} : Inhabited (Complex.t F) :=
  populate Complex.ZERO.

(** The [reduce] that [isNormalized] and [normalize] share:
    [amplitudes.reduce((acc, amp) => acc + amp.abs() * amp.abs(), 0)]. *)
Module ComplexUtils.
Section ComplexUtils.
Context {F : Type} {N : JsNum F}.
Local Open Scope num_scope.

Definition sumAbsSquared (amplitudes : list (Complex.t F)) : F :=
  fold_left (fun acc amp => acc + Complex.abs amp * Complex.abs amp)
            amplitudes (nof_Z 0).

(* isNormalized(amplitudes, eps = 1e-10) *)
Definition isNormalized (amplitudes : list (Complex.t F)) (eps : F) : bool :=
  let sum := sumAbsSquared amplitudes in
  nabs (sum - nof_Z 1) <? eps.

Definition normalize (amplitudes : list (Complex.t F)) : result (list (Complex.t F)) :=
  let norm := nsqrt (sumAbsSquared amplitudes) in
  if norm <? lit_1e_15 then Err ZeroVector
  else Ok (map (fun amp => Complex.Build (Complex.re amp / norm) (Complex.im amp / norm))
               amplitudes).

Definition tensorProduct (vec1 vec2 : list (Complex.t F)) : list (Complex.t F) :=
  for_loop (length vec1) (fun i result =>
    for_loop (length vec2) (fun j result =>
      result ++ [Complex.mul (vec1 !!! i) (vec2 !!! j)]) result) [].

(* dot(vec1, vec2): the sum of conj(vec1[i]) * vec2[i] *)
Definition dot (vec1 vec2 : list (Complex.t F)) : result (Complex.t F) :=
  if negb (length vec1 =? length vec2) then Err DimensionMismatch
  else Ok (for_loop (length vec1) (fun i result =>
             Complex.add result (Complex.mul (Complex.conj (vec1 !!! i)) (vec2 !!! i)))
             Complex.ZERO).

End ComplexUtils.
End ComplexUtils.

(** ** js/quantum-state.js *)

Module QuantumState.
Section QuantumState.
Context {F : Type} {N : JsNum F}.
Local Open Scope num_scope.

Record t : Type := Build { alpha : Complex.t F; beta : Complex.t F }.

Definition normalize (this : t) : t :=
  let norm := nsqrt (Complex.abs (alpha this) * Complex.abs (alpha this) +
                     Complex.abs (beta this) * Complex.abs (beta this)) in
  if norm <? lit_1e_15 then
    Build (Complex.Build (nof_Z 1) (nof_Z 0)) (Complex.Build (nof_Z 0) (nof_Z 0))
  else
    Build (Complex.Build (Complex.re (alpha this) / norm) (Complex.im (alpha this) / norm))
          (Complex.Build (Complex.re (beta this) / norm) (Complex.im (beta this) / norm)).

(* constructor(alpha, beta), both arguments instances of Complex *)
Definition new (alpha beta : Complex.t F) : t :=
  normalize (Build (Complex.clone alpha) (Complex.clone beta)).

Definition getProbability0 (this : t) : F :=
  let alphaAbs := Complex.abs (alpha this) in alphaAbs * alphaAbs.

Definition getProbability1 (this : t) : F :=
  let betaAbs := Complex.abs (beta this) in betaAbs * betaAbs.

(* measure(); [random] is the value Math.random() returns *)
Definition measure (random : F) (this : t) : nat * t :=
  let prob0 := getProbability0 this in
  if random <? prob0 then
    (0, Build (Complex.Build (nof_Z 1) (nof_Z 0)) (Complex.Build (nof_Z 0) (nof_Z 0)))
  else
    (1, Build (Complex.Build (nof_Z 0) (nof_Z 0)) (Complex.Build (nof_Z 1) (nof_Z 0))).

Definition zero : t :=
  new (Complex.Build (nof_Z 1) (nof_Z 0)) (Complex.Build (nof_Z 0) (nof_Z 0)).

Definition one : t :=
  new (Complex.Build (nof_Z 0) (nof_Z 0)) (Complex.Build (nof_Z 1) (nof_Z 0)).

Definition plus : t :=
  let amp := Complex.Build (nof_Z 1 / nsqrt (nof_Z 2)) (nof_Z 0) in
  new amp amp.

Definition minus : t :=
  let amp := Complex.Build (nof_Z 1 / nsqrt (nof_Z 2)) (nof_Z 0) in
  new amp (Complex.Build (nof_Z (-1) / nsqrt (nof_Z 2)) (nof_Z 0)).

(* the literal 0.99: 99/100 rounds to the same binary64 number *)
Definition lit_0_99 : F := nof_Z 99 / nof_Z 100.

(* 'basis-0' | 'basis-1' | 'superposition' *)
Inductive StateType : Type := basis_0 | basis_1 | superposition.

Definition getStateType (this : t) : StateType :=
  let prob0 := getProbability0 this in
  let prob1 := getProbability1 this in
  if lit_0_99 <? prob0 then basis_0
  else if lit_0_99 <? prob1 then basis_1
  else superposition.

Definition clone (this : t) : t :=
  new (Complex.clone (alpha this)) (Complex.clone (beta this)).

End QuantumState.
Arguments t F : clear implicits.
Section QuantumStateTrig.
Context {F : Type} {N : JsNum F} {M : JsMath F}.
Local Open Scope num_scope.

Definition getEntropy (this : t F) : F :=
  let p0 := getProbability0 this in
  let p1 := getProbability1 this in
  let entropy := nof_Z 0 in
  let entropy := if lit_1e_15 <? p0 then entropy - p0 * nlog2 p0 else entropy in
  let entropy := if lit_1e_15 <? p1 then entropy - p1 * nlog2 p1 else entropy in
  entropy.

Definition fromBlochAngles (theta phi : F) : t F :=
  let alpha := Complex.Build (ncos (theta / nof_Z 2)) (nof_Z 0) in
  let beta := Complex.mul (Complex.exp phi)
                          (Complex.Build (nsin (theta / nof_Z 2)) (nof_Z 0)) in
  new alpha beta.

End QuantumStateTrig.

End QuantumState.

(** ** js/quantum-gates.js *)

Module QuantumMatrix.
Section QuantumMatrix.
Context {F : Type} {N : JsNum F}.
Local Open Scope num_scope.

Record t : Type := Build {
  elements : list (list (Complex.t F));
  rows : nat;
  cols : nat
}.

(* constructor(elements): cols is elements[0]?.length || 0 *)
Definition new (elements : list (list (Complex.t F))) : t :=
  Build elements (length elements)
        (match elements with [] => 0 | row :: _ => length row end).

Definition apply (this : t) (vector : list (Complex.t F)) : result (list (Complex.t F)) :=
  if negb (cols this =? length vector) then Err DimensionMismatch
  else Ok (for_loop (rows this) (fun i result =>
             let sum := for_loop (cols this) (fun j sum =>
                          Complex.add sum (Complex.mul ((elements this !!! i) !!! j)
                                                       (vector !!! j)))
                          Complex.ZERO in
             result ++ [sum]) []).

Definition tensorProduct (this other : t) : t :=
  new (for_loop (rows this) (fun i result =>
         for_loop (rows other) (fun k result =>
           let row := for_loop (cols this) (fun j row =>
                        for_loop (cols other) (fun l row =>
                          row ++ [Complex.mul ((elements this !!! i) !!! j)
                                              ((elements other !!! k) !!! l)]) row) [] in
           result ++ [row]) result) []).

End QuantumMatrix.
Arguments t F : clear implicits.
End QuantumMatrix.

Module QuantumGates.
Section QuantumGates.
Context {F : Type} {N : JsNum F}.
Local Open Scope num_scope.

Definition I : QuantumMatrix.t F :=
  QuantumMatrix.new [[Complex.ONE; Complex.ZERO];
                     [Complex.ZERO; Complex.ONE]].

Definition X : QuantumMatrix.t F :=
  QuantumMatrix.new [[Complex.ZERO; Complex.ONE];
                     [Complex.ONE; Complex.ZERO]].

Definition Y : QuantumMatrix.t F :=
  QuantumMatrix.new [[Complex.ZERO; Complex.MINUS_I];
                     [Complex.I; Complex.ZERO]].

Definition Z : QuantumMatrix.t F :=
  QuantumMatrix.new [[Complex.ONE; Complex.ZERO];
                     [Complex.ZERO; Complex.Build (nof_Z (-1)) (nof_Z 0)]].

Definition H : QuantumMatrix.t F :=
  let invSqrt2 := Complex.Build (nof_Z 1 / nsqrt (nof_Z 2)) (nof_Z 0) in
  let negInvSqrt2 := Complex.Build (nof_Z (-1) / nsqrt (nof_Z 2)) (nof_Z 0) in
  QuantumMatrix.new [[invSqrt2; invSqrt2];
                     [invSqrt2; negInvSqrt2]].

Definition S : QuantumMatrix.t F :=
  QuantumMatrix.new [[Complex.ONE; Complex.ZERO];
                     [Complex.ZERO; Complex.I]].

Definition CNOT : QuantumMatrix.t F :=
  QuantumMatrix.new
    [[Complex.ONE; Complex.ZERO; Complex.ZERO; Complex.ZERO];
     [Complex.ZERO; Complex.ONE; Complex.ZERO; Complex.ZERO];
     [Complex.ZERO; Complex.ZERO; Complex.ZERO; Complex.ONE];
     [Complex.ZERO; Complex.ZERO; Complex.ONE; Complex.ZERO]].

Definition CZ : QuantumMatrix.t F :=
  QuantumMatrix.new
    [[Complex.ONE; Complex.ZERO; Complex.ZERO; Complex.ZERO];
     [Complex.ZERO; Complex.ONE; Complex.ZERO; Complex.ZERO];
     [Complex.ZERO; Complex.ZERO; Complex.ONE; Complex.ZERO];
     [Complex.ZERO; Complex.ZERO; Complex.ZERO; Complex.Build (nof_Z (-1)) (nof_Z 0)]].

Definition SWAP : QuantumMatrix.t F :=
  QuantumMatrix.new
    [[Complex.ONE; Complex.ZERO; Complex.ZERO; Complex.ZERO];
     [Complex.ZERO; Complex.ZERO; Complex.ONE; Complex.ZERO];
     [Complex.ZERO; Complex.ONE; Complex.ZERO; Complex.ZERO];
     [Complex.ZERO; Complex.ZERO; Complex.ZERO; Complex.ONE]].

(* applySingleQubitGate(state, gate) on a lone qubit *)
Definition applySingleQubitGate (state : QuantumState.t F) (gate : QuantumMatrix.t F)
  : result (QuantumState.t F) :=
  let vector := [QuantumState.alpha state; QuantumState.beta state] in
  match QuantumMatrix.apply gate vector with
  | Err e => Err e
  | Ok result => Ok (QuantumState.new (result !!! 0) (result !!! 1))
  end.

(* applyTwoQubitGate(state1, state2, gate): the shortcut on two lone qubits *)
Definition applyTwoQubitGate (state1 state2 : QuantumState.t F) (gate : QuantumMatrix.t F)
  : result (QuantumState.t F * QuantumState.t F) :=
  let vector :=
    [Complex.mul (QuantumState.alpha state1) (QuantumState.alpha state2);
     Complex.mul (QuantumState.alpha state1) (QuantumState.beta state2);
     Complex.mul (QuantumState.beta state1) (QuantumState.alpha state2);
     Complex.mul (QuantumState.beta state1) (QuantumState.beta state2)] in
  match QuantumMatrix.apply gate vector with
  | Err e => Err e
  | Ok result =>
    let newState1 := QuantumState.new
      (Complex.Build
         ((Complex.abs (result !!! 0) + Complex.abs (result !!! 1)) / nsqrt (nof_Z 2))
         (nof_Z 0))
      (Complex.Build
         ((Complex.abs (result !!! 2) + Complex.abs (result !!! 3)) / nsqrt (nof_Z 2))
         (nof_Z 0)) in
    let newState2 := QuantumState.new
      (Complex.Build
         ((Complex.abs (result !!! 0) + Complex.abs (result !!! 2)) / nsqrt (nof_Z 2))
         (nof_Z 0))
      (Complex.Build
         ((Complex.abs (result !!! 1) + Complex.abs (result !!! 3)) / nsqrt (nof_Z 2))
         (nof_Z 0)) in
    Ok (newState1, newState2)
  end.

Definition hadamard (state : QuantumState.t F) : result (QuantumState.t F) :=
  applySingleQubitGate state H.

Definition cnot (control target : QuantumState.t F)
  : result (QuantumState.t F * QuantumState.t F) :=
  applyTwoQubitGate control target CNOT.

Definition CH : QuantumMatrix.t F :=
  let invSqrt2 := Complex.Build (nof_Z 1 / nsqrt (nof_Z 2)) (nof_Z 0) in
  let negInvSqrt2 := Complex.Build (nof_Z (-1) / nsqrt (nof_Z 2)) (nof_Z 0) in
  QuantumMatrix.new
    [[Complex.ONE; Complex.ZERO; Complex.ZERO; Complex.ZERO];
     [Complex.ZERO; Complex.ONE; Complex.ZERO; Complex.ZERO];
     [Complex.ZERO; Complex.ZERO; invSqrt2; invSqrt2];
     [Complex.ZERO; Complex.ZERO; invSqrt2; negInvSqrt2]].

Definition pauliX (state : QuantumState.t F) : result (QuantumState.t F) :=
  applySingleQubitGate state X.

Definition pauliY (state : QuantumState.t F) : result (QuantumState.t F) :=
  applySingleQubitGate state Y.

Definition pauliZ (state : QuantumState.t F) : result (QuantumState.t F) :=
  applySingleQubitGate state Z.

Definition sGate (state : QuantumState.t F) : result (QuantumState.t F) :=
  applySingleQubitGate state S.

Definition cz (state1 state2 : QuantumState.t F)
  : result (QuantumState.t F * QuantumState.t F) :=
  applyTwoQubitGate state1 state2 CZ.

End QuantumGates.
Section QuantumGatesTrig.
Context {F : Type} {N : JsNum F} {M : JsMath F}.
Local Open Scope num_scope.

Definition T : QuantumMatrix.t F :=
  let phase := Complex.exp (nPI / nof_Z 4) in
  QuantumMatrix.new [[Complex.ONE; Complex.ZERO];
                     [Complex.ZERO; phase]].

Definition RX (angle : F) : QuantumMatrix.t F :=
  let cosHalf := Complex.Build (ncos (angle / nof_Z 2)) (nof_Z 0) in
  let minusISinHalf := Complex.Build (nof_Z 0) (- nsin (angle / nof_Z 2)) in
  QuantumMatrix.new [[cosHalf; minusISinHalf];
                     [minusISinHalf; cosHalf]].

Definition RY (angle : F) : QuantumMatrix.t F :=
  let cosHalf := Complex.Build (ncos (angle / nof_Z 2)) (nof_Z 0) in
  let sinHalf := Complex.Build (nsin (angle / nof_Z 2)) (nof_Z 0) in
  let negSinHalf := Complex.Build (- nsin (angle / nof_Z 2)) (nof_Z 0) in
  QuantumMatrix.new [[cosHalf; negSinHalf];
                     [sinHalf; cosHalf]].

Definition RZ (angle : F) : QuantumMatrix.t F :=
  let expMinusHalf := Complex.exp (- angle / nof_Z 2) in
  let expPlusHalf := Complex.exp (angle / nof_Z 2) in
  QuantumMatrix.new [[expMinusHalf; Complex.ZERO];
                     [Complex.ZERO; expPlusHalf]].

Definition tGate (state : QuantumState.t F) : result (QuantumState.t F) :=
  applySingleQubitGate state T.

End QuantumGatesTrig.

End QuantumGates.

(** ** js/quantum-register.js *)

Definition exec {S A} (m : Method S A) (s : S) : result S :=
  match m s with
  | (Ok _, s') => Ok s'
  | (Err e, _) => Err e
  end.

Module QuantumRegister.
Section QuantumRegister.
Context {F : Type} {N : JsNum F}.
Local Open Scope num_scope.

Record t : Type := Build {
  numQubits : nat;
  dimension : nat;
  amplitudes : list (Complex.t F)
}.

(* this.amplitudes = a *)
Definition set_amplitudes (a : list (Complex.t F)) (this : t) : t :=
  Build (numQubits this) (dimension this) a.

(** What the constructor establishes and every method keeps. *)
Definition wf (this : t) : Prop :=
  (1 <= numQubits this <= 20)%nat /\
  dimension this = 2 ^ numQubits this /\
  length (amplitudes this) = dimension this.

Definition initialize : Method t unit := fun this =>
  let amplitudes :=
    for_loop (dimension this)
      (fun i amplitudes => <[i := Complex.clone Complex.ZERO]> amplitudes)
      (amplitudes this) in
  (Ok tt, set_amplitudes (<[0 := Complex.clone Complex.ONE]> amplitudes) this).

(* constructor(numQubits); [new Array(dimension)] is a list of as many
   placeholders, each overwritten by [initialize] before it is read *)
Definition new (numQubits : Z) : result t :=
  if (numQubits <? 1)%Z || (20 <? numQubits)%Z then Err InvalidQubitCount
  else
    let dimension := 2 ^ Z.to_nat numQubits in
    exec initialize
         (Build (Z.to_nat numQubits) dimension (replicate dimension Complex.ZERO)).

Definition getAmplitude (basisState : Z) : Method t (Complex.t F) := fun this =>
  if (basisState <? 0)%Z || (Z.of_nat (dimension this) <=? basisState)%Z
  then (Err BasisStateOutOfRange, this)
  else (Ok (Complex.clone (amplitudes this !!! Z.to_nat basisState)), this).

(* setAmplitude(basisState, amplitude) with amplitude an instance of Complex *)
Definition setAmplitude (basisState : Z) (amplitude : Complex.t F) : Method t unit :=
  fun this =>
  if (basisState <? 0)%Z || (Z.of_nat (dimension this) <=? basisState)%Z
  then (Err BasisStateOutOfRange, this)
  else (Ok tt, set_amplitudes
                 (<[Z.to_nat basisState := Complex.clone amplitude]> (amplitudes this))
                 this).

Definition normalize : Method t unit := fun this =>
  match ComplexUtils.normalize (amplitudes this) with
  | Ok amplitudes => (Ok tt, set_amplitudes amplitudes this)
  | Err _ => initialize this
  end.

Definition isNormalized (eps : F) (this : t) : bool :=
  ComplexUtils.isNormalized (amplitudes this) eps.

Definition getProbability (basisState : Z) : Method t F :=
  (getAmplitude basisState >>= fun amplitude =>
   ret (Complex.abs amplitude * Complex.abs amplitude))%method.

Definition getAllProbabilities (this : t) : list F :=
  map (fun amp => let abs := Complex.abs amp in abs * abs) (amplitudes this).

Definition applySingleQubitGate (gate : QuantumMatrix.t F) (targetQubit : Z)
  : Method t unit := fun this =>
  if (targetQubit <? 0)%Z || (Z.of_nat (numQubits this) <=? targetQubit)%Z
  then (Err QubitIndexOutOfRange, this)
  else
    let targetQubit := Z.to_nat targetQubit in
    let newAmplitudes :=
      for_loop (dimension this)
        (fun state newAmplitudes => <[state := Complex.clone Complex.ZERO]> newAmplitudes)
        (replicate (dimension this) Complex.ZERO) in
    let newAmplitudes :=
      for_loop (dimension this) (fun state newAmplitudes =>
        let bit := Nat.land (Nat.shiftr state targetQubit) 1 in
        let flippedState := Nat.lxor state (Nat.shiftl 1 targetQubit) in
        if (bit =? 0)%nat then
          let newAmplitudes :=
            <[state := Complex.add (newAmplitudes !!! state)
                         (Complex.mul ((QuantumMatrix.elements gate !!! 0) !!! 0)
                                      (amplitudes this !!! state))]> newAmplitudes in
          <[flippedState := Complex.add (newAmplitudes !!! flippedState)
                              (Complex.mul ((QuantumMatrix.elements gate !!! 1) !!! 0)
                                           (amplitudes this !!! state))]> newAmplitudes
        else
          let newAmplitudes :=
            <[state := Complex.add (newAmplitudes !!! state)
                         (Complex.mul ((QuantumMatrix.elements gate !!! 1) !!! 1)
                                      (amplitudes this !!! state))]> newAmplitudes in
          <[flippedState := Complex.add (newAmplitudes !!! flippedState)
                              (Complex.mul ((QuantumMatrix.elements gate !!! 0) !!! 1)
                                           (amplitudes this !!! state))]> newAmplitudes)
        newAmplitudes in
    (Ok tt, set_amplitudes newAmplitudes this).

Definition applyTwoQubitGate (gate : QuantumMatrix.t F) (controlQubit targetQubit : Z)
  : Method t unit := fun this =>
  if (controlQubit <? 0)%Z || (Z.of_nat (numQubits this) <=? controlQubit)%Z ||
     (targetQubit <? 0)%Z || (Z.of_nat (numQubits this) <=? targetQubit)%Z
  then (Err QubitIndexOutOfRange, this)
  else if (controlQubit =? targetQubit)%Z then (Err InvalidQubitPair, this)
  else
    let controlQubit := Z.to_nat controlQubit in
    let targetQubit := Z.to_nat targetQubit in
    let newAmplitudes :=
      for_loop (dimension this)
        (fun i newAmplitudes => <[i := Complex.clone Complex.ZERO]> newAmplitudes)
        (replicate (dimension this) Complex.ZERO) in
    let newAmplitudes :=
      for_loop (dimension this) (fun state newAmplitudes =>
        let controlBit := Nat.land (Nat.shiftr state controlQubit) 1 in
        let targetBit := Nat.land (Nat.shiftr state targetQubit) 1 in
        let inputState := (controlBit * 2 + targetBit)%nat in
        for_loop 4 (fun outputState newAmplitudes =>
          let newControlBit := (outputState / 2)%nat in
          let newTargetBit := (outputState mod 2)%nat in
          let newState := state in
          let newState := Nat.lor (Nat.ldiff newState (Nat.shiftl 1 controlQubit))
                                  (Nat.shiftl newControlBit controlQubit) in
          let newState := Nat.lor (Nat.ldiff newState (Nat.shiftl 1 targetQubit))
                                  (Nat.shiftl newTargetBit targetQubit) in
          let matrixElement := (QuantumMatrix.elements gate !!! outputState) !!! inputState in
          <[newState := Complex.add (newAmplitudes !!! newState)
                          (Complex.mul matrixElement (amplitudes this !!! state))]>
            newAmplitudes) newAmplitudes)
        newAmplitudes in
    (Ok tt, set_amplitudes newAmplitudes this).

(* the loop of measureAll, which returns from inside its body: [Some i] when
   the running sum first exceeds [random] at index [i], [None] when the loop
   runs to its end *)
Fixpoint measureAll_loop (probabilities : list F) (random cumulativeProb : F) (i : nat)
  : option nat :=
  match probabilities with
  | [] => None
  | p :: rest =>
    let cumulativeProb := cumulativeProb + p in
    if random <? cumulativeProb then Some i
    else measureAll_loop rest random cumulativeProb (Datatypes.S i)
  end.

(* measureAll(); [random] is the value Math.random() returns *)
Definition measureAll (random : F) : Method t nat := fun this =>
  let probabilities := getAllProbabilities this in
  match measureAll_loop probabilities random (nof_Z 0) 0 with
  | Some i =>
    (initialize >>
     (fun this => (Ok tt, set_amplitudes
                            (<[i := Complex.clone Complex.ONE]> (amplitudes this)) this)) >>
     ret i)%method this
  | None =>
    (initialize >> ret 0%nat)%method this
  end.

(* measureQubit(qubitIndex); [random] is the value Math.random() returns *)
Definition measureQubit (qubitIndex : Z) (random : F) : Method t nat := fun this =>
  if (qubitIndex <? 0)%Z || (Z.of_nat (numQubits this) <=? qubitIndex)%Z
  then (Err QubitIndexOutOfRange, this)
  else
    let qubitIndex := Z.to_nat qubitIndex in
    (for_loopM (dimension this) (fun state prob0 =>
       let bit := Nat.land (Nat.shiftr state qubitIndex) 1 in
       if (bit =? 0)%nat then
         getProbability (Z.of_nat state) >>= fun p => ret (prob0 + p)
       else ret prob0) (nof_Z 0) >>= fun prob0 =>
     let result := if random <? prob0 then 0%nat else 1%nat in
     get >>= fun this =>
     let '(newAmplitudes, normalizationFactor) :=
       for_loop (dimension this) (fun state '(newAmplitudes, normalizationFactor) =>
         let bit := Nat.land (Nat.shiftr state qubitIndex) 1 in
         if (bit =? result)%nat then
           let newAmplitudes :=
             <[state := Complex.clone (amplitudes this !!! state)]> newAmplitudes in
           (newAmplitudes,
            normalizationFactor +
            Complex.abs (newAmplitudes !!! state) * Complex.abs (newAmplitudes !!! state))
         else
           (<[state := Complex.clone Complex.ZERO]> newAmplitudes, normalizationFactor))
         (replicate (dimension this) Complex.ZERO, nof_Z 0) in
     let newAmplitudes :=
       if nof_Z 0 <? normalizationFactor then
         let norm := nsqrt normalizationFactor in
         for_loop (dimension this) (fun state newAmplitudes =>
           <[state := Complex.Build (Complex.re (newAmplitudes !!! state) / norm)
                                    (Complex.im (newAmplitudes !!! state) / norm)]>
             newAmplitudes) newAmplitudes
       else newAmplitudes in
     put (set_amplitudes newAmplitudes this) >>
     ret result)%method this.

Definition clone (this : t) : result t :=
  match new (Z.of_nat (numQubits this)) with
  | Err e => Err e
  | Ok copy => Ok (set_amplitudes (map Complex.clone (amplitudes this)) copy)
  end.

Definition createBellPhiPlus : result t :=
  match new 2 with
  | Err e => Err e
  | Ok register =>
    let amp := Complex.Build (nof_Z 1 / nsqrt (nof_Z 2)) (nof_Z 0) in
    exec (setAmplitude 0 amp >> setAmplitude 3 amp)%method register
  end.

Definition createGHZ : result t :=
  match new 3 with
  | Err e => Err e
  | Ok register =>
    let amp := Complex.Build (nof_Z 1 / nsqrt (nof_Z 2)) (nof_Z 0) in
    exec (setAmplitude 0 amp >> setAmplitude 7 amp)%method register
  end.

Definition createUniformSuperposition (numQubits : Z) : result t :=
  match new numQubits with
  | Err e => Err e
  | Ok register =>
    let amp := Complex.Build
                 (nof_Z 1 / nsqrt (nof_Z (Z.of_nat (dimension register)))) (nof_Z 0) in
    exec (for_loopM (dimension register)
            (fun i _ => setAmplitude (Z.of_nat i) amp) tt) register
  end.

Definition createWState (numQubits : Z) : result t :=
  match new numQubits with
  | Err e => Err e
  | Ok register =>
    let amp := Complex.Build (nof_Z 1 / nsqrt (nof_Z numQubits)) (nof_Z 0) in
    exec (for_loopM (Z.to_nat numQubits) (fun i _ =>
            let state := Nat.shiftl 1 (Z.to_nat numQubits - 1 - i) in
            setAmplitude (Z.of_nat state) amp) tt) register
  end.

End QuantumRegister.
Arguments t F : clear implicits.
Section QuantumRegisterEntropy.
Context {F : Type} {N : JsNum F} {M : JsMath F}.
Local Open Scope num_scope.

Definition getEntropy (this : t F) : F :=
  let probs := getAllProbabilities this in
  fold_left (fun entropy prob =>
               if lit_1e_15 <? prob then entropy - prob * nlog2 prob else entropy)
            probs (nof_Z 0).

Definition getEntanglementMeasure (this : t F) : F :=
  if (numQubits this =? 1)%nat then nof_Z 0
  else if (numQubits this =? 2)%nat then
    let entropy := getEntropy this in
    nmin entropy (nof_Z 1)
  else
    let probs := getAllProbabilities this in
    let nonZeroProbs := List.filter (fun p => lit_1e_10 <? p) probs in
    let entanglement :=
      nof_Z (Z.of_nat (length nonZeroProbs) - 1) /
      nof_Z (Z.of_nat (dimension this) - 1) in
    nmin entanglement (nof_Z 1).

End QuantumRegisterEntropy.

End QuantumRegister.

(** ** js/algorithms.js

    The records the algorithms return keep the fields that carry data.  Where
    the source stores [register.toString()], a rendering of the amplitudes,
    the record stores the amplitudes themselves; the fields that hold fixed
    explanatory text ([operation], [description], [quantumAdvantage]) are
    left out. *)

(* 'константная' | 'сбалансированная' *)
Inductive Interpretation : Type := constant | balanced.

Definition Interpretation_eqb (a b : Interpretation) : bool :=
  match a, b with
  | constant, constant | balanced, balanced => true
  | _, _ => false
  end.

Module Step.
Record t (F : Type) : Type := Build {
  step : nat;
  state : list (Complex.t F);
  probabilities : option (list F)     (* None: the step has no such property *)
}.
Arguments Build {F} _ _ _.
Arguments step {F} _.
Arguments state {F} _.
Arguments probabilities {F} _.
End Step.

Module DeutschResult.
Record t (F : Type) : Type := Build {
  functionType : string;
  steps : list (Step.t F);
  measurementResult : nat;
  interpretation : Interpretation;
  isCorrect : bool;
  finalState : list (Complex.t F)
}.
Arguments Build {F} _ _ _ _ _ _.
Arguments functionType {F} _.
Arguments steps {F} _.
Arguments measurementResult {F} _.
Arguments interpretation {F} _.
Arguments isCorrect {F} _.
Arguments finalState {F} _.
End DeutschResult.

Module GroverResult.
Record t (F : Type) : Type := Build {
  target : Z;
  iterations : nat;
  steps : list (Step.t F);
  measurementResult : nat;
  foundCorrect : bool;
  targetProbability : option F;       (* None: undefined *)
  finalState : list (Complex.t F)
}.
Arguments Build {F} _ _ _ _ _ _ _.
Arguments target {F} _.
Arguments iterations {F} _.
Arguments steps {F} _.
Arguments measurementResult {F} _.
Arguments foundCorrect {F} _.
Arguments targetProbability {F} _.
Arguments finalState {F} _.
End GroverResult.

Module BellResult.
Record t (F : Type) : Type := Build {
  bellType : string;
  steps : list (Step.t F);
  finalState : list (Complex.t F);
  entanglement : F;
  probabilities : list F;
  isMaximallyEntangled : bool
}.
Arguments Build {F} _ _ _ _ _ _.
Arguments bellType {F} _.
Arguments steps {F} _.
Arguments finalState {F} _.
Arguments entanglement {F} _.
Arguments probabilities {F} _.
Arguments isMaximallyEntangled {F} _.
End BellResult.

(* quantumAddition: [sum] is [result[1]] with [result] the number measureAll
   returned, and [decimal] is [carry * 2 + sum]; [None] stands for undefined
   in the one and for NaN in the other *)
Module AdditionResult.
Record t (F : Type) : Type := Build {
  inputs : Z * Z;
  steps : list (Step.t F);
  sum : option Z;
  carry : Z;
  decimal : option Z;
  finalState : list (Complex.t F)
}.
Arguments Build {F} _ _ _ _ _ _.
Arguments inputs {F} _.
Arguments steps {F} _.
Arguments sum {F} _.
Arguments carry {F} _.
Arguments decimal {F} _.
Arguments finalState {F} _.
End AdditionResult.

(** String.prototype.toLowerCase on strings of code units below 256: the
    letters A to Z and the Latin-1 capitals move up by 32. *)
Definition toLowerCase_unit (c : Ascii.ascii) : Ascii.ascii :=
  let n := Ascii.nat_of_ascii c in
  if ((65 <=? n) && (n <=? 90) || (192 <=? n) && (n <=? 222) && negb (n =? 215))%nat
  then Ascii.ascii_of_nat (n + 32)
  else c.

Fixpoint toLowerCase (s : string) : string :=
  match s with
  | EmptyString => EmptyString
  | String c s' => String (toLowerCase_unit c) (toLowerCase s')
  end.

(* reading property 1 of a number: a number has no such property *)
Definition number_get (value : nat) (property : nat) : option Z := None.

(* String.prototype.includes *)
Fixpoint includes (s sub : string) : bool :=
  String.prefix sub s ||
  match s with
  | EmptyString => false
  | String _ s' => includes s' sub
  end.

Module QuantumAlgorithms.
Section QuantumAlgorithms.
Context {F : Type} {N : JsNum F}.
Local Open Scope num_scope.
Local Open Scope method_scope.

Abbreviation Register := (QuantumRegister.t F).

Definition applyDeutschOracle (functionType : string)
  : Method Register (QuantumMatrix.t F) :=
  (if String.eqb functionType "constant-0"%string then
     ret (QuantumMatrix.tensorProduct QuantumGates.I QuantumGates.I)
   else if String.eqb functionType "constant-1"%string then
     ret (QuantumMatrix.tensorProduct QuantumGates.I QuantumGates.X)
   else if String.eqb functionType "balanced-identity"%string then
     ret QuantumGates.CNOT
   else if String.eqb functionType "balanced-not"%string then
     let xGate := QuantumMatrix.tensorProduct QuantumGates.I QuantumGates.X in
     let cnotGate := QuantumGates.CNOT in
     let gateMatrix := cnotGate in
     QuantumRegister.applySingleQubitGate QuantumGates.X 1 >>
     ret gateMatrix
   else
     ret (QuantumMatrix.tensorProduct QuantumGates.I QuantumGates.I))
  >>= fun gateMatrix =>
  (if negb (String.eqb functionType "balanced-not"%string) then
     get >>= fun register =>
     for_loopM (QuantumRegister.dimension register) (fun i currentAmplitudes =>
       QuantumRegister.getAmplitude (Z.of_nat i) >>= fun a =>
       ret (currentAmplitudes ++ [a])) [] >>= fun currentAmplitudes =>
     lift (QuantumMatrix.apply gateMatrix currentAmplitudes) >>= fun newAmplitudes =>
     for_loopM (QuantumRegister.dimension register) (fun i _ =>
       QuantumRegister.setAmplitude (Z.of_nat i) (newAmplitudes !!! i)) tt
   else ret tt) >>
  ret gateMatrix.

Definition checkDeutschResult (functionType : string) (interpretation : Interpretation)
  : bool :=
  let expectedConstant := includes functionType "constant"%string in
  let gotConstant := Interpretation_eqb interpretation constant in
  Bool.eqb expectedConstant gotConstant.

(* what a step records of the register *)
Definition snapshot (step : nat) : Method Register (Step.t F) :=
  get >>= fun register =>
  ret (Step.Build step (QuantumRegister.amplitudes register) None).

Definition snapshot_with_probabilities (step : nat) : Method Register (Step.t F) :=
  get >>= fun register =>
  ret (Step.Build step (QuantumRegister.amplitudes register)
                  (Some (QuantumRegister.getAllProbabilities register))).

(* deutschAlgorithm(functionType); [random] is the value the one call of
   Math.random(), inside measureQubit, returns *)
Definition deutschAlgorithm (functionType : string) (random : F)
  : result (DeutschResult.t F) :=
  match QuantumRegister.new 2 with
  | Err e => Err e
  | Ok register =>
    fst ((let steps := [] in
          QuantumRegister.setAmplitude 1 Complex.ONE >>
          snapshot 1 >>= fun s => let steps := steps ++ [s] in
          QuantumRegister.applySingleQubitGate QuantumGates.H 0 >>
          QuantumRegister.applySingleQubitGate QuantumGates.H 1 >>
          snapshot 2 >>= fun s => let steps := steps ++ [s] in
          applyDeutschOracle functionType >>= fun oracleResult =>
          snapshot 3 >>= fun s => let steps := steps ++ [s] in
          QuantumRegister.applySingleQubitGate QuantumGates.H 0 >>
          snapshot 4 >>= fun s => let steps := steps ++ [s] in
          QuantumRegister.measureQubit 0 random >>= fun measurementResult =>
          snapshot 5 >>= fun s => let steps := steps ++ [s] in
          let interpretation :=
            if (measurementResult =? 0)%nat then constant else balanced in
          let isCorrect := checkDeutschResult functionType interpretation in
          get >>= fun register =>
          ret (DeutschResult.Build functionType steps measurementResult
                 interpretation isCorrect (QuantumRegister.amplitudes register)))
         register)
  end.

(* Math.floor(Math.PI / 4 * Math.sqrt(4)), the floor of 1.5707963... *)
Definition optimalIterations : nat := 1.

Definition applyGroverOracle (targetItem : Z) : Method Register unit :=
  get >>= fun register =>
  let oracleMatrix :=
    for_loop (QuantumRegister.dimension register) (fun i oracleMatrix =>
      let row :=
        for_loop (QuantumRegister.dimension register) (fun j row =>
          if (i =? j)%nat then
            row ++ [if (Z.of_nat i =? targetItem)%Z
                    then Complex.Build (nof_Z (-1)) (nof_Z 0)
                    else Complex.ONE]
          else row ++ [Complex.ZERO]) [] in
      oracleMatrix ++ [row]) [] in
  let oracle := QuantumMatrix.new oracleMatrix in
  for_loopM (QuantumRegister.dimension register) (fun i currentAmplitudes =>
    QuantumRegister.getAmplitude (Z.of_nat i) >>= fun a =>
    ret (currentAmplitudes ++ [a])) [] >>= fun currentAmplitudes =>
  lift (QuantumMatrix.apply oracle currentAmplitudes) >>= fun newAmplitudes =>
  for_loopM (QuantumRegister.dimension register) (fun i _ =>
    QuantumRegister.setAmplitude (Z.of_nat i) (newAmplitudes !!! i)) tt.

Definition applyGroverDiffuser : Method Register unit :=
  QuantumRegister.applySingleQubitGate QuantumGates.H 0 >>
  QuantumRegister.applySingleQubitGate QuantumGates.H 1 >>
  QuantumRegister.getAmplitude 0 >>= fun currentAmplitude =>
  QuantumRegister.setAmplitude 0
    (Complex.mul currentAmplitude (Complex.Build (nof_Z (-1)) (nof_Z 0))) >>
  QuantumRegister.applySingleQubitGate QuantumGates.H 0 >>
  QuantumRegister.applySingleQubitGate QuantumGates.H 1.

(* groverAlgorithm(targetItem, iterations = null); [random] is the value the
   one call of Math.random(), inside measureAll, returns *)
Definition groverAlgorithm (targetItem : Z) (iterations : option nat) (random : F)
  : result (GroverResult.t F) :=
  if (targetItem <? 0)%Z || (3 <? targetItem)%Z then Err InvalidAlgorithmParameter
  else
    let iterations :=
      match iterations with Some n => n | None => optimalIterations end in
    match QuantumRegister.new 2 with
    | Err e => Err e
    | Ok register =>
      fst ((let steps := [] in
            QuantumRegister.applySingleQubitGate QuantumGates.H 0 >>
            QuantumRegister.applySingleQubitGate QuantumGates.H 1 >>
            snapshot_with_probabilities 1 >>= fun s => let steps := steps ++ [s] in
            for_loopM iterations (fun _ steps =>
              applyGroverOracle targetItem >>
              snapshot_with_probabilities (length steps + 1) >>= fun s =>
              let steps := steps ++ [s] in
              applyGroverDiffuser >>
              snapshot_with_probabilities (length steps + 1) >>= fun s =>
              ret (steps ++ [s])) steps >>= fun steps =>
            QuantumRegister.measureAll random >>= fun measurementResult =>
            snapshot_with_probabilities (length steps + 1) >>= fun s =>
            let steps := steps ++ [s] in
            let foundCorrect := (Z.of_nat measurementResult =? targetItem)%Z in
            match steps !! (length steps - 2)%nat with
            | None => throw TypeError
            | Some before =>
              match Step.probabilities before with
              | None => throw TypeError
              | Some probabilities =>
                let targetProbability := probabilities !! Z.to_nat targetItem in
                get >>= fun register =>
                ret (GroverResult.Build targetItem iterations steps measurementResult
                       foundCorrect targetProbability
                       (QuantumRegister.amplitudes register))
              end
            end)
           register)
    end.

(* quantumAddition(a, b); [random] is the value the one call of
   Math.random(), inside measureAll, returns *)
Definition quantumAddition (a b : Z) (random : F) : result (AdditionResult.t F) :=
  if (a <? 0)%Z || (1 <? a)%Z || (b <? 0)%Z || (1 <? b)%Z
  then Err InvalidAlgorithmParameter
  else
    match QuantumRegister.new 3 with
    | Err e => Err e
    | Ok register =>
      fst ((let steps := [] in
            (if (a =? 1)%Z then QuantumRegister.applySingleQubitGate QuantumGates.X 0
             else ret tt) >>
            (if (b =? 1)%Z then QuantumRegister.applySingleQubitGate QuantumGates.X 1
             else ret tt) >>
            snapshot 1 >>= fun s => let steps := steps ++ [s] in
            QuantumRegister.applyTwoQubitGate QuantumGates.CNOT 0 1 >>
            snapshot 2 >>= fun s => let steps := steps ++ [s] in
            QuantumRegister.measureAll random >>= fun result =>
            let sum := number_get result 1 in
            let carry := (a * b)%Z in
            snapshot 3 >>= fun s => let steps := steps ++ [s] in
            get >>= fun register =>
            ret (AdditionResult.Build (a, b) steps sum carry
                   (match sum with Some sum => Some (carry * 2 + sum)%Z | None => None end)
                   (QuantumRegister.amplitudes register)))
           register)
    end.

End QuantumAlgorithms.

Section QuantumAlgorithmsEntropy.
Context {F : Type} {N : JsNum F} {M : JsMath F}.
Local Open Scope num_scope.
Local Open Scope method_scope.

(* the literal 0.95: 95/100 rounds to the same binary64 number *)
Definition lit_0_95 : F := nof_Z 95 / nof_Z 100.

Definition createBellState (bellType : string) : result (BellResult.t F) :=
  match QuantumRegister.new 2 with
  | Err e => Err e
  | Ok register =>
    fst ((let steps := [] in
          snapshot 1 >>= fun s => let steps := steps ++ [s] in
          QuantumRegister.applySingleQubitGate QuantumGates.H 0 >>
          snapshot 2 >>= fun s => let steps := steps ++ [s] in
          QuantumRegister.applyTwoQubitGate QuantumGates.CNOT 0 1 >>
          snapshot 3 >>= fun s => let steps := steps ++ [s] in
          (if String.eqb (toLowerCase bellType) "phi-"%string then
             QuantumRegister.applySingleQubitGate QuantumGates.Z 0 >>
             snapshot 4 >>= fun s => ret (steps ++ [s])
           else if String.eqb (toLowerCase bellType) "psi+"%string then
             QuantumRegister.applySingleQubitGate QuantumGates.X 1 >>
             snapshot 4 >>= fun s => ret (steps ++ [s])
           else if String.eqb (toLowerCase bellType) "psi-"%string then
             QuantumRegister.applySingleQubitGate QuantumGates.Z 0 >>
             QuantumRegister.applySingleQubitGate QuantumGates.X 1 >>
             snapshot 4 >>= fun s => ret (steps ++ [s])
           else ret steps) >>= fun steps =>
          get >>= fun register =>
          let entanglement := QuantumRegister.getEntanglementMeasure register in
          let probabilities := QuantumRegister.getAllProbabilities register in
          ret (BellResult.Build (toLowerCase bellType) steps
                 (QuantumRegister.amplitudes register) entanglement probabilities
                 (lit_0_95 <? entanglement)%num))
         register)
  end.

End QuantumAlgorithmsEntropy.

End QuantumAlgorithms.

(** ** js/quantum-tape.js

    The tape of the quantum Turing machine: [size] cells, each a lone qubit,
    a head, and a log of the operations.  A JavaScript array can have holes
    (a write past its end leaves the positions in between empty, and an empty
    position reads as undefined), so [cells] is a list of options, [None]
    being a hole.  Date.now() and Math.random() are inputs: a method takes,
    for each of its call sites, the value the call returns there. *)

(* array[i]: undefined ([None]) at a hole and past the end *)
Definition array_get {A} (i : nat) (array : list (option A)) : option A :=
  match array !! i with
  | Some (Some a) => Some a
  | _ => None
  end.

(* array[i] = a *)
Definition array_set {A} (i : nat) (a : A) (array : list (option A))
  : list (option A) :=
  if (i <? length array)%nat then <[i := Some a]> array
  else array ++ replicate (i - length array) None ++ [Some a].

(* array.slice(start) for an integer start *)
Definition slice {A} (start : Z) (array : list A) : list A :=
  let len := Z.of_nat (length array) in
  let from := if (start <? 0)%Z then Z.max (len + start) 0 else Z.min start len in
  drop (Z.to_nat from) array.

(* a case of a switch with its labels *)
Definition in_cases (s : string) (labels : list string) : bool :=
  existsb (String.eqb s) labels.

Module HistoryEntry.
Section HistoryEntry.
Context {F : Type}.

(* the objects passed as metadata: {}, { angle }, { target, targetState },
   { result } and { results } *)
Inductive Metadata : Type :=
| no_metadata
| angle_metadata (angle : F)
| target_metadata (target : Z) (targetState : QuantumState.t F)
| result_metadata (result : nat)
| results_metadata (results : list nat).

Record t : Type := Build {
  step : nat;
  timestamp : Z;
  operation : string;
  position : Z;
  state : option (QuantumState.t F);   (* null is [None] *)
  metadata : Metadata
}.

End HistoryEntry.
Arguments Metadata F : clear implicits.
Arguments t F : clear implicits.
End HistoryEntry.

(* the object toJSON returns and fromJSON reads; a field fromJSON may find
   missing is an option *)
Module TapeJSON.
Section TapeJSON.
Context {F : Type}.

Record cell : Type := Cell { alpha : Complex.t F; beta : Complex.t F }.

Record t : Type := Build {
  size : option Z;
  type : option string;
  headPosition : option Z;
  cells : option (list (option cell));
  historyLength : nat
}.

End TapeJSON.
Arguments cell F : clear implicits.
Arguments t F : clear implicits.
End TapeJSON.

Module QuantumTape.
Section QuantumTape.
Context {F : Type} {N : JsNum F} {M : JsMath F}.
Local Open Scope num_scope.
Local Open Scope method_scope.

Record t : Type := Build {
  size : Z;
  type : string;
  cells : list (option (QuantumState.t F));
  headPosition : Z;
  operationHistory : list (HistoryEntry.t F)
}.

Definition set_cells (c : list (option (QuantumState.t F))) (this : t) : t :=
  Build (size this) (type this) c (headPosition this) (operationHistory this).

Definition set_headPosition (p : Z) (this : t) : t :=
  Build (size this) (type this) (cells this) p (operationHistory this).

Definition set_operationHistory (h : list (HistoryEntry.t F)) (this : t) : t :=
  Build (size this) (type this) (cells this) (headPosition this) h.

Definition initializeTape : Method t unit := fun this =>
  let cells := for_loop (Z.to_nat (size this))
                 (fun _ cells => cells ++ [Some QuantumState.zero]) [] in
  (Ok tt, set_headPosition (size this / 2)%Z (set_cells cells this)).

(* constructor(size = 20, type = 'work'); [None] when it throws *)
Definition new (size : Z) (type : string) : option t :=
  if (size <? 1)%Z || (100 <? size)%Z then None
  else Some (snd (initializeTape (Build size type [] 0%Z []))).

Definition getState (position : Z) : Method t (QuantumState.t F) := fun this =>
  if (position <? 0)%Z || (size this <=? position)%Z then (Ok QuantumState.zero, this)
  else match array_get (Z.to_nat position) (cells this) with
       | Some cell => (Ok (QuantumState.clone cell), this)
       | None => (Err TypeError, this)
       end.

(* addToHistory(operation, position, state = null, metadata = {}) *)
Definition addToHistory (timestamp : Z) (operation : string) (position : Z)
    (state : option (QuantumState.t F)) (metadata : HistoryEntry.Metadata F)
  : Method t unit := fun this =>
  let entry := HistoryEntry.Build
                 (length (operationHistory this) + 1) timestamp operation position
                 (match state with
                  | Some state => Some (QuantumState.clone state)
                  | None => None
                  end)
                 metadata in
  let history := operationHistory this ++ [entry] in
  (Ok tt,
   set_operationHistory
     (if (1000 <? length history)%nat then slice (-500) history else history) this).

Definition setState (timestamp : Z) (position : Z) (state : QuantumState.t F)
  : Method t unit := fun this =>
  if (0 <=? position)%Z && (position <? size this)%Z then
    addToHistory timestamp "setState" position (Some state) HistoryEntry.no_metadata
      (set_cells (array_set (Z.to_nat position) (QuantumState.clone state) (cells this))
         this)
  else (Ok tt, this).

Definition getCurrentState : Method t (QuantumState.t F) := fun this =>
  getState (headPosition this) this.

Definition setCurrentState (timestamp : Z) (state : QuantumState.t F)
  : Method t unit := fun this =>
  setState timestamp (headPosition this) state this.

Definition moveLeft (timestamp : Z) : Method t bool := fun this =>
  if (0 <? headPosition this)%Z then
    let this := set_headPosition (headPosition this - 1)%Z this in
    (addToHistory timestamp "moveLeft" (headPosition this + 1)%Z None
       HistoryEntry.no_metadata >> ret true) this
  else (Ok false, this).

Definition moveRight (timestamp : Z) : Method t bool := fun this =>
  if (headPosition this <? size this - 1)%Z then
    let this := set_headPosition (headPosition this + 1)%Z this in
    (addToHistory timestamp "moveRight" (headPosition this - 1)%Z None
       HistoryEntry.no_metadata >> ret true) this
  else (Ok false, this).

(* applyGate(gateName, angle = 0); [timestamp1] is read by setCurrentState,
   [timestamp2] by the entry of the gate.  Whatever the switch throws is
   caught, and the cell keeps a copy of its state. *)
Definition applyGate (timestamp1 timestamp2 : Z) (gateName : string) (angle : F)
  : Method t (QuantumState.t F) :=
  getCurrentState >>= fun currentState =>
  let attempt :=
    let name := toLowerCase gateName in
    if in_cases name ["h"; "hadamard"]%string then
      QuantumGates.hadamard currentState
    else if in_cases name ["x"; "pauli-x"; "paulix"]%string then
      QuantumGates.pauliX currentState
    else if in_cases name ["y"; "pauli-y"; "pauliy"]%string then
      QuantumGates.pauliY currentState
    else if in_cases name ["z"; "pauli-z"; "pauliz"]%string then
      QuantumGates.pauliZ currentState
    else if in_cases name ["s"; "s-gate"]%string then
      QuantumGates.sGate currentState
    else if in_cases name ["t"; "t-gate"]%string then
      QuantumGates.tGate currentState
    else if in_cases name ["rx"]%string then
      QuantumGates.applySingleQubitGate currentState (QuantumGates.RX angle)
    else if in_cases name ["ry"]%string then
      QuantumGates.applySingleQubitGate currentState (QuantumGates.RY angle)
    else if in_cases name ["rz"]%string then
      QuantumGates.applySingleQubitGate currentState (QuantumGates.RZ angle)
    else Ok (QuantumState.clone currentState) in
  let newState := match attempt with
                  | Ok newState => newState
                  | Err _ => QuantumState.clone currentState
                  end in
  setCurrentState timestamp1 newState >>
  get >>= fun this =>
  addToHistory timestamp2 ("gate:" ++ gateName) (headPosition this) (Some newState)
    (HistoryEntry.angle_metadata angle) >>
  ret newState.

(* applyTwoQubitGate(gateName, targetPosition); the timestamps are those of
   setCurrentState, of setState and of the entry of the gate *)
Definition applyTwoQubitGate (timestamp1 timestamp2 timestamp3 : Z)
    (gateName : string) (targetPosition : Z) : Method t bool := fun this =>
  if (targetPosition <? 0)%Z || (size this <=? targetPosition)%Z
     || (targetPosition =? headPosition this)%Z
  then (Ok false, this)
  else
    (getCurrentState >>= fun controlState =>
     getState targetPosition >>= fun targetState =>
     let attempt :=
       let name := toLowerCase gateName in
       if in_cases name ["cnot"]%string then
         match QuantumGates.cnot controlState targetState with
         | Ok newStates => Some newStates
         | Err _ => None
         end
       else if in_cases name ["cz"]%string then
         match QuantumGates.cz controlState targetState with
         | Ok newStates => Some newStates
         | Err _ => None
         end
       else None in
     match attempt with
     | None => ret false
     | Some newStates =>
       setCurrentState timestamp1 (fst newStates) >>
       setState timestamp2 targetPosition (snd newStates) >>
       get >>= fun this =>
       addToHistory timestamp3 ("twoQubit:" ++ gateName) (headPosition this)
         (Some (fst newStates))
         (HistoryEntry.target_metadata targetPosition (snd newStates)) >>
       ret true
     end) this.

(* measureCurrent(); [random] is the value Math.random() returns *)
Definition measureCurrent (random : F) (timestamp1 timestamp2 : Z)
  : Method t (nat * QuantumState.t F) :=
  getCurrentState >>= fun currentState =>
  let result := fst (QuantumState.measure random currentState) in
  let currentState := snd (QuantumState.measure random currentState) in
  setCurrentState timestamp1 currentState >>
  get >>= fun this =>
  addToHistory timestamp2 "measure" (headPosition this) (Some currentState)
    (HistoryEntry.result_metadata result) >>
  ret (result, QuantumState.clone currentState).

(* measureAll(); [randoms i] and [timestamps i] are the values read for
   cell i, [timestamp] the one of the closing entry *)
Definition measureAll (randoms : nat -> F) (timestamps : nat -> Z) (timestamp : Z)
  : Method t (list nat) :=
  get >>= fun this =>
  for_loopM (Z.to_nat (size this))
    (fun i results =>
       getState (Z.of_nat i) >>= fun state =>
       let result := fst (QuantumState.measure (randoms i) state) in
       let state := snd (QuantumState.measure (randoms i) state) in
       setState (timestamps i) (Z.of_nat i) state >>
       ret (results ++ [result]))
    [] >>= fun results =>
  addToHistory timestamp "measureAll" (-1)%Z None
    (HistoryEntry.results_metadata results) >>
  ret results.

Definition reset (timestamp : Z) : Method t unit :=
  initializeTape >>
  (fun this => (Ok tt, set_operationHistory [] this)) >>
  addToHistory timestamp "reset" (-1)%Z None HistoryEntry.no_metadata.

(* getHistory(limit = 50) *)
Definition getHistory (limit : Z) (this : t) : list (HistoryEntry.t F) :=
  slice (- limit) (operationHistory this).

Definition clearHistory : Method t unit := fun this =>
  (Ok tt, set_operationHistory [] this).

Definition toJSON (this : t) : TapeJSON.t F :=
  TapeJSON.Build
    (Some (size this))
    (Some (type this))
    (Some (headPosition this))
    (Some (map (option_map
                  (fun cell =>
                     TapeJSON.Cell
                       (Complex.Build (Complex.re (QuantumState.alpha cell))
                                      (Complex.im (QuantumState.alpha cell)))
                       (Complex.Build (Complex.re (QuantumState.beta cell))
                                      (Complex.im (QuantumState.beta cell)))))
             (cells this)))
    (length (operationHistory this)).

(* static fromJSON(json); a missing size or type takes the default of the
   constructor, [json.headPosition || 0] is 0 for a missing position *)
Definition fromJSON (json : TapeJSON.t F) : option t :=
  match new (match TapeJSON.size json with Some size => size | None => 20%Z end)
            (match TapeJSON.type json with Some type => type | None => "work"%string end)
  with
  | None => None
  | Some tape =>
    let tape := set_headPosition
                  (match TapeJSON.headPosition json with
                   | Some headPosition => if (headPosition =? 0)%Z then 0%Z else headPosition
                   | None => 0%Z
                   end) tape in
    Some (match TapeJSON.cells json with
          | Some cells =>
            set_cells
              (map (option_map
                      (fun cellData =>
                         let alpha := Complex.Build (Complex.re (TapeJSON.alpha cellData))
                                                    (Complex.im (TapeJSON.alpha cellData)) in
                         let beta := Complex.Build (Complex.re (TapeJSON.beta cellData))
                                                   (Complex.im (TapeJSON.beta cellData)) in
                         QuantumState.new alpha beta))
                   cells)
              tape
          | None => tape
          end)
  end.

End QuantumTape.
Arguments t F : clear implicits.
End QuantumTape.

(** ** Vocabulary of the statements *)

(* (state >> q) & 1 *)
Definition bit (state q : nat) : nat := Nat.land (Nat.shiftr state q) 1.

(* state ^ (1 << q): the partner of [state] across qubit [q] *)
Definition flip (state q : nat) : nat := Nat.lxor state (Nat.shiftl 1 q).

(** The sum of [f 0], ..., [f (n - 1)], accumulated from the left as the
    loops of the source do. *)
Fixpoint Rsum (f : nat -> R) (n : nat) : R :=
  match n with
  | O => 0%R
  | S k => (Rsum f k + f k)%R
  end.

(** |c|^2 as the source computes it: [c.abs() * c.abs()]. *)
Definition prob (c : Complex.t R) : R := (Complex.abs c * Complex.abs c)%R.

(** The sum of |amplitude_i|^2 over the basis states whose bit [q] is
    [outcome]: the probability that measuring qubit [q] gives [outcome]. *)
Definition outcomeProbability (amplitudes : list (Complex.t R)) (q outcome : nat) : R :=
  Rsum (fun state => if (bit state q =? outcome)%nat then prob (amplitudes !!! state)
                     else 0%R)
       (length amplitudes).

(** A complex number divided by a real one. *)
Definition scale (c : Complex.t R) (k : R) : Complex.t R :=
  Complex.Build (Complex.re c / k)%R (Complex.im c / k)%R.

(** The 2x2 matrix with rows [m00 m01] and [m10 m11] is unitary: its
    conjugate transpose times itself is the identity. *)
Definition unitary2 (m00 m01 m10 m11 : Complex.t R) : Prop :=
  Complex.add (Complex.mul (Complex.conj m00) m00) (Complex.mul (Complex.conj m10) m10)
    = Complex.ONE /\
  Complex.add (Complex.mul (Complex.conj m01) m01) (Complex.mul (Complex.conj m11) m11)
    = Complex.ONE /\
  Complex.add (Complex.mul (Complex.conj m00) m01) (Complex.mul (Complex.conj m10) m11)
    = Complex.ZERO.

(** The basis state |0...0> of [dimension] amplitudes. *)
Definition zeroState {F : Type} {N : JsNum F} (dimension : nat) : list (Complex.t F) :=
  <[0%nat := Complex.ONE]> (replicate dimension Complex.ZERO).

(** Entry (row, col) of the 2x2 matrix with rows [m00 m01] and [m10 m11]. *)
Definition entry (m00 m01 m10 m11 : Complex.t R) (row col : nat) : Complex.t R :=
  match row, col with
  | O, O => m00
  | O, _ => m01
  | _, O => m10
  | _, _ => m11
  end.

(** The body of the main loop of applySingleQubitGate, its two branches
    written as one, and what the vector under construction holds after the
    states below [k]: the loop invariant. *)
Section SingleQubitGateLoop.
Variables m00 m01 m10 m11 : Complex.t R.
Variable q : nat.
Variable a : list (Complex.t R).

Definition gate_step (state : nat) (newAmplitudes : list (Complex.t R))
  : list (Complex.t R) :=
  let flippedState := flip state q in
  let newAmplitudes :=
    <[state := Complex.add (newAmplitudes !!! state)
                 (Complex.mul (entry m00 m01 m10 m11 (bit state q) (bit state q))
                              (a !!! state))]> newAmplitudes in
  <[flippedState :=
      Complex.add (newAmplitudes !!! flippedState)
                  (Complex.mul (entry m00 m01 m10 m11 (1 - bit state q) (bit state q))
                               (a !!! state))]> newAmplitudes.

Definition partial (k t : nat) : Complex.t R :=
  Complex.add
    (if (t <? k)%nat
     then Complex.mul (entry m00 m01 m10 m11 (bit t q) (bit t q)) (a !!! t)
     else Complex.ZERO)
    (if (flip t q <? k)%nat
     then Complex.mul (entry m00 m01 m10 m11 (bit t q) (1 - bit t q)) (a !!! flip t q)
     else Complex.ZERO).

End SingleQubitGateLoop.

(** The index arithmetic of applyTwoQubitGate: the two-bit number read from
    the control and the target bit of [state], and [state] with these two
    bits replaced by those of [outputState]. *)
Definition inputState (state c t : nat) : nat := (bit state c * 2 + bit state t)%nat.

Definition newState (state c t outputState : nat) : nat :=
  Nat.lor (Nat.ldiff (Nat.lor (Nat.ldiff state (Nat.shiftl 1 c))
                              (Nat.shiftl (outputState / 2) c))
                     (Nat.shiftl 1 t))
          (Nat.shiftl (outputState mod 2) t).

(** [state] with bit [q] made equal to [b]. *)
Definition withBit (b q state : nat) : nat :=
  if (bit state q =? b)%nat then state else flip state q.

(** Sums of four terms, in the order the inner loop of applyTwoQubitGate
    visits them. *)
Definition Csum4 (f : nat -> Complex.t R) : Complex.t R :=
  Complex.add (Complex.add (Complex.add (f 0%nat) (f 1%nat)) (f 2%nat)) (f 3%nat).

Definition Rsum4 (f : nat -> R) : R := (f 0%nat + f 1%nat + f 2%nat + f 3%nat)%R.

(* gate.elements[o][j] *)
Definition matrixElement (gate : QuantumMatrix.t R) (o j : nat) : Complex.t R :=
  (QuantumMatrix.elements gate !!! o) !!! j.

(** The inner loop of applyTwoQubitGate for one [state], and what the vector
    under construction holds at [u] after the states below [k]: the loop
    invariant. *)
Section TwoQubitGateLoop.
Variable gate : QuantumMatrix.t R.
Variables c t : nat.
Variable a : list (Complex.t R).

Definition scatter (state : nat) (newAmplitudes : list (Complex.t R))
  : list (Complex.t R) :=
  for_loop 4 (fun outputState newAmplitudes =>
    <[newState state c t outputState :=
        Complex.add (newAmplitudes !!! newState state c t outputState)
                    (Complex.mul (matrixElement gate outputState (inputState state c t))
                                 (a !!! state))]>
      newAmplitudes) newAmplitudes.

Definition gathered (k u : nat) : Complex.t R :=
  Csum4 (fun j => if (newState u c t j <? k)%nat
                  then Complex.mul (matrixElement gate (inputState u c t) j)
                                   (a !!! newState u c t j)
                  else Complex.ZERO).

End TwoQubitGateLoop.

(** The 4x4 matrix with entries [m o j] is unitary: its columns are
    orthonormal. *)
Definition unitary4 (m : nat -> nat -> Complex.t R) : Prop :=
  forall j j', (j < 4)%nat -> (j' < 4)%nat ->
    Csum4 (fun o => Complex.mul (Complex.conj (m o j)) (m o j'))
    = if (j =? j')%nat then Complex.ONE else Complex.ZERO.

(** The running sum of the probabilities of the basis states below [k]. *)
Definition cumulative (amplitudes : list (Complex.t R)) (k : nat) : R :=
  Rsum (fun s => prob (amplitudes !!! s)) k.

(** A lone qubit whose two probabilities sum to one. *)
Definition normalized (s : QuantumState.t R) : Prop :=
  (QuantumState.getProbability0 s + QuantumState.getProbability1 s = 1)%R.

(** What the methods of a tape keep: a size the constructor admits, one
    normalized qubit in each of the [size] cells, the head on a cell and at
    most 1000 entries in the log. *)
Definition tape_invariant (tape : QuantumTape.t R) : Prop :=
  (1 <= QuantumTape.size tape <= 100)%Z /\
  length (QuantumTape.cells tape) = Z.to_nat (QuantumTape.size tape) /\
  Forall (fun cell => exists s, cell = Some s /\ normalized s) (QuantumTape.cells tape) /\
  (0 <= QuantumTape.headPosition tape < QuantumTape.size tape)%Z /\
  (length (QuantumTape.operationHistory tape) <= 1000)%nat.

(** The calls a user of a tape can make, with their arguments and the values
    of Date.now() and Math.random() they read. *)
Inductive TapeCall : Type :=
| call_setState (timestamp position : Z) (state : QuantumState.t R)
| call_setCurrentState (timestamp : Z) (state : QuantumState.t R)
| call_moveLeft (timestamp : Z)
| call_moveRight (timestamp : Z)
| call_applyGate (timestamp1 timestamp2 : Z) (gateName : string) (angle : R)
| call_applyTwoQubitGate (timestamp1 timestamp2 timestamp3 : Z) (gateName : string)
    (targetPosition : Z)
| call_measureCurrent (random : R) (timestamp1 timestamp2 : Z)
| call_measureAll (randoms : nat -> R) (timestamps : nat -> Z) (timestamp : Z)
| call_reset (timestamp : Z)
| call_clearHistory.

(** The tape a call leaves behind, or the error it throws. *)
Definition after_call (call : TapeCall) (tape : QuantumTape.t R)
  : result (QuantumTape.t R) :=
  match call with
  | call_setState timestamp position state =>
    exec (QuantumTape.setState timestamp position state) tape
  | call_setCurrentState timestamp state =>
    exec (QuantumTape.setCurrentState timestamp state) tape
  | call_moveLeft timestamp => exec (QuantumTape.moveLeft timestamp) tape
  | call_moveRight timestamp => exec (QuantumTape.moveRight timestamp) tape
  | call_applyGate timestamp1 timestamp2 gateName angle =>
    exec (QuantumTape.applyGate timestamp1 timestamp2 gateName angle) tape
  | call_applyTwoQubitGate timestamp1 timestamp2 timestamp3 gateName targetPosition =>
    exec (QuantumTape.applyTwoQubitGate timestamp1 timestamp2 timestamp3 gateName
            targetPosition) tape
  | call_measureCurrent random timestamp1 timestamp2 =>
    exec (QuantumTape.measureCurrent random timestamp1 timestamp2) tape
  | call_measureAll randoms timestamps timestamp =>
    exec (QuantumTape.measureAll randoms timestamps timestamp) tape
  | call_reset timestamp => exec (QuantumTape.reset timestamp) tape
  | call_clearHistory => exec QuantumTape.clearHistory tape
  end.

Fixpoint after_calls (calls : list TapeCall) (tape : QuantumTape.t R)
  : result (QuantumTape.t R) :=
  match calls with
  | [] => Ok tape
  | call :: calls' =>
    match after_call call tape with
    | Ok tape' => after_calls calls' tape'
    | Err e => Err e
    end
  end.

(** The sum of a list of reals. *)
Definition Rlist_sum (l : list R) : R := fold_right Rplus 0%R l.

(** ** Registers on IEEE binary64 used in the statements *)

(** The largest value below 1 with 52 fractional bits, 1 - 2^-52: a value
    Math.random() can return. *)
Definition sample_near_1 : float := 0x1.ffffffffffffep-1%float.

(** new QuantumRegister(2) after H on qubit 0 and H on qubit 1: the uniform
    superposition, as binary64 computes it. *)
Definition float_uniform2 : QuantumRegister.t float :=
  Eval vm_compute in
    match QuantumRegister.new 2 with
    | Err _ => QuantumRegister.Build 0 0 []
    | Ok r =>
      snd ((QuantumRegister.applySingleQubitGate QuantumGates.H 0 >>
            QuantumRegister.applySingleQubitGate QuantumGates.H 1)%method r)
    end.

(** new QuantumRegister(1) after H on qubit 0 twice: |0> up to rounding. *)
Definition float_HH1 : QuantumRegister.t float :=
  Eval vm_compute in
    match QuantumRegister.new 1 with
    | Err _ => QuantumRegister.Build 0 0 []
    | Ok r =>
      snd ((QuantumRegister.applySingleQubitGate QuantumGates.H 0 >>
            QuantumRegister.applySingleQubitGate QuantumGates.H 0)%method r)
    end.

(** ** The round trip of mul and div on binary64 *)

(** a.mul(b).div(b) returns, and what it returns equals a up to [eps] in the
    sense of Complex.equals. *)
Definition roundtrip_within {F : Type} {N : JsNum F} (eps : F) (a b : Complex.t F)
  : bool :=
  match Complex.div (Complex.mul a b) b with
  | Ok c => Complex.equals c a eps
  | Err _ => false
  end.

(** The binary64 number k/10: the quotient of two integers that binary64
    holds exactly, rounded once. *)
Definition tenth (k : Z) : float := PrimFloat.div (float_of_Z k) (float_of_Z 10).

(** The integers from -n to n. *)
Definition integers_within (n : nat) : list Z :=
  map (fun i => (Z.of_nat i - Z.of_nat n)%Z) (seq 0 (2 * n + 1)).

(** The round trip, with the tolerance 1e-10, on every a and every b other
    than 0 whose parts are k/10 with |k| <= n. *)
Definition roundtrip_on_tenths (n : nat) : bool :=
  let ks := integers_within n in
  forallb (fun ar => forallb (fun ai => forallb (fun br => forallb (fun bi =>
    ((br =? 0)%Z && (bi =? 0)%Z)
    || roundtrip_within lit_1e_10 (Complex.Build (tenth ar) (tenth ai))
                                  (Complex.Build (tenth br) (tenth bi)))
    ks) ks) ks) ks.

(** * Verification *)

(** ** Exact arithmetic: the facts about [R] the proofs rest on *)

Abbreviation C := (Complex.t R).
Abbreviation Cx x y := (@Complex.Build R x%R y%R).
Abbreviation RRegister := (QuantumRegister.t R).

(** Evaluate the program text and leave the arithmetic of [R] alone. *)
Ltac run :=
  cbv -[Rplus Rmult Rminus Ropp Rdiv Rinv IZR sqrt Rabs Rltb Rlt_dec pow].

Lemma Rltb_true (x y : R) : (x < y)%R -> Rltb x y = true.
Proof. intros H. unfold Rltb. destruct (Rlt_dec x y); [reflexivity | contradiction]. Qed.

Lemma Rltb_false (x y : R) : (y <= x)%R -> Rltb x y = false.
Proof. intros H. unfold Rltb. destruct (Rlt_dec x y); [lra | reflexivity]. Qed.

Lemma Complex_eq (a b : C) :
  Complex.re a = Complex.re b -> Complex.im a = Complex.im b -> a = b.
Proof. destruct a, b; simpl; intros -> ->; reflexivity. Qed.

Lemma clone_id {F} (c : Complex.t F) : Complex.clone c = c.
Proof. destruct c; reflexivity. Qed.

Lemma sqrt_sum_squares (x y : R) :
  (sqrt (x * x + y * y) * sqrt (x * x + y * y) = x * x + y * y)%R.
Proof. apply sqrt_sqrt. nra. Qed.

Lemma abs_squared (c : C) :
  (Complex.abs c * Complex.abs c = Complex.re c * Complex.re c + Complex.im c * Complex.im c)%R.
Proof. apply sqrt_sum_squares. Qed.

Lemma abs_squared_nonneg (c : C) : (0 <= Complex.abs c * Complex.abs c)%R.
Proof. rewrite abs_squared. nra. Qed.

Lemma sqrt2_pos : (0 < sqrt 2)%R.
Proof. apply sqrt_lt_R0; lra. Qed.

Lemma sqrt2_sqrt2 : (sqrt 2 * sqrt 2 = 2)%R.
Proof. apply sqrt_sqrt; lra. Qed.

Lemma inv_sqrt2_squared : (1 / sqrt 2 * (1 / sqrt 2) = 1 / 2)%R.
Proof.
  pose proof sqrt2_pos. pose proof sqrt2_sqrt2 as E.
  replace (1 / sqrt 2 * (1 / sqrt 2))%R with (1 / (sqrt 2 * sqrt 2))%R
    by (field; lra).
  rewrite E. reflexivity.
Qed.

Lemma inv_sqrt2_pos : (0 < 1 / sqrt 2)%R.
Proof. pose proof sqrt2_pos. apply Rdiv_lt_0_compat; lra. Qed.

(** ** Loops *)

Lemma for_loop_S {A} (n : nat) (body : nat -> A -> A) (a : A) :
  for_loop (S n) body a = body n (for_loop n body a).
Proof. unfold for_loop. rewrite seq_S, fold_left_app. reflexivity. Qed.

(** Induction over the iterations of a [for] loop. *)
Lemma for_loop_ind {A} (P : nat -> A -> Prop) (n : nat) (body : nat -> A -> A) (a : A) :
  P 0%nat a ->
  (forall k acc, (k < n)%nat -> P k acc -> P (S k) (body k acc)) ->
  P n (for_loop n body a).
Proof.
  intros H0 Hstep. induction n as [|n IH].
  - exact H0.
  - rewrite for_loop_S. apply Hstep; [lia |]. apply IH.
    intros k acc Hk. apply Hstep. lia.
Qed.

(** A loop whose body calls only methods that succeed and leave the state
    alone is a loop over a local accumulator. *)
Lemma for_each_pure {S A} (l : list nat) (body : nat -> A -> Method S A)
      (g : nat -> A -> A) (s : S) (a : A) :
  (forall i acc, In i l -> body i acc s = (Ok (g i acc), s)) ->
  for_each l body a s = (Ok (fold_left (fun acc i => g i acc) l a), s).
Proof.
  revert a. induction l as [|i l IH]; intros a H.
  - reflexivity.
  - cbn [for_each fold_left]. unfold bind. rewrite H by (left; reflexivity).
    apply IH. intros j acc Hj. apply H. right; exact Hj.
Qed.

Lemma for_loopM_pure {S A} (n : nat) (body : nat -> A -> Method S A)
      (g : nat -> A -> A) (s : S) (a : A) :
  (forall i acc, (i < n)%nat -> body i acc s = (Ok (g i acc), s)) ->
  for_loopM n body a s = (Ok (for_loop n g a), s).
Proof.
  intros H. unfold for_loopM, for_loop. apply for_each_pure.
  intros i acc Hi. apply H. apply in_seq in Hi. lia.
Qed.

(** ** Two-qubit registers with real amplitudes

    The gates and states of the Deutsch and Grover runs are real; the next
    lemmas give one gate application in closed form. *)

Abbreviation reg2 a0 a1 a2 a3 :=
  (@QuantumRegister.Build R 2 4 [Cx a0 0; Cx a1 0; Cx a2 0; Cx a3 0]).

Abbreviation gate2 m00 m01 m10 m11 :=
  (@QuantumMatrix.Build R [[Cx m00 0; Cx m01 0]; [Cx m10 0; Cx m11 0]] 2 2).

Lemma new_2 : QuantumRegister.new (F := R) 2 = Ok (reg2 1 0 0 0).
Proof. reflexivity. Qed.

Lemma amplitudes4_ext (x0 y0 x1 y1 x2 y2 x3 y3 x0' y0' x1' y1' x2' y2' x3' y3' : R) :
  x0 = x0' -> y0 = y0' -> x1 = x1' -> y1 = y1' ->
  x2 = x2' -> y2 = y2' -> x3 = x3' -> y3 = y3' ->
  [Cx x0 y0; Cx x1 y1; Cx x2 y2; Cx x3 y3] = [Cx x0' y0'; Cx x1' y1'; Cx x2' y2'; Cx x3' y3'].
Proof. intros; subst; reflexivity. Qed.

(** One single-qubit gate on a two-qubit register, in closed form; [b0] to
    [b3] are the new amplitudes, in whatever form is convenient. *)
Lemma apply_gate2_qubit0 (m00 m01 m10 m11 a0 a1 a2 a3 b0 b1 b2 b3 : R) :
  (m00 * a0 + m01 * a1 = b0)%R -> (m10 * a0 + m11 * a1 = b1)%R ->
  (m00 * a2 + m01 * a3 = b2)%R -> (m10 * a2 + m11 * a3 = b3)%R ->
  QuantumRegister.applySingleQubitGate (gate2 m00 m01 m10 m11) 0 (reg2 a0 a1 a2 a3)
  = (Ok tt, reg2 b0 b1 b2 b3).
Proof.
  intros <- <- <- <-. run. do 2 f_equal. apply amplitudes4_ext; ring.
Qed.

Lemma apply_gate2_qubit1 (m00 m01 m10 m11 a0 a1 a2 a3 b0 b1 b2 b3 : R) :
  (m00 * a0 + m01 * a2 = b0)%R -> (m00 * a1 + m01 * a3 = b1)%R ->
  (m10 * a0 + m11 * a2 = b2)%R -> (m10 * a1 + m11 * a3 = b3)%R ->
  QuantumRegister.applySingleQubitGate (gate2 m00 m01 m10 m11) 1 (reg2 a0 a1 a2 a3)
  = (Ok tt, reg2 b0 b1 b2 b3).
Proof.
  intros <- <- <- <-. run. do 2 f_equal. apply amplitudes4_ext; ring.
Qed.

Lemma apply_matrix4
      (m00 m01 m02 m03 m10 m11 m12 m13 m20 m21 m22 m23 m30 m31 m32 m33 : R)
      (a0 a1 a2 a3 b0 b1 b2 b3 : R) :
  (m00 * a0 + m01 * a1 + m02 * a2 + m03 * a3 = b0)%R ->
  (m10 * a0 + m11 * a1 + m12 * a2 + m13 * a3 = b1)%R ->
  (m20 * a0 + m21 * a1 + m22 * a2 + m23 * a3 = b2)%R ->
  (m30 * a0 + m31 * a1 + m32 * a2 + m33 * a3 = b3)%R ->
  QuantumMatrix.apply
    (@QuantumMatrix.Build R [[Cx m00 0; Cx m01 0; Cx m02 0; Cx m03 0];
                             [Cx m10 0; Cx m11 0; Cx m12 0; Cx m13 0];
                             [Cx m20 0; Cx m21 0; Cx m22 0; Cx m23 0];
                             [Cx m30 0; Cx m31 0; Cx m32 0; Cx m33 0]] 4 4)
    [Cx a0 0; Cx a1 0; Cx a2 0; Cx a3 0]
  = Ok [Cx b0 0; Cx b1 0; Cx b2 0; Cx b3 0].
Proof.
  intros <- <- <- <-. run. f_equal. apply amplitudes4_ext; ring.
Qed.

(** Measuring qubit 0 of a two-qubit register with real amplitudes gives 0
    whenever the sample is below a0^2 + a2^2, and keeps a0 and a2, rescaled. *)
Lemma measureQubit0_reg2 (a0 a1 a2 a3 random : R) :
  (0 <= random < a0 * a0 + a2 * a2)%R ->
  QuantumRegister.measureQubit 0 random (reg2 a0 a1 a2 a3)
  = (Ok 0%nat, reg2 (a0 / sqrt (a0 * a0 + a2 * a2)) 0 (a2 / sqrt (a0 * a0 + a2 * a2)) 0).
Proof.
  intros H. run. rewrite !sqrt_sum_squares.
  rewrite Rltb_true by lra. run. rewrite !sqrt_sum_squares.
  rewrite Rltb_true by lra.
  replace (0 + (a0 * a0 + 0 * 0) + (a2 * a2 + 0 * 0))%R with (a0 * a0 + a2 * a2)%R by ring.
  do 2 f_equal. apply amplitudes4_ext; unfold Rdiv; ring.
Qed.

(** Symbolic execution of an algorithm: evaluate up to the next gate,
    matrix product or measurement. *)
Ltac sym :=
  cbv -[Rplus Rmult Rminus Ropp Rdiv Rinv IZR sqrt Rabs Rltb Rlt_dec pow
        QuantumRegister.applySingleQubitGate QuantumRegister.measureQubit
        QuantumRegister.measureAll QuantumMatrix.apply Complex.mul];
  fold Real_Num.

(** Closed arithmetic over 1/sqrt 2. *)
Ltac arith :=
  pose proof inv_sqrt2_squared; pose proof inv_sqrt2_pos; pose proof sqrt2_pos;
  repeat match goal with
         | |- context [(-1 / sqrt 2)%R] =>
           replace (-1 / sqrt 2)%R with (- (1 / sqrt 2))%R by (field; lra)
         end;
  generalize dependent (1 / sqrt 2)%R; intros; nra.

(** ** Deutsch's algorithm *)

(** C2, what the code does: for functionType 'balanced-identity', whatever
    sample in [0, 1) the measurement draws, deutschAlgorithm measures 0 and
    returns the interpretation "constant", which its own check marks as
    incorrect. *)
Theorem C2_deutsch_balanced_identity_classified_constant (random : R) :
  (0 <= random < 1)%R ->
  exists res,
    QuantumAlgorithms.deutschAlgorithm "balanced-identity" random = Ok res /\
    DeutschResult.measurementResult res = 0%nat /\
    DeutschResult.interpretation res = constant /\
    DeutschResult.isCorrect res = false.
Proof.
  intros Hr. unfold QuantumAlgorithms.deutschAlgorithm. rewrite new_2.
  sym. rewrite apply_gate2_qubit0
    with (b0 := (2 * (1 / sqrt 2))%R) (b1 := 0%R) (b2 := 0%R) (b3 := 0%R) by arith.
  sym. rewrite apply_gate2_qubit1
    with (b0 := 1%R) (b1 := 0%R) (b2 := 1%R) (b3 := 0%R) by arith.
  sym. rewrite apply_matrix4
    with (b0 := 1%R) (b1 := 0%R) (b2 := 0%R) (b3 := 1%R) by arith.
  sym. rewrite apply_gate2_qubit0
    with (b0 := (1 / sqrt 2)%R) (b1 := (1 / sqrt 2)%R)
         (b2 := (1 / sqrt 2)%R) (b3 := (- (1 / sqrt 2))%R) by arith.
  sym. rewrite measureQubit0_reg2 by (rewrite inv_sqrt2_squared; lra).
  sym. eexists. repeat split; reflexivity.
Qed.

(** The same for 'balanced-not'. *)
Lemma deutsch_balanced_not_classified_constant (random : R) :
  (0 <= random < 1)%R ->
  exists res,
    QuantumAlgorithms.deutschAlgorithm "balanced-not" random = Ok res /\
    DeutschResult.measurementResult res = 0%nat /\
    DeutschResult.interpretation res = constant /\
    DeutschResult.isCorrect res = false.
Proof.
  intros Hr. unfold QuantumAlgorithms.deutschAlgorithm. rewrite new_2.
  sym. rewrite apply_gate2_qubit0
    with (b0 := (2 * (1 / sqrt 2))%R) (b1 := 0%R) (b2 := 0%R) (b3 := 0%R) by arith.
  sym. rewrite apply_gate2_qubit1
    with (b0 := 1%R) (b1 := 0%R) (b2 := 1%R) (b3 := 0%R) by arith.
  sym. rewrite apply_gate2_qubit1
    with (b0 := 1%R) (b1 := 0%R) (b2 := 1%R) (b3 := 0%R) by arith.
  sym. rewrite apply_gate2_qubit0
    with (b0 := (1 / sqrt 2)%R) (b1 := (1 / sqrt 2)%R)
         (b2 := (1 / sqrt 2)%R) (b3 := (1 / sqrt 2)%R) by arith.
  sym. rewrite measureQubit0_reg2 by (rewrite inv_sqrt2_squared; lra).
  sym. eexists. repeat split; reflexivity.
Qed.

(** ** Grover's algorithm *)

Lemma mul_real (a b : R) : Complex.mul (Cx a 0) (Cx b 0) = Cx (a * b) 0.
Proof. unfold Complex.mul; cbn. f_equal; ring. Qed.

(** measureAll never throws. *)
Lemma measureAll_returns (random : R) (r : RRegister) :
  exists i r', QuantumRegister.measureAll random r = (Ok i, r').
Proof.
  unfold QuantumRegister.measureAll.
  destruct (QuantumRegister.measureAll_loop _ _ _ _);
    unfold bind, QuantumRegister.initialize, ret; eexists; eexists; reflexivity.
Qed.

(** C9: groverAlgorithm(2, 1) records, right before the final measurement, a
    probability of the target index 2 that is above 0.25 (it is 1), whatever
    sample the final measurement draws. *)
Theorem C9_grover_target_probability (random : R) :
  exists res p,
    QuantumAlgorithms.groverAlgorithm 2 (Some 1%nat) random = Ok res /\
    GroverResult.targetProbability res = Some p /\
    (0.25 < p)%R.
Proof.
  unfold QuantumAlgorithms.groverAlgorithm.
  change ((2 <? 0)%Z || (3 <? 2)%Z) with false. cbv iota. rewrite new_2.
  sym. rewrite apply_gate2_qubit0
    with (b0 := (1 / sqrt 2)%R) (b1 := (1 / sqrt 2)%R) (b2 := 0%R) (b3 := 0%R) by arith.
  sym. rewrite apply_gate2_qubit1
    with (b0 := (1 / 2)%R) (b1 := (1 / 2)%R) (b2 := (1 / 2)%R) (b3 := (1 / 2)%R) by arith.
  sym. rewrite apply_matrix4
    with (b0 := (1 / 2)%R) (b1 := (1 / 2)%R) (b2 := (- (1 / 2))%R) (b3 := (1 / 2)%R)
    by arith.
  sym. rewrite apply_gate2_qubit0
    with (b0 := (1 / sqrt 2)%R) (b1 := 0%R) (b2 := 0%R) (b3 := (- (1 / sqrt 2))%R)
    by arith.
  sym. rewrite apply_gate2_qubit1
    with (b0 := (1 / 2)%R) (b1 := (- (1 / 2))%R) (b2 := (1 / 2)%R) (b3 := (1 / 2)%R)
    by arith.
  sym. rewrite mul_real.
  sym. rewrite apply_gate2_qubit0
    with (b0 := (- (1 / sqrt 2))%R) (b1 := 0%R) (b2 := (1 / sqrt 2)%R) (b3 := 0%R)
    by arith.
  sym. rewrite apply_gate2_qubit1
    with (b0 := 0%R) (b1 := 0%R) (b2 := (-1)%R) (b3 := 0%R) by arith.
  sym.
  match goal with
  | |- context [QuantumRegister.measureAll ?rnd ?reg] =>
    destruct (measureAll_returns rnd reg) as (i & r' & E); rewrite E
  end.
  sym. eexists. eexists. split; [reflexivity |]. split; [reflexivity |].
  rewrite sqrt_sum_squares. lra.
Qed.

(** ** The two-qubit shortcut on lone qubit states *)

Lemma QuantumState_new_real (a b n a' b' : R) :
  (0 <= n)%R -> (n * n = a * a + b * b)%R -> (1 / 10 ^ 15 <= n)%R ->
  (a / n = a')%R -> (b / n = b')%R ->
  QuantumState.new (Cx a 0) (Cx b 0) = QuantumState.Build (Cx a' 0) (Cx b' 0).
Proof.
  intros Hn Hsq Hbig <- <-. run. rewrite !sqrt_sum_squares.
  replace (a * a + 0 * 0 + (b * b + 0 * 0))%R with (a * a + b * b)%R by ring.
  rewrite (sqrt_lem_1 (a * a + b * b) n) by nra.
  rewrite Rltb_false by lra.
  f_equal; f_equal; unfold Rdiv; ring.
Qed.

Lemma abs_real (x y v : R) :
  (0 <= v)%R -> (v * v = x * x + y * y)%R -> Complex.abs (Cx x y) = v.
Proof. intros Hv Hsq. unfold Complex.abs; cbn. apply sqrt_lem_1; nra. Qed.

Ltac sym_state :=
  cbv -[Rplus Rmult Rminus Ropp Rdiv Rinv IZR sqrt Rabs Rltb Rlt_dec pow
        QuantumState.new Complex.abs];
  fold Real_Num.

Ltac eval_abs :=
  repeat match goal with
         | |- context [Complex.abs (Cx ?x ?y)] =>
           first [ rewrite (abs_real x y (1 / sqrt 2)%R) by arith
                 | rewrite (abs_real x y 0%R) by arith ]
         end.

Lemma plus_real :
  QuantumState.plus (F := R) = QuantumState.Build (Cx (1 / sqrt 2) 0) (Cx (1 / sqrt 2) 0).
Proof.
  sym_state. apply (QuantumState_new_real _ _ 1%R); try lra; try arith.
Qed.

Lemma zero_real : QuantumState.zero (F := R) = QuantumState.Build (Cx 1 0) (Cx 0 0).
Proof.
  sym_state. apply (QuantumState_new_real _ _ 1%R); lra.
Qed.

Ltac arith_sqrt2 :=
  pose proof sqrt2_sqrt2; pose proof sqrt2_pos;
  generalize dependent (sqrt 2); intros;
  first [ lra | nra | field_simplify_eq; [nra | lra] ].

Lemma inv_sqrt2_not_tiny : (1 / 10 ^ 15 <= 1 / sqrt 2)%R.
Proof. arith. Qed.

Lemma cnot_plus_zero :
  QuantumGates.cnot (F := R) QuantumState.plus QuantumState.zero
  = Ok (QuantumState.Build (Cx (1 / sqrt 2) 0) (Cx (1 / sqrt 2) 0),
        QuantumState.Build (Cx (1 / sqrt 2) 0) (Cx (1 / sqrt 2) 0)).
Proof.
  rewrite plus_real, zero_real. sym_state. eval_abs.
  rewrite !(QuantumState_new_real _ _ (1 / sqrt 2)%R (1 / sqrt 2)%R (1 / sqrt 2)%R);
    try apply inv_sqrt2_not_tiny; try (left; apply inv_sqrt2_pos); try arith_sqrt2.
  reflexivity.
Qed.

Lemma cnot_exact :
  QuantumMatrix.apply QuantumGates.CNOT
    (ComplexUtils.tensorProduct
       [QuantumState.alpha QuantumState.plus; QuantumState.beta QuantumState.plus]
       [QuantumState.alpha QuantumState.zero; QuantumState.beta (QuantumState.zero (F := R))])
  = Ok [Cx (1 / sqrt 2) 0; Cx 0 0; Cx 0 0; Cx (1 / sqrt 2) 0].
Proof.
  rewrite plus_real, zero_real. run. f_equal. apply amplitudes4_ext; ring.
Qed.

(** C10: on the inputs |+> and |0>, the two states that the shortcut
    QuantumGates.applyTwoQubitGate returns for CNOT have a tensor product that
    differs from the CNOT matrix applied to the tensor product of the inputs
    (the entangled (|00> + |11>)/sqrt 2). *)
Theorem C10_cnot_shortcut_misrepresents_entangled_pair :
  exists out1 out2 exact,
    QuantumGates.cnot (F := R) QuantumState.plus QuantumState.zero = Ok (out1, out2) /\
    QuantumMatrix.apply QuantumGates.CNOT
      (ComplexUtils.tensorProduct
         [QuantumState.alpha QuantumState.plus; QuantumState.beta QuantumState.plus]
         [QuantumState.alpha QuantumState.zero; QuantumState.beta QuantumState.zero])
    = Ok exact /\
    ComplexUtils.tensorProduct
      [QuantumState.alpha out1; QuantumState.beta out1]
      [QuantumState.alpha out2; QuantumState.beta out2] <> exact.
Proof.
  do 3 eexists. split; [apply cnot_plus_zero |]. split; [apply cnot_exact |].
  run. intros E. injection E as _ _ E _ _ _ _ _. 
  pose proof inv_sqrt2_squared. lra.
Qed.

(** ** Bits of a basis-state index *)

Lemma bit_testbit (s q : nat) : bit s q = Nat.b2n (Nat.testbit s q).
Proof.
  unfold bit. rewrite Nat.shiftr_div_pow2.
  change (Nat.land (s / 2 ^ q) 1) with (Nat.land (s / 2 ^ q) (Nat.ones 1)).
  rewrite Nat.land_ones.
  rewrite Nat.testbit_spec'. reflexivity.
Qed.

Lemma bit_0_or_1 (s q : nat) : bit s q = 0%nat \/ bit s q = 1%nat.
Proof. rewrite bit_testbit. destruct (Nat.testbit s q); auto. Qed.

Lemma flip_flip (s q : nat) : flip (flip s q) q = s.
Proof.
  unfold flip. rewrite Nat.lxor_assoc, Nat.lxor_nilpotent, Nat.lxor_0_r. reflexivity.
Qed.

Lemma flip_neq (s q : nat) : flip s q <> s.
Proof.
  unfold flip. intros E.
  assert (H : Nat.lxor (Nat.lxor s (Nat.shiftl 1 q)) s = 0%nat)
    by (rewrite E; apply Nat.lxor_nilpotent).
  rewrite (Nat.lxor_comm s), Nat.lxor_assoc, Nat.lxor_nilpotent, Nat.lxor_0_r in H.
  rewrite Nat.shiftl_1_l in H. pose proof (Nat.pow_nonzero 2 q). lia.
Qed.

Lemma testbit_flip (s q : nat) : Nat.testbit (flip s q) q = negb (Nat.testbit s q).
Proof.
  unfold flip. rewrite Nat.lxor_spec, Nat.shiftl_1_l, Nat.pow2_bits_true.
  destruct (Nat.testbit s q); reflexivity.
Qed.

Lemma bit_flip (s q : nat) : bit (flip s q) q = (1 - bit s q)%nat.
Proof. rewrite !bit_testbit, testbit_flip. destruct (Nat.testbit s q); reflexivity. Qed.

Lemma flip_lt (s q n : nat) : (s < 2 ^ n)%nat -> (q < n)%nat -> (flip s q < 2 ^ n)%nat.
Proof.
  intros Hs Hq. unfold flip. rewrite Nat.shiftl_1_l.
  destruct (Nat.eq_dec (Nat.lxor s (2 ^ q)) 0) as [E | NE].
  - rewrite E. pose proof (Nat.pow_nonzero 2 n). lia.
  - apply Nat.log2_lt_pow2; [lia |].
    eapply Nat.le_lt_trans; [apply Nat.log2_lxor |].
    apply Nat.max_lub_lt.
    + destruct (Nat.eq_dec s 0) as [-> | Hs0]; [change (Nat.log2 0) with 0%nat; lia |].
      apply Nat.log2_lt_pow2; lia.
    + rewrite Nat.log2_pow2 by lia. exact Hq.
Qed.


(** ** applySingleQubitGate as a linear map *)

Lemma Cadd_0_l (c : C) : Complex.add Complex.ZERO c = c.
Proof. apply Complex_eq; cbn; ring. Qed.

Lemma Cadd_0_r (c : C) : Complex.add c Complex.ZERO = c.
Proof. apply Complex_eq; cbn; ring. Qed.

Lemma Cadd_comm (a b : C) : Complex.add a b = Complex.add b a.
Proof. apply Complex_eq; cbn; ring. Qed.

(** The loop that fills the fresh amplitude vector with zeros. *)
Lemma zero_fill (n : nat) :
  for_loop n (fun state newAmplitudes =>
                <[state := Complex.clone Complex.ZERO]> newAmplitudes)
           (replicate n (Complex.ZERO (F := R)))
  = replicate n Complex.ZERO.
Proof.
  apply (for_loop_ind (fun _ acc => acc = replicate n Complex.ZERO)); [reflexivity |].
  intros k acc Hk ->. apply list_insert_id. apply lookup_replicate_2. exact Hk.
Qed.

Lemma gate_step_partial (m00 m01 m10 m11 : C) (q : nat) (a : list C)
      (n k : nat) (acc : list C) :
  (q < n)%nat -> (k < 2 ^ n)%nat ->
  length acc = (2 ^ n)%nat ->
  (forall t, (t < 2 ^ n)%nat -> acc !!! t = partial m00 m01 m10 m11 q a k t) ->
  length (gate_step m00 m01 m10 m11 q a k acc) = (2 ^ n)%nat /\
  (forall t, (t < 2 ^ n)%nat ->
     gate_step m00 m01 m10 m11 q a k acc !!! t = partial m00 m01 m10 m11 q a (S k) t).
Proof.
  intros Hq Hk Hlen Hacc. unfold gate_step. cbv zeta. split.
  - rewrite !length_insert. exact Hlen.
  - intros t Ht.
    pose proof (flip_neq k q) as Hne. pose proof (flip_lt k q n Hk Hq) as Hfl.
    destruct (Nat.eq_dec t (flip k q)) as [-> | Hn1].
    + rewrite list_lookup_total_insert_eq by (rewrite length_insert; lia).
      rewrite list_lookup_total_insert_ne by auto.
      rewrite Hacc by exact Hfl. unfold partial.
      rewrite flip_flip, bit_flip.
      replace (flip k q <? S k)%nat with (flip k q <? k)%nat
        by (destruct (Nat.ltb_spec (flip k q) k), (Nat.ltb_spec (flip k q) (S k)); auto; lia).
      rewrite Nat.ltb_irrefl, (proj2 (Nat.ltb_lt k (S k))) by lia.
      destruct (bit_0_or_1 k q) as [-> | ->]; cbn [Nat.sub];
        rewrite Cadd_0_r; reflexivity.
    + rewrite list_lookup_total_insert_ne by auto.
      destruct (Nat.eq_dec t k) as [-> | Hn2].
      * rewrite list_lookup_total_insert_eq by lia.
        rewrite Hacc by exact Hk. unfold partial.
        replace (flip k q <? S k)%nat with (flip k q <? k)%nat
          by (destruct (Nat.ltb_spec (flip k q) k), (Nat.ltb_spec (flip k q) (S k));
              auto; lia).
        rewrite Nat.ltb_irrefl, (proj2 (Nat.ltb_lt k (S k))) by lia.
        rewrite Cadd_0_l. apply Cadd_comm.
      * rewrite list_lookup_total_insert_ne by auto.
        rewrite Hacc by exact Ht. unfold partial.
        assert (flip t q <> k) by (intros <-; apply Hn1; symmetry; apply flip_flip).
        replace (t <? S k)%nat with (t <? k)%nat
          by (destruct (Nat.ltb_spec t k), (Nat.ltb_spec t (S k)); auto; lia).
        replace (flip t q <? S k)%nat with (flip t q <? k)%nat
          by (destruct (Nat.ltb_spec (flip t q) k), (Nat.ltb_spec (flip t q) (S k));
              auto; lia).
        reflexivity.
Qed.


(** The amplitude vector applySingleQubitGate builds, position by position. *)
Lemma applySingleQubitGate_amplitudes (m00 m01 m10 m11 : C) (q : nat) (r : RRegister) :
  QuantumRegister.wf r ->
  (q < QuantumRegister.numQubits r)%nat ->
  exists new,
    QuantumRegister.applySingleQubitGate
      (QuantumMatrix.new [[m00; m01]; [m10; m11]]) (Z.of_nat q) r
    = (Ok tt, QuantumRegister.set_amplitudes new r) /\
    length new = QuantumRegister.dimension r /\
    forall t, (t < QuantumRegister.dimension r)%nat ->
      new !!! t =
      Complex.add
        (Complex.mul (entry m00 m01 m10 m11 (bit t q) (bit t q))
                     (QuantumRegister.amplitudes r !!! t))
        (Complex.mul (entry m00 m01 m10 m11 (bit t q) (1 - bit t q))
                     (QuantumRegister.amplitudes r !!! flip t q)).
Proof.
  intros (Hn & Hdim & Hlen) Hq.
  unfold QuantumRegister.applySingleQubitGate.
  replace ((Z.of_nat q <? 0)%Z || (Z.of_nat (QuantumRegister.numQubits r) <=? Z.of_nat q)%Z)
    with false
    by (symmetry; apply orb_false_intro; [apply Z.ltb_ge | apply Z.leb_gt]; lia).
  rewrite Nat2Z.id. cbv zeta. rewrite zero_fill.
  eexists. split; [reflexivity |].
  rewrite Hdim.
  match goal with
  | |- context [for_loop _ ?body _] =>
    assert (Hbody : forall state acc,
               body state acc
               = gate_step m00 m01 m10 m11 q (QuantumRegister.amplitudes r) state acc)
  end.
  { intros state acc. unfold gate_step. fold (bit state q). fold (flip state q).
    destruct (bit_0_or_1 state q) as [-> | ->]; reflexivity. }
  set (P := fun k acc =>
              length acc = (2 ^ QuantumRegister.numQubits r)%nat /\
              forall t, (t < 2 ^ QuantumRegister.numQubits r)%nat ->
                        acc !!! t
                        = partial m00 m01 m10 m11 q (QuantumRegister.amplitudes r) k t).
  match goal with
  | |- context [for_loop ?n ?body ?init] => assert (HP : P n (for_loop n body init))
  end.
  { apply for_loop_ind.
    - split; [apply length_replicate |].
      intros t Ht. rewrite lookup_total_replicate_2 by exact Ht.
      unfold partial. rewrite !Nat.ltb_irrefl || idtac.
      replace (t <? 0)%nat with false by (symmetry; apply Nat.ltb_ge; lia).
      replace (flip t q <? 0)%nat with false by (symmetry; apply Nat.ltb_ge; lia).
      symmetry. apply Cadd_0_l.
    - intros k acc Hk [Hl Hacc]. rewrite Hbody.
      apply (gate_step_partial m00 m01 m10 m11 q _ (QuantumRegister.numQubits r));
        assumption. }
  destruct HP as [Hl Hacc]. split; [exact Hl |].
  intros t Ht. rewrite Hacc by exact Ht. unfold partial.
  rewrite (proj2 (Nat.ltb_lt _ _) Ht).
  rewrite (proj2 (Nat.ltb_lt _ _) (flip_lt t q _ Ht Hq)). reflexivity.
Qed.

(** C3: for a 2x2 matrix M and a qubit q in range, applySingleQubitGate
    replaces the amplitudes by I (x) ... (x) M (x) ... (x) I with M in slot q:
    for every index s whose bit q is 0, with partner s' = s xor 2^q, the new
    amplitude at s is M00 a_s + M01 a_s' and the new amplitude at s' is
    M10 a_s + M11 a_s'; for q out of range the method throws the
    qubit-index error and the register is left as it was. *)
Theorem C3_applySingleQubitGate_linear_map
        (r : RRegister) (m00 m01 m10 m11 : C) (q : Z) :
  QuantumRegister.wf r ->
  let gate := QuantumMatrix.new [[m00; m01]; [m10; m11]] in
  let a := QuantumRegister.amplitudes r in
  ((0 <= q < Z.of_nat (QuantumRegister.numQubits r))%Z ->
   exists r',
     QuantumRegister.applySingleQubitGate gate q r = (Ok tt, r') /\
     QuantumRegister.numQubits r' = QuantumRegister.numQubits r /\
     QuantumRegister.dimension r' = QuantumRegister.dimension r /\
     length (QuantumRegister.amplitudes r') = QuantumRegister.dimension r /\
     forall s, (s < QuantumRegister.dimension r)%nat -> bit s (Z.to_nat q) = 0%nat ->
       let s' := flip s (Z.to_nat q) in
       QuantumRegister.amplitudes r' !!! s
       = Complex.add (Complex.mul m00 (a !!! s)) (Complex.mul m01 (a !!! s')) /\
       QuantumRegister.amplitudes r' !!! s'
       = Complex.add (Complex.mul m10 (a !!! s)) (Complex.mul m11 (a !!! s'))) /\
  (~ (0 <= q < Z.of_nat (QuantumRegister.numQubits r))%Z ->
   QuantumRegister.applySingleQubitGate gate q r = (Err QubitIndexOutOfRange, r)).
Proof.
  intros Hwf gate a. split.
  - intros Hq.
    destruct (applySingleQubitGate_amplitudes m00 m01 m10 m11 (Z.to_nat q) r Hwf)
      as (new & Happly & Hlen & Hnew); [lia |].
    rewrite Z2Nat.id in Happly by lia.
    exists (QuantumRegister.set_amplitudes new r).
    split; [exact Happly |]. split; [reflexivity |]. split; [reflexivity |].
    split; [exact Hlen |].
    intros s Hs Hbit s'. cbn [QuantumRegister.amplitudes QuantumRegister.set_amplitudes].
    destruct Hwf as (Hn & Hdim & Hl).
    assert (Hs' : (s' < QuantumRegister.dimension r)%nat)
      by (rewrite Hdim in *; apply flip_lt; lia).
    rewrite (Hnew s Hs), (Hnew s' Hs'). unfold s'.
    rewrite bit_flip, flip_flip, Hbit. cbn [Nat.sub entry].
    split; [reflexivity | apply Cadd_comm].
  - intros Hq. unfold QuantumRegister.applySingleQubitGate.
    replace ((q <? 0)%Z || (Z.of_nat (QuantumRegister.numQubits r) <=? q)%Z) with true;
      [reflexivity |].
    symmetry. apply orb_true_iff.
    destruct (Z.ltb_spec q 0); [left; reflexivity | right; apply Z.leb_le; lia].
Qed.

(** ** measureQubit *)

Lemma for_loop_sum (n : nat) (c : nat -> bool) (f : nat -> R) :
  for_loop n (fun s acc => if c s then (acc + f s)%R else acc) 0%R
  = Rsum (fun s => if c s then f s else 0%R) n.
Proof.
  induction n as [|n IH]; [reflexivity |].
  rewrite for_loop_S, IH. cbn [Rsum]. destruct (c n); lra.
Qed.

Lemma Rsum_ext (f g : nat -> R) (n : nat) :
  (forall i, (i < n)%nat -> f i = g i) -> Rsum f n = Rsum g n.
Proof.
  induction n as [|n IH]; intros H; [reflexivity |].
  cbn [Rsum]. rewrite IH, H by (intros; try apply H; lia). reflexivity.
Qed.

Lemma Rsum_nonneg (f : nat -> R) (n : nat) :
  (forall i, (i < n)%nat -> (0 <= f i)%R) -> (0 <= Rsum f n)%R.
Proof.
  induction n as [|n IH]; intros H; cbn [Rsum]; [lra |].
  pose proof (H n ltac:(lia)). pose proof (IH ltac:(intros; apply H; lia)). lra.
Qed.

Lemma prob_nonneg (c : C) : (0 <= prob c)%R.
Proof. apply abs_squared_nonneg. Qed.

Lemma outcomeProbability_nonneg (a : list C) (q outcome : nat) :
  (0 <= outcomeProbability a q outcome)%R.
Proof.
  apply Rsum_nonneg. intros i _. destruct (_ =? _)%nat; [apply prob_nonneg | lra].
Qed.

Lemma getProbability_in_range (r : RRegister) (state : nat) :
  (state < QuantumRegister.dimension r)%nat ->
  QuantumRegister.getProbability (Z.of_nat state) r
  = (Ok (prob (QuantumRegister.amplitudes r !!! state)), r).
Proof.
  intros H. unfold QuantumRegister.getProbability, QuantumRegister.getAmplitude, bind, ret.
  replace ((Z.of_nat state <? 0)%Z || (Z.of_nat (QuantumRegister.dimension r) <=? Z.of_nat state)%Z)
    with false
    by (symmetry; apply orb_false_intro; [apply Z.ltb_ge | apply Z.leb_gt]; lia).
  rewrite Nat2Z.id, clone_id. reflexivity.
Qed.

(** The first loop of measureQubit: the probability of reading 0. *)
Lemma measureQubit_prob0 (r : RRegister) (q : nat) :
  length (QuantumRegister.amplitudes r) = QuantumRegister.dimension r ->
  for_loopM (QuantumRegister.dimension r)
    (fun state prob0 =>
       if (Nat.land (Nat.shiftr state q) 1 =? 0)%nat
       then (QuantumRegister.getProbability (Z.of_nat state) >>=
             fun p => ret (prob0 + p)%num)%method
       else ret prob0) 0%R r
  = (Ok (outcomeProbability (QuantumRegister.amplitudes r) q 0), r).
Proof.
  intros Hlen. unfold outcomeProbability. rewrite Hlen.
  rewrite <- (for_loop_sum _ (fun s => (bit s q =? 0)%nat)
                           (fun s => prob (QuantumRegister.amplitudes r !!! s))).
  apply for_loopM_pure. intros i acc Hi. fold (bit i q).
  destruct (bit i q =? 0)%nat; [| reflexivity].
  unfold bind. rewrite getProbability_in_range by exact Hi. reflexivity.
Qed.

(** The second loop: collapse, and the probability of the outcome. *)
Lemma measureQubit_collapse (a : list C) (q outcome n : nat) :
  length a = n ->
  exists collapsed,
    for_loop n
      (fun state '(newAmplitudes, normalizationFactor) =>
         if (Nat.land (Nat.shiftr state q) 1 =? outcome)%nat
         then
           (<[state := Complex.clone (a !!! state)]> newAmplitudes,
            (normalizationFactor +
             Complex.abs (<[state := Complex.clone (a !!! state)]> newAmplitudes !!! state) *
             Complex.abs (<[state := Complex.clone (a !!! state)]> newAmplitudes !!! state))%R)
         else (<[state := Complex.clone Complex.ZERO]> newAmplitudes, normalizationFactor))
      (replicate n Complex.ZERO, 0%R)
    = (collapsed, outcomeProbability a q outcome) /\
    length collapsed = n /\
    forall t, (t < n)%nat ->
      collapsed !!! t = if (bit t q =? outcome)%nat then a !!! t else Complex.ZERO.
Proof.
  intros Hlen. unfold outcomeProbability. rewrite Hlen.
  set (f := fun s => if (bit s q =? outcome)%nat then prob (a !!! s) else 0%R).
  match goal with
  | |- context [for_loop n ?body ?init] =>
    assert (H : forall k, (k <= n)%nat ->
              exists acc, for_loop k body init = (acc, Rsum f k) /\
                          length acc = n /\
                          forall t, (t < n)%nat ->
                            acc !!! t = if (t <? k)%nat
                                        then (if (bit t q =? outcome)%nat
                                              then a !!! t else Complex.ZERO)
                                        else Complex.ZERO)
  end.
  { induction k as [|k IH]; intros Hk.
    - eexists. split; [reflexivity |]. split; [apply length_replicate |].
      intros t Ht. rewrite lookup_total_replicate_2 by exact Ht. reflexivity.
    - destruct (IH ltac:(lia)) as (acc & E & Hl & Hacc).
      rewrite for_loop_S, E. fold (bit k q). unfold f at 2. cbn [Rsum].
      destruct (bit k q =? outcome)%nat eqn:Hb.
      + eexists. split.
        * rewrite list_lookup_total_insert_eq by lia. rewrite clone_id.
          unfold f. rewrite Hb. reflexivity.
        * split; [rewrite length_insert; exact Hl |].
          intros t Ht. destruct (Nat.eq_dec t k) as [-> | Hne].
          -- rewrite list_lookup_total_insert_eq by lia.
             rewrite (proj2 (Nat.ltb_lt k (S k))) by lia. rewrite Hb. rewrite ?clone_id. reflexivity.
          -- rewrite list_lookup_total_insert_ne by auto. rewrite Hacc by exact Ht.
             replace (t <? S k)%nat with (t <? k)%nat
               by (destruct (Nat.ltb_spec t k), (Nat.ltb_spec t (S k)); auto; lia).
             reflexivity.
      + eexists. split.
        * unfold f. rewrite Hb. rewrite Rplus_0_r. reflexivity.
        * split; [rewrite length_insert; exact Hl |].
          intros t Ht. destruct (Nat.eq_dec t k) as [-> | Hne].
          -- rewrite list_lookup_total_insert_eq by lia.
             rewrite (proj2 (Nat.ltb_lt k (S k))) by lia. rewrite Hb. reflexivity.
          -- rewrite list_lookup_total_insert_ne by auto. rewrite Hacc by exact Ht.
             replace (t <? S k)%nat with (t <? k)%nat
               by (destruct (Nat.ltb_spec t k), (Nat.ltb_spec t (S k)); auto; lia).
             reflexivity. }
  destruct (H n ltac:(lia)) as (acc & E & Hl & Hacc).
  exists acc. split; [exact E |]. split; [exact Hl |].
  intros t Ht. rewrite Hacc by exact Ht. rewrite (proj2 (Nat.ltb_lt t n)) by exact Ht.
  reflexivity.
Qed.

(** The third loop: division of every amplitude by the norm. *)
Lemma measureQubit_renormalize (l : list C) (norm : R) :
  exists scaled,
    for_loop (length l)
      (fun state newAmplitudes =>
         <[state := Complex.Build (Complex.re (newAmplitudes !!! state) / norm)%R
                                  (Complex.im (newAmplitudes !!! state) / norm)%R]>
           newAmplitudes) l
    = scaled /\
    length scaled = length l /\
    forall t, (t < length l)%nat -> scaled !!! t = scale (l !!! t) norm.
Proof.
  eexists. split; [reflexivity |].
  match goal with
  | |- context [for_loop ?n ?body ?init] =>
    assert (H : forall k, (k <= n)%nat ->
              length (for_loop k body init) = n /\
              forall t, (t < n)%nat ->
                for_loop k body init !!! t
                = if (t <? k)%nat then scale (l !!! t) norm else l !!! t)
  end.
  { induction k as [|k IH]; intros Hk.
    - split; [reflexivity |]. intros t Ht. reflexivity.
    - destruct (IH ltac:(lia)) as (Hl & Hacc). rewrite for_loop_S. split.
      + rewrite length_insert. exact Hl.
      + intros t Ht. destruct (Nat.eq_dec t k) as [-> | Hne].
        * rewrite list_lookup_total_insert_eq by lia.
          rewrite (proj2 (Nat.ltb_lt k (S k))) by lia.
          rewrite Hacc by lia. rewrite Nat.ltb_irrefl. reflexivity.
        * rewrite list_lookup_total_insert_ne by auto. rewrite Hacc by exact Ht.
          replace (t <? S k)%nat with (t <? k)%nat
            by (destruct (Nat.ltb_spec t k), (Nat.ltb_spec t (S k)); auto; lia).
          reflexivity. }
  destruct (H (length l) ltac:(lia)) as (Hl & Hacc). split; [exact Hl |].
  intros t Ht. rewrite Hacc by exact Ht. rewrite (proj2 (Nat.ltb_lt _ _) Ht). reflexivity.
Qed.

Ltac real_ops :=
  cbn [nadd nsub nmul ndiv nneg nsqrt nabs nlt nof_Z lit_1e_15 lit_1e_10 Real_Num].

Lemma guard_in_range (q : nat) (n : nat) :
  (q < n)%nat -> ((Z.of_nat q <? 0)%Z || (Z.of_nat n <=? Z.of_nat q)%Z) = false.
Proof. intros H. apply orb_false_intro; [apply Z.ltb_ge | apply Z.leb_gt]; lia. Qed.

(** measureQubit in closed form. *)
Lemma measureQubit_spec (r : RRegister) (q : nat) (random : R) :
  QuantumRegister.wf r ->
  (q < QuantumRegister.numQubits r)%nat ->
  let a := QuantumRegister.amplitudes r in
  let outcome := if Rltb random (outcomeProbability a q 0) then 0%nat else 1%nat in
  let p := outcomeProbability a q outcome in
  exists new,
    QuantumRegister.measureQubit (Z.of_nat q) random r
    = (Ok outcome, QuantumRegister.set_amplitudes new r) /\
    length new = QuantumRegister.dimension r /\
    forall t, (t < QuantumRegister.dimension r)%nat ->
      new !!! t =
      let c := if (bit t q =? outcome)%nat then a !!! t else Complex.ZERO in
      if Rltb 0 p then scale c (sqrt p) else c.
Proof.
  intros (Hn & Hdim & Hlen) Hq a outcome p.
  unfold QuantumRegister.measureQubit.
  rewrite guard_in_range by exact Hq. rewrite Nat2Z.id.
  cbv zeta. real_ops. unfold bind at 1.
  rewrite measureQubit_prob0 by exact Hlen.
  unfold bind, get, put, ret. fold a. fold outcome.
  destruct (measureQubit_collapse a q outcome (QuantumRegister.dimension r) Hlen)
    as (collapsed & E & Hcl & Hc).
  rewrite E. fold p.
  destruct (Rltb 0 p).
  - destruct (measureQubit_renormalize collapsed (sqrt p)) as (scaled & Es & Hsl & Hs).
    rewrite Hcl in Es. rewrite Es.
    eexists. split; [reflexivity |]. split; [lia |].
    intros t Ht. rewrite Hs by lia. rewrite Hc by exact Ht. reflexivity.
  - eexists. split; [reflexivity |]. split; [exact Hcl |].
    intros t Ht. rewrite Hc by exact Ht. reflexivity.
Qed.

Lemma scale_ZERO (k : R) : scale Complex.ZERO k = Complex.ZERO.
Proof. apply Complex_eq; cbn; unfold Rdiv; ring. Qed.

Lemma Rsum_zero_terms (f : nat -> R) (n : nat) :
  (forall i, (i < n)%nat -> (0 <= f i)%R) -> Rsum f n = 0%R ->
  forall i, (i < n)%nat -> f i = 0%R.
Proof.
  induction n as [|n IH]; intros Hpos Hsum i Hi; [lia |].
  cbn [Rsum] in Hsum.
  pose proof (Hpos n ltac:(lia)).
  pose proof (Rsum_nonneg f n ltac:(intros; apply Hpos; lia)).
  destruct (Nat.eq_dec i n) as [-> | Hne]; [lra |].
  apply IH; [intros; apply Hpos; lia | lra | lia].
Qed.

Lemma prob_zero (c : C) : prob c = 0%R -> c = Complex.ZERO.
Proof.
  unfold prob. rewrite abs_squared. intros H.
  apply Complex_eq; cbn; nra.
Qed.

(** C5, what the code does: when the probability of the sampled outcome is
    exactly zero, measureQubit returns without an error and leaves every
    amplitude at zero; the register is not reset to |0...0>. *)
Theorem C5_measureQubit_zero_probability_leaves_zero_vector
        (r : RRegister) (q : Z) (random : R) :
  QuantumRegister.wf r ->
  (0 <= q < Z.of_nat (QuantumRegister.numQubits r))%Z ->
  exists outcome r',
    QuantumRegister.measureQubit q random r = (Ok outcome, r') /\
    (outcomeProbability (QuantumRegister.amplitudes r) (Z.to_nat q) outcome = 0%R ->
     (forall s, (s < QuantumRegister.dimension r)%nat ->
                QuantumRegister.amplitudes r' !!! s = Complex.ZERO) /\
     QuantumRegister.amplitudes r' <> zeroState (QuantumRegister.dimension r)).
Proof.
  intros Hwf Hq.
  destruct (measureQubit_spec r (Z.to_nat q) random Hwf ltac:(lia))
    as (new & Hrun & Hlen & Hnew).
  rewrite Z2Nat.id in Hrun by lia.
  eexists. eexists. split; [exact Hrun |].
  set (a := QuantumRegister.amplitudes r) in *.
  set (outcome := if Rltb random (outcomeProbability a (Z.to_nat q) 0)
                  then 0%nat else 1%nat) in *.
  intros Hp. cbn [QuantumRegister.amplitudes QuantumRegister.set_amplitudes].
  assert (Hall : forall s, (s < QuantumRegister.dimension r)%nat -> new !!! s = Complex.ZERO).
  { intros s Hs. rewrite (Hnew s Hs). cbv zeta. rewrite Hp.
    rewrite Rltb_false by lra.
    destruct (bit s (Z.to_nat q) =? outcome)%nat eqn:Hb; [| reflexivity].
    apply prob_zero.
    destruct Hwf as (_ & _ & Hl). fold a in Hl.
    unfold outcomeProbability in Hp. rewrite Hl in Hp.
    pose proof (fun H => Rsum_zero_terms _ _ H Hp s Hs) as Hz.
    cbv beta in Hz. rewrite Hb in Hz. apply Hz.
    intros i _. destruct (bit i (Z.to_nat q) =? outcome)%nat; [apply prob_nonneg | lra]. }
  split; [exact Hall |].
  intros Heq.
  destruct Hwf as (_ & Hdim & _).
  assert (H0 : (0 < QuantumRegister.dimension r)%nat)
    by (rewrite Hdim; pose proof (Nat.pow_nonzero 2 (QuantumRegister.numQubits r)); lia).
  pose proof (Hall 0%nat H0) as Hz. rewrite Heq in Hz. unfold zeroState in Hz.
  rewrite list_lookup_total_insert_eq in Hz by (rewrite length_replicate; exact H0).
  apply (f_equal Complex.re) in Hz. cbn in Hz. lra.
Qed.

(** ** Complex division *)

(** div raises whenever the squared magnitude of the divisor is below 1e-15. *)
Lemma div_by_small (c b : C) :
  (Complex.re b * Complex.re b + Complex.im b * Complex.im b < 1 / 10 ^ 15)%R ->
  Complex.div c b = Err DivisionByZero.
Proof.
  intros H. unfold Complex.div. real_ops.
  rewrite Rabs_pos_eq by nra. rewrite Rltb_true by lra. reflexivity.
Qed.

Lemma integers_within_In (n : nat) (k : Z) :
  (- Z.of_nat n <= k <= Z.of_nat n)%Z -> In k (integers_within n).
Proof.
  intros H. unfold integers_within. apply in_map_iff.
  exists (Z.to_nat (k + Z.of_nat n)). split; [lia |].
  apply in_seq. lia.
Qed.

Lemma roundtrip_on_tenths_spec (n : nat) (ar ai br bi : Z) :
  roundtrip_on_tenths n = true ->
  (- Z.of_nat n <= ar <= Z.of_nat n)%Z -> (- Z.of_nat n <= ai <= Z.of_nat n)%Z ->
  (- Z.of_nat n <= br <= Z.of_nat n)%Z -> (- Z.of_nat n <= bi <= Z.of_nat n)%Z ->
  br <> 0%Z \/ bi <> 0%Z ->
  roundtrip_within lit_1e_10 (Complex.Build (tenth ar) (tenth ai))
                             (Complex.Build (tenth br) (tenth bi)) = true.
Proof.
  intros G Har Hai Hbr Hbi Hb. unfold roundtrip_on_tenths in G. cbv zeta in G.
  rewrite forallb_forall in G.
  specialize (G ar (integers_within_In n ar Har)). rewrite forallb_forall in G.
  specialize (G ai (integers_within_In n ai Hai)). rewrite forallb_forall in G.
  specialize (G br (integers_within_In n br Hbr)). rewrite forallb_forall in G.
  specialize (G bi (integers_within_In n bi Hbi)).
  assert (Hz : ((br =? 0)%Z && (bi =? 0)%Z) = false).
  { destruct Hb as [Hb | Hb]; apply Z.eqb_neq in Hb; rewrite Hb;
      [reflexivity | apply andb_false_r]. }
  rewrite Hz in G. exact G.
Qed.

Lemma roundtrip_on_tenths_10 : roundtrip_on_tenths 10 = true.
Proof. vm_compute. reflexivity. Qed.

(** C7, amended: a.mul(b).div(b) raises the division-by-zero error exactly
    when the squared magnitude re(b)^2 + im(b)^2 that div computes is below
    1e-15 in absolute value, and returns otherwise, in every number model.  In
    exact arithmetic what it returns is a.  On binary64, for all a and b whose
    real and imaginary parts are k/10 with |k| <= 10, b other than 0, it
    returns and the result equals a up to the tolerance 1e-10 of
    Complex.equals. *)
Theorem C7_mul_div_roundtrip :
  (forall (F : Type) (N : JsNum F) (a b : Complex.t F),
     let denominator := (Complex.re b * Complex.re b + Complex.im b * Complex.im b)%num in
     ((nabs denominator <? lit_1e_15)%num = true ->
      Complex.div (Complex.mul a b) b = Err DivisionByZero) /\
     ((nabs denominator <? lit_1e_15)%num = false ->
      exists c, Complex.div (Complex.mul a b) b = Ok c)) /\
  (forall a b : C,
     ((1 / 10 ^ 15 <= Complex.re b * Complex.re b + Complex.im b * Complex.im b)%R ->
      Complex.div (Complex.mul a b) b = Ok a) /\
     ((Complex.re b * Complex.re b + Complex.im b * Complex.im b < 1 / 10 ^ 15)%R ->
      Complex.div (Complex.mul a b) b = Err DivisionByZero)) /\
  (forall ar ai br bi : Z,
     (-10 <= ar <= 10)%Z -> (-10 <= ai <= 10)%Z ->
     (-10 <= br <= 10)%Z -> (-10 <= bi <= 10)%Z ->
     br <> 0%Z \/ bi <> 0%Z ->
     let a := Complex.Build (tenth ar) (tenth ai) in
     let b := Complex.Build (tenth br) (tenth bi) in
     exists c,
       Complex.div (Complex.mul a b) b = Ok c /\
       Complex.equals c a lit_1e_10 = true).
Proof.
  split; [| split].
  - intros F N a b denominator. unfold Complex.div. fold denominator.
    split; intros ->; [reflexivity | eexists; reflexivity].
  - intros a b. split; intros H.
    + destruct a as [ar ai], b as [br bi]. cbn [Complex.re Complex.im] in H.
      unfold Complex.div, Complex.mul. cbn [Complex.re Complex.im]. real_ops.
      rewrite Rabs_pos_eq by nra. rewrite Rltb_false by lra.
      do 2 f_equal; field; lra.
    + apply div_by_small. exact H.
  - intros ar ai br bi Har Hai Hbr Hbi Hb a b.
    pose proof (roundtrip_on_tenths_spec 10 ar ai br bi roundtrip_on_tenths_10
                  Har Hai Hbr Hbi Hb) as G.
    unfold roundtrip_within in G. fold a b in G.
    destruct (Complex.div (Complex.mul a b) b) as [c | e]; [| discriminate].
    exists c. split; [reflexivity | exact G].
Qed.

(** ** Construction and the special states *)

Lemma list_total_ext {F} {N : JsNum F} (l1 l2 : list (Complex.t F)) :
  length l1 = length l2 ->
  (forall i, (i < length l1)%nat -> l1 !!! i = l2 !!! i) ->
  l1 = l2.
Proof.
  intros Hlen H. apply list_eq. intros i.
  destruct (Nat.lt_ge_cases i (length l1)) as [Hi | Hi].
  - rewrite !list_lookup_lookup_total_lt by lia. f_equal. apply H. exact Hi.
  - rewrite !lookup_ge_None_2 by lia. reflexivity.
Qed.

(** The loop of initialize overwrites every slot with zero. *)
Lemma initialize_fill {F} {N : JsNum F} (l : list (Complex.t F)) :
  for_loop (length l)
    (fun i amplitudes => <[i := Complex.clone Complex.ZERO]> amplitudes) l
  = replicate (length l) Complex.ZERO.
Proof.
  match goal with
  | |- for_loop ?n ?body ?init = _ =>
    assert (H : forall k, (k <= n)%nat ->
              length (for_loop k body init) = n /\
              forall t, (t < n)%nat ->
                for_loop k body init !!! t
                = if (t <? k)%nat then Complex.ZERO else l !!! t)
  end.
  { induction k as [|k IH]; intros Hk.
    - split; [reflexivity |]. intros t Ht. reflexivity.
    - destruct (IH ltac:(lia)) as (Hl & Hacc). rewrite for_loop_S. split.
      + rewrite length_insert. exact Hl.
      + intros t Ht. destruct (Nat.eq_dec t k) as [-> | Hne].
        * rewrite list_lookup_total_insert_eq by lia.
          rewrite (proj2 (Nat.ltb_lt k (S k))) by lia. reflexivity.
        * rewrite list_lookup_total_insert_ne by auto. rewrite Hacc by exact Ht.
          replace (t <? S k)%nat with (t <? k)%nat
            by (destruct (Nat.ltb_spec t k), (Nat.ltb_spec t (S k)); auto; lia).
          reflexivity. }
  destruct (H (length l) ltac:(lia)) as (Hl & Hacc).
  apply list_total_ext.
  - rewrite Hl, length_replicate. reflexivity.
  - rewrite Hl. intros i Hi. rewrite Hacc by exact Hi.
    rewrite (proj2 (Nat.ltb_lt _ _) Hi).
    rewrite lookup_total_replicate_2 by exact Hi. reflexivity.
Qed.

Lemma initialize_spec {F} {N : JsNum F} (r : QuantumRegister.t F) :
  length (QuantumRegister.amplitudes r) = QuantumRegister.dimension r ->
  QuantumRegister.initialize r
  = (Ok tt, QuantumRegister.set_amplitudes (zeroState (QuantumRegister.dimension r)) r).
Proof.
  intros Hlen. unfold QuantumRegister.initialize. cbv zeta.
  rewrite <- Hlen at 1. rewrite initialize_fill, Hlen. reflexivity.
Qed.

Lemma zeroState_length {F} {N : JsNum F} (n : nat) :
  length (zeroState (F := F) n) = n.
Proof. unfold zeroState. rewrite length_insert. apply length_replicate. Qed.

Lemma new_spec {F} {N : JsNum F} (n : Z) :
  (1 <= n <= 20)%Z ->
  QuantumRegister.new (F := F) n
  = Ok (QuantumRegister.Build (Z.to_nat n) (2 ^ Z.to_nat n) (zeroState (2 ^ Z.to_nat n))).
Proof.
  intros Hn. unfold QuantumRegister.new.
  replace ((n <? 1)%Z || (20 <? n)%Z) with false
    by (symmetry; apply orb_false_intro; apply Z.ltb_ge; lia).
  cbv zeta. unfold exec. rewrite initialize_spec by apply length_replicate.
  reflexivity.
Qed.

Lemma new_wf {F} {N : JsNum F} (n : Z) :
  (1 <= n <= 20)%Z ->
  QuantumRegister.wf (F := F)
    (QuantumRegister.Build (Z.to_nat n) (2 ^ Z.to_nat n) (zeroState (2 ^ Z.to_nat n))).
Proof.
  intros Hn. unfold QuantumRegister.wf. cbn. split; [lia |].
  split; [reflexivity | apply zeroState_length].
Qed.

(** A loop of method calls that each succeed and keep [I] succeeds and
    keeps [I]. *)
Lemma for_each_invariant {S A} (I : S -> Prop) (l : list nat)
      (body : nat -> A -> Method S A) (a : A) (s : S) :
  I s ->
  (forall i acc s, In i l -> I s -> exists acc' s', body i acc s = (Ok acc', s') /\ I s') ->
  exists acc' s', for_each l body a s = (Ok acc', s') /\ I s'.
Proof.
  revert a s. induction l as [|i l IH]; intros a s Hs Hbody.
  - exists a, s. split; [reflexivity | exact Hs].
  - destruct (Hbody i a s (or_introl eq_refl) Hs) as (acc1 & s1 & E1 & H1).
    destruct (IH acc1 s1 H1) as (acc' & s' & E & H').
    { intros j acc s0 Hj. apply Hbody. right; exact Hj. }
    exists acc', s'. split; [| exact H'].
    cbn [for_each]. unfold bind. rewrite E1. exact E.
Qed.

(** C8, what the code does: in every number model (exact or binary64), for
    every n from 1 to 20, createWState(n) returns a register whose amplitude
    at index 0 is still the 1 that the constructor put there, not 0. *)
Theorem C8_createWState_keeps_amplitude_of_index_0 {F} {N : JsNum F} (n : Z) :
  (1 <= n <= 20)%Z ->
  exists r,
    QuantumRegister.createWState (F := F) n = Ok r /\
    QuantumRegister.amplitudes r !!! 0%nat = Complex.ONE.
Proof.
  intros Hn. unfold QuantumRegister.createWState. rewrite new_spec by exact Hn.
  cbv zeta. unfold exec, for_loopM.
  set (amp := Complex.Build _ _).
  set (r0 := QuantumRegister.Build _ _ _).
  destruct (for_each_invariant
              (fun r : QuantumRegister.t F =>
                 QuantumRegister.dimension r = (2 ^ Z.to_nat n)%nat /\
                 length (QuantumRegister.amplitudes r) = (2 ^ Z.to_nat n)%nat /\
                 QuantumRegister.amplitudes r !!! 0%nat = Complex.ONE)
              (seq 0 (Z.to_nat n))
              (fun i (_ : unit) =>
                 QuantumRegister.setAmplitude
                   (Z.of_nat (Nat.shiftl 1 (Z.to_nat n - 1 - i))) amp)
              tt r0) as (u & r & E & Hdim & Hlen & H0).
  - subst r0. cbn. split; [reflexivity |]. split; [apply zeroState_length |].
    unfold zeroState. apply list_lookup_total_insert_eq.
    rewrite length_replicate. pose proof (Nat.pow_nonzero 2 (Z.to_nat n)). lia.
  - intros i acc s Hi (Hd & Hl & Hz). apply in_seq in Hi.
    unfold QuantumRegister.setAmplitude. rewrite Hd.
    rewrite Nat.shiftl_1_l.
    assert (Hlt : (2 ^ (Z.to_nat n - 1 - i) < 2 ^ Z.to_nat n)%nat)
      by (apply Nat.pow_lt_mono_r; lia).
    rewrite guard_in_range by exact Hlt.
    eexists. eexists. split; [reflexivity |].
    cbn [QuantumRegister.dimension QuantumRegister.amplitudes QuantumRegister.set_amplitudes].
    split; [exact Hd |]. split; [rewrite length_insert; exact Hl |].
    rewrite Nat2Z.id. rewrite list_lookup_total_insert_ne; [exact Hz |].
    pose proof (Nat.pow_nonzero 2 (Z.to_nat n - 1 - i)). lia.
  - rewrite E. exists r. split; [reflexivity | exact H0].
Qed.



(** ** measureAll *)

(** The loop of measureAll finds no index when no running sum exceeds the
    sample. *)
Lemma measureAll_loop_None {F} {N : JsNum F}
      (probabilities : list F) (random cumulativeProb : F) (i : nat) :
  (forall k, (1 <= k <= length probabilities)%nat ->
             nlt random (fold_left nadd (take k probabilities) cumulativeProb) = false) ->
  QuantumRegister.measureAll_loop probabilities random cumulativeProb i = None.
Proof.
  revert cumulativeProb i.
  induction probabilities as [|p rest IH]; intros cum i H; [reflexivity |].
  cbn [QuantumRegister.measureAll_loop].
  pose proof (H 1%nat ltac:(cbn [length]; lia)) as H1.
  rewrite firstn_cons, take_0 in H1. cbn [fold_left] in H1. rewrite H1.
  apply IH. intros k Hk. apply (H (S k)). cbn [length]. lia.
Qed.

(** C6, amended: in every number model (exact or binary64), when no running
    sum of the probabilities exceeds the sample, measureAll does not fail: it
    resets the register to |0...0> and returns index 0. *)
Theorem C6_measureAll_fallback_returns_index_0 {F} {N : JsNum F}
        (r : QuantumRegister.t F) (random : F) :
  QuantumRegister.wf r ->
  (forall k, (1 <= k <= QuantumRegister.dimension r)%nat ->
             nlt random (fold_left nadd (take k (QuantumRegister.getAllProbabilities r))
                                   (nof_Z 0)) = false) ->
  QuantumRegister.measureAll random r
  = (Ok 0%nat, QuantumRegister.set_amplitudes (zeroState (QuantumRegister.dimension r)) r).
Proof.
  intros (Hn & Hdim & Hlen) H. unfold QuantumRegister.measureAll. cbv zeta.
  rewrite measureAll_loop_None.
  - unfold bind, ret. rewrite initialize_spec by exact Hlen. reflexivity.
  - intros k Hk. apply H.
    unfold QuantumRegister.getAllProbabilities in Hk. rewrite length_map in Hk. lia.
Qed.

(** C7, counterexample: for a = 1 and b = 1e-9 the magnitude of b is above
    1e-10, yet a.mul(b).div(b) raises the division-by-zero error, because
    [div] compares the squared magnitude 1e-18 with 1e-15. *)
Lemma C7_mul_div_small_divisor_raises :
  let a : C := Cx 1 0 in
  let b : C := Cx (1 / 10 ^ 9) 0 in
  (1 / 10 ^ 10 < Complex.abs b)%R /\
  Complex.div (Complex.mul a b) b = Err DivisionByZero.
Proof.
  cbv zeta. split.
  - rewrite (abs_real _ _ (1 / 10 ^ 9)%R) by lra. lra.
  - apply div_by_small. cbn. lra.
Qed.

(** ** The sum of squared magnitudes *)

Lemma Rsum_plus (f g : nat -> R) (n : nat) :
  Rsum (fun i => (f i + g i)%R) n = (Rsum f n + Rsum g n)%R.
Proof. induction n as [|n IH]; cbn [Rsum]; [lra | rewrite IH; lra]. Qed.

Lemma Rsum_div (f : nat -> R) (k : R) (n : nat) :
  Rsum (fun i => (f i / k)%R) n = (Rsum f n / k)%R.
Proof.
  induction n as [|n IH]; cbn [Rsum]; [unfold Rdiv; ring | rewrite IH; unfold Rdiv; ring].
Qed.

Lemma sumAbsSquared_Rsum (l : list C) :
  ComplexUtils.sumAbsSquared l = Rsum (fun i => prob (l !!! i)) (length l).
Proof.
  unfold ComplexUtils.sumAbsSquared. real_ops.
  induction l as [|x l IH] using rev_ind; [reflexivity |].
  rewrite fold_left_app, length_app, Nat.add_1_r. cbn [fold_left length Rsum].
  rewrite IH. f_equal.
  - apply Rsum_ext. intros i Hi. rewrite lookup_total_app_l by exact Hi. reflexivity.
  - rewrite lookup_total_app_r by lia. rewrite Nat.sub_diag. reflexivity.
Qed.

Lemma Rlist_sum_app (l1 l2 : list R) :
  Rlist_sum (l1 ++ l2) = (Rlist_sum l1 + Rlist_sum l2)%R.
Proof.
  unfold Rlist_sum. induction l1 as [|x l1 IH]; cbn [app fold_right]; [lra |].
  rewrite IH. lra.
Qed.

Lemma Rsum_list (f : nat -> R) (n : nat) : Rsum f n = Rlist_sum (map f (seq 0 n)).
Proof.
  induction n as [|n IH]; [reflexivity |].
  rewrite seq_S, map_app, Rlist_sum_app. cbn [Rsum]. rewrite IH.
  unfold Rlist_sum. cbn [map fold_right Nat.add]. lra.
Qed.

Lemma Rlist_sum_Permutation (l l' : list R) :
  Permutation l l' -> Rlist_sum l = Rlist_sum l'.
Proof.
  unfold Rlist_sum.
  induction 1 as [| x l l' _ IH | x y l | l l' l'' _ IH1 _ IH2]; cbn [fold_right].
  - reflexivity.
  - rewrite IH. reflexivity.
  - lra.
  - congruence.
Qed.

(** Flipping bit [q] permutes the basis states. *)
Lemma flip_Permutation (q n : nat) :
  (q < n)%nat ->
  Permutation (map (fun t => flip t q) (seq 0 (2 ^ n))) (seq 0 (2 ^ n)).
Proof.
  intros Hq. apply Stdlib.Sorting.Permutation.NoDup_Permutation.
  - apply Finite.Injective_map_NoDup; [| apply List.seq_NoDup].
    intros x y E. rewrite <- (flip_flip x q), E. apply flip_flip.
  - apply List.seq_NoDup.
  - intros x. rewrite in_map_iff, in_seq. split.
    + intros (y & <- & Hy). apply in_seq in Hy.
      pose proof (flip_lt y q n ltac:(lia) Hq). lia.
    + intros Hx. exists (flip x q). split; [apply flip_flip |].
      apply in_seq. pose proof (flip_lt x q n ltac:(lia) Hq). lia.
Qed.

Lemma Rsum_flip (g : nat -> R) (q n : nat) :
  (q < n)%nat -> Rsum (fun t => g (flip t q)) (2 ^ n) = Rsum g (2 ^ n).
Proof.
  intros Hq. rewrite !Rsum_list.
  rewrite <- (map_map (fun t => flip t q) g).
  apply Rlist_sum_Permutation, Permutation_map, flip_Permutation. exact Hq.
Qed.

(** A unitary 2x2 matrix keeps |x|^2 + |y|^2. *)
Lemma unitary2_isometry (m00 m01 m10 m11 x y : C) :
  unitary2 m00 m01 m10 m11 ->
  (prob (Complex.add (Complex.mul m00 x) (Complex.mul m01 y)) +
   prob (Complex.add (Complex.mul m10 x) (Complex.mul m11 y))
   = prob x + prob y)%R.
Proof.
  intros (U1 & U2 & U3).
  apply (f_equal Complex.re) in U1, U2. pose proof (f_equal Complex.im U3) as U3i.
  apply (f_equal Complex.re) in U3.
  unfold prob. rewrite !abs_squared.
  destruct m00 as [a0 b0], m01 as [a1 b1], m10 as [a2 b2], m11 as [a3 b3],
           x as [xr xi], y as [yr yi].
  cbn in *.
  match goal with
  | |- ?l = ?r =>
    replace l with
      (r + (xr * xr + xi * xi) * ((a0 * a0 - - b0 * b0 + (a2 * a2 - - b2 * b2)) - 1)
         + (yr * yr + yi * yi) * ((a1 * a1 - - b1 * b1 + (a3 * a3 - - b3 * b3)) - 1)
         + 2 * (xr * yr + xi * yi) * (a0 * a1 - - b0 * b1 + (a2 * a3 - - b2 * b3))
         + 2 * (xi * yr - xr * yi) * (a0 * b1 + - b0 * a1 + (a2 * b3 + - b2 * a3)))%R
      by ring
  end.
  rewrite U1, U2, U3, U3i. ring.
Qed.

Lemma prob_ZERO : prob Complex.ZERO = 0%R.
Proof. unfold prob. rewrite abs_squared. cbn. ring. Qed.

Lemma prob_ONE : prob Complex.ONE = 1%R.
Proof. unfold prob. rewrite abs_squared. cbn. ring. Qed.

Lemma prob_scale (c : C) (k : R) :
  k <> 0%R -> prob (scale c k) = (prob c / (k * k))%R.
Proof.
  intros Hk. unfold prob. rewrite !abs_squared. cbn. field. exact Hk.
Qed.

Lemma Rsum_indicator (k n : nat) (v : R) :
  (k < n)%nat -> Rsum (fun i => if (i =? k)%nat then v else 0%R) n = v.
Proof.
  induction n as [|n IH]; intros Hk; [lia |].
  cbn [Rsum]. destruct (Nat.eq_dec k n) as [-> | Hne].
  - rewrite Nat.eqb_refl.
    rewrite (Rsum_ext _ (fun _ => 0%R)).
    + assert (Z : forall m, Rsum (fun _ => 0%R) m = 0%R)
        by (induction m as [|m IHm]; cbn [Rsum]; [reflexivity | rewrite IHm; lra]).
      rewrite Z. lra.
    + intros i Hi. rewrite (proj2 (Nat.eqb_neq i n)) by lia. reflexivity.
  - rewrite IH by lia. rewrite (proj2 (Nat.eqb_neq n k)) by lia. lra.
Qed.

(** A fresh register is normalized. *)
Lemma zeroState_normalized (n : nat) :
  (0 < n)%nat -> ComplexUtils.sumAbsSquared (zeroState n) = 1%R.
Proof.
  intros Hn. rewrite sumAbsSquared_Rsum, zeroState_length.
  rewrite (Rsum_ext _ (fun i => if (i =? 0)%nat then 1%R else 0%R)).
  - apply Rsum_indicator. exact Hn.
  - intros i Hi. unfold zeroState. destruct (Nat.eqb_spec i 0) as [-> | Hne].
    + rewrite list_lookup_total_insert_eq by (rewrite length_replicate; exact Hn).
      apply prob_ONE.
    + rewrite list_lookup_total_insert_ne by auto.
      rewrite lookup_total_replicate_2 by exact Hi. apply prob_ZERO.
Qed.

(** setAmplitude replaces one term of the sum. *)
Lemma Rsum_update (f g : nat -> R) (k n : nat) :
  (k < n)%nat -> (forall i, i <> k -> g i = f i) ->
  Rsum g n = (Rsum f n - f k + g k)%R.
Proof.
  intros Hk Hfg.
  rewrite (Rsum_ext g (fun i => (f i + (if (i =? k)%nat then g k - f k else 0))%R)).
  - rewrite Rsum_plus, Rsum_indicator by exact Hk. lra.
  - intros i _. destruct (Nat.eqb_spec i k) as [-> | Hne]; [lra | rewrite Hfg by auto; lra].
Qed.

Lemma setAmplitude_norm (r r' : RRegister) (k : Z) (c : C) :
  length (QuantumRegister.amplitudes r) = QuantumRegister.dimension r ->
  QuantumRegister.setAmplitude k c r = (Ok tt, r') ->
  ComplexUtils.sumAbsSquared (QuantumRegister.amplitudes r')
  = (ComplexUtils.sumAbsSquared (QuantumRegister.amplitudes r)
     - prob (QuantumRegister.amplitudes r !!! Z.to_nat k) + prob c)%R.
Proof.
  intros Hlen. unfold QuantumRegister.setAmplitude.
  destruct ((k <? 0)%Z || (Z.of_nat (QuantumRegister.dimension r) <=? k)%Z) eqn:G;
    [discriminate |].
  apply orb_false_elim in G as [G1 G2]. apply Z.ltb_ge in G1. apply Z.leb_gt in G2.
  intros [= <-]. cbn [QuantumRegister.amplitudes QuantumRegister.set_amplitudes].
  rewrite !sumAbsSquared_Rsum, length_insert, clone_id.
  rewrite (Rsum_update (fun i => prob (QuantumRegister.amplitudes r !!! i)) _ (Z.to_nat k))
    by (try lia; intros i Hi; rewrite list_lookup_total_insert_ne by auto; reflexivity).
  rewrite list_lookup_total_insert_eq by lia. reflexivity.
Qed.

(** A unitary single-qubit gate keeps the sum of squared magnitudes. *)
Lemma applySingleQubitGate_norm (r r' : RRegister) (m00 m01 m10 m11 : C) (q : Z) :
  QuantumRegister.wf r ->
  unitary2 m00 m01 m10 m11 ->
  QuantumRegister.applySingleQubitGate
    (QuantumMatrix.new [[m00; m01]; [m10; m11]]) q r = (Ok tt, r') ->
  ComplexUtils.sumAbsSquared (QuantumRegister.amplitudes r')
  = ComplexUtils.sumAbsSquared (QuantumRegister.amplitudes r).
Proof.
  intros Hwf HU Hrun.
  destruct (Z_lt_dec q 0) as [Hneg | Hnn].
  { unfold QuantumRegister.applySingleQubitGate in Hrun.
    rewrite (proj2 (Z.ltb_lt q 0) Hneg) in Hrun. discriminate. }
  destruct (Z_le_dec (Z.of_nat (QuantumRegister.numQubits r)) q) as [Hbig | Hsmall].
  { unfold QuantumRegister.applySingleQubitGate in Hrun.
    rewrite (proj2 (Z.leb_le _ _) Hbig), orb_true_r in Hrun. discriminate. }
  destruct (applySingleQubitGate_amplitudes m00 m01 m10 m11 (Z.to_nat q) r Hwf)
    as (new & Happly & Hlen & Hnew); [lia |].
  rewrite Z2Nat.id in Happly by lia. rewrite Happly in Hrun.
  injection Hrun as <-. cbn [QuantumRegister.amplitudes QuantumRegister.set_amplitudes].
  destruct Hwf as (Hn & Hdim & Hl).
  rewrite !sumAbsSquared_Rsum, Hlen, Hl, Hdim.
  set (a := QuantumRegister.amplitudes r) in *.
  set (n := QuantumRegister.numQubits r) in *.
  set (k := Z.to_nat q) in *.
  assert (Hk : (k < n)%nat) by (unfold k, n; lia).
  assert (Hpair : forall t, (t < 2 ^ n)%nat ->
            (prob (new !!! t) + prob (new !!! flip t k)
             = prob (a !!! t) + prob (a !!! flip t k))%R).
  { intros t Ht. pose proof (flip_lt t k n Ht Hk) as Ht'.
    rewrite (Hnew t) by (rewrite Hdim; exact Ht).
    rewrite (Hnew (flip t k)) by (rewrite Hdim; exact Ht').
    rewrite bit_flip, flip_flip.
    destruct (bit_0_or_1 t k) as [-> | ->]; cbn [Nat.sub entry].
    - rewrite (Cadd_comm (Complex.mul m11 _)). apply unitary2_isometry. exact HU.
    - rewrite (Cadd_comm (Complex.mul m11 _)).
      rewrite Rplus_comm, (Rplus_comm (prob (a !!! t))).
      apply unitary2_isometry. exact HU. }
  assert (Hdouble : forall g : nat -> R,
            (2 * Rsum g (2 ^ n) = Rsum (fun t => g t + g (flip t k)) (2 ^ n))%R).
  { intros g. rewrite Rsum_plus, (Rsum_flip g k n Hk). lra. }
  pose proof (Hdouble (fun t => prob (new !!! t))) as E1.
  pose proof (Hdouble (fun t => prob (a !!! t))) as E2.
  cbv beta in E1, E2.
  rewrite (Rsum_ext _ _ _ Hpair) in E1. lra.
Qed.

(** ** applyTwoQubitGate: the index arithmetic, the loops and the norm *)

Lemma testbit_shiftl_bit (b q i : nat) :
  (b < 2)%nat -> Nat.testbit (Nat.shiftl b q) i = (b =? 1)%nat && (i =? q)%nat.
Proof.
  intros Hb. destruct b as [|[|b]]; try lia.
  - rewrite Nat.shiftl_0_l, Nat.bits_0. reflexivity.
  - rewrite Nat.shiftl_1_l, Nat.pow2_bits_eqb. cbn. apply Nat.eqb_sym.
Qed.

Lemma testbit_newState (s c t o i : nat) :
  (o < 4)%nat ->
  Nat.testbit (newState s c t o) i
  = if (i =? t)%nat then (o mod 2 =? 1)%nat
    else if (i =? c)%nat then (o / 2 =? 1)%nat
    else Nat.testbit s i.
Proof.
  intros Ho. unfold newState.
  rewrite !Nat.lor_spec, !Nat.ldiff_spec, !Nat.lor_spec, !Nat.ldiff_spec.
  assert (H2 : (o mod 2 < 2)%nat) by (apply Nat.mod_upper_bound; lia).
  assert (H1 : (o / 2 < 2)%nat) by (apply Nat.Div0.div_lt_upper_bound; lia).
  rewrite !testbit_shiftl_bit by lia.
  cbn [Nat.eqb].
  destruct (i =? t)%nat, (i =? c)%nat, (Nat.testbit s i), (o mod 2 =? 1)%nat, (o / 2 =? 1)%nat;
    reflexivity.
Qed.

Lemma bit_newState_t (s c t o : nat) :
  (o < 4)%nat -> bit (newState s c t o) t = (o mod 2)%nat.
Proof.
  intros Ho. rewrite bit_testbit, testbit_newState by exact Ho. rewrite Nat.eqb_refl.
  assert (H2 : (o mod 2 < 2)%nat) by (apply Nat.mod_upper_bound; lia).
  destruct (o mod 2)%nat as [|[|k]]; try lia; reflexivity.
Qed.

Lemma bit_newState_c (s c t o : nat) :
  (o < 4)%nat -> c <> t -> bit (newState s c t o) c = (o / 2)%nat.
Proof.
  intros Ho Hct. rewrite bit_testbit, testbit_newState by exact Ho.
  rewrite (proj2 (Nat.eqb_neq c t) Hct), Nat.eqb_refl.
  assert (H1 : (o / 2 < 2)%nat) by (apply Nat.Div0.div_lt_upper_bound; lia).
  destruct (o / 2)%nat as [|[|k]]; try lia; reflexivity.
Qed.

Lemma inputState_newState (s c t o : nat) :
  (o < 4)%nat -> c <> t -> inputState (newState s c t o) c t = o.
Proof.
  intros Ho Hct. unfold inputState. rewrite bit_newState_c, bit_newState_t by assumption.
  pose proof (Nat.div_mod_eq o 2). lia.
Qed.

Lemma inputState_lt (s c t : nat) : (inputState s c t < 4)%nat.
Proof.
  unfold inputState. destruct (bit_0_or_1 s c) as [-> | ->], (bit_0_or_1 s t) as [-> | ->]; lia.
Qed.

Lemma newState_newState (s c t o o' : nat) :
  (o < 4)%nat -> (o' < 4)%nat ->
  newState (newState s c t o) c t o' = newState s c t o'.
Proof.
  intros Ho Ho'. apply Nat.bits_inj. intros i.
  rewrite !testbit_newState by assumption.
  destruct (i =? t)%nat, (i =? c)%nat; reflexivity.
Qed.

Lemma testbit_of_bit (s q : nat) : Nat.testbit s q = (bit s q =? 1)%nat.
Proof. rewrite bit_testbit. destruct (Nat.testbit s q); reflexivity. Qed.

Lemma newState_inputState (s c t : nat) : c <> t -> newState s c t (inputState s c t) = s.
Proof.
  intros Hct. apply Nat.bits_inj. intros i.
  rewrite testbit_newState by apply inputState_lt.
  unfold inputState.
  destruct (Nat.eqb_spec i t) as [-> | Hit].
  - rewrite testbit_of_bit.
    destruct (bit_0_or_1 s c) as [-> | ->], (bit_0_or_1 s t) as [-> | ->]; reflexivity.
  - destruct (Nat.eqb_spec i c) as [-> | Hic]; [| reflexivity].
    rewrite testbit_of_bit.
    destruct (bit_0_or_1 s c) as [-> | ->], (bit_0_or_1 s t) as [-> | ->]; reflexivity.
Qed.

Lemma lt_pow2_of_bits (x n : nat) :
  (forall i, (n <= i)%nat -> Nat.testbit x i = false) -> (x < 2 ^ n)%nat.
Proof.
  intros H. destruct (Nat.eq_dec x 0) as [-> | Hx].
  - pose proof (Nat.pow_nonzero 2 n). lia.
  - apply Nat.log2_lt_pow2; [lia |].
    destruct (Nat.lt_ge_cases (Nat.log2 x) n) as [Hlt | Hge]; [exact Hlt |].
    pose proof (H _ Hge) as Hf. rewrite Nat.bit_log2 in Hf by exact Hx. discriminate.
Qed.

Lemma bits_of_lt_pow2 (x n i : nat) :
  (x < 2 ^ n)%nat -> (n <= i)%nat -> Nat.testbit x i = false.
Proof.
  intros Hx Hi. destruct (Nat.eq_dec x 0) as [-> | Hx0]; [apply Nat.bits_0 |].
  apply Nat.bits_above_log2. apply Nat.log2_lt_pow2 in Hx; lia.
Qed.

Lemma newState_lt (s c t o n : nat) :
  (o < 4)%nat -> (c < n)%nat -> (t < n)%nat -> (s < 2 ^ n)%nat ->
  (newState s c t o < 2 ^ n)%nat.
Proof.
  intros Ho Hc Ht Hs. apply lt_pow2_of_bits. intros i Hi.
  rewrite testbit_newState by exact Ho.
  rewrite (proj2 (Nat.eqb_neq i t)), (proj2 (Nat.eqb_neq i c)) by lia.
  apply (bits_of_lt_pow2 s n); assumption.
Qed.

Section TwoQubitGateFacts.
Variable gate : QuantumMatrix.t R.
Variables c t : nat.
Variable a : list C.

Hypothesis Hct : c <> t.

Lemma scatter_spec (n s : nat) (acc : list C) :
  (c < n)%nat -> (t < n)%nat -> (s < 2 ^ n)%nat -> length acc = (2 ^ n)%nat ->
  length (scatter gate c t a s acc) = (2 ^ n)%nat /\
  forall u, (u < 2 ^ n)%nat ->
    scatter gate c t a s acc !!! u
    = if (newState s c t (inputState u c t) =? u)%nat
      then Complex.add (acc !!! u)
                       (Complex.mul (matrixElement gate (inputState u c t) (inputState s c t)) (a !!! s))
      else acc !!! u.
Proof.
  intros Hc Ht Hs Hlen. unfold scatter.
  match goal with
  | |- context [for_loop 4 ?body ?init] =>
    assert (H : forall k, (k <= 4)%nat ->
              length (for_loop k body init) = (2 ^ n)%nat /\
              forall u, (u < 2 ^ n)%nat ->
                for_loop k body init !!! u
                = if (inputState u c t <? k)%nat && (newState s c t (inputState u c t) =? u)%nat
                  then Complex.add (acc !!! u)
                         (Complex.mul (matrixElement gate (inputState u c t) (inputState s c t)) (a !!! s))
                  else acc !!! u)
  end.
  { induction k as [|k IH]; intros Hk.
    - split; [exact Hlen |]. intros u Hu. reflexivity.
    - destruct (IH ltac:(lia)) as (Hl & Hacc). rewrite for_loop_S.
      pose proof (newState_lt s c t k n ltac:(lia) Hc Ht Hs) as Hv.
      split; [rewrite length_insert; exact Hl |].
      intros u Hu. destruct (Nat.eq_dec u (newState s c t k)) as [-> | Hne].
      + rewrite list_lookup_total_insert_eq by lia.
        rewrite Hacc by exact Hv.
        rewrite inputState_newState by (try lia; exact Hct).
        rewrite Nat.ltb_irrefl, (proj2 (Nat.ltb_lt k (S k))) by lia.
        rewrite Nat.eqb_refl. reflexivity.
      + rewrite list_lookup_total_insert_ne by auto.
        rewrite Hacc by exact Hu.
        destruct (Nat.eq_dec (inputState u c t) k) as [E | NE].
        * rewrite E. rewrite (proj2 (Nat.eqb_neq _ _)) by auto.
          rewrite !andb_false_r. reflexivity.
        * replace (inputState u c t <? S k)%nat with (inputState u c t <? k)%nat
            by (destruct (Nat.ltb_spec (inputState u c t) k),
                         (Nat.ltb_spec (inputState u c t) (S k)); auto; lia).
          reflexivity. }
  destruct (H 4%nat ltac:(lia)) as (Hl & Hacc). split; [exact Hl |].
  intros u Hu. rewrite Hacc by exact Hu.
  rewrite (proj2 (Nat.ltb_lt _ _) (inputState_lt u c t)). reflexivity.
Qed.

Lemma scatter_gathered (n k : nat) (acc : list C) :
  (c < n)%nat -> (t < n)%nat -> (k < 2 ^ n)%nat -> length acc = (2 ^ n)%nat ->
  (forall u, (u < 2 ^ n)%nat -> acc !!! u = gathered gate c t a k u) ->
  length (scatter gate c t a k acc) = (2 ^ n)%nat /\
  forall u, (u < 2 ^ n)%nat -> scatter gate c t a k acc !!! u = gathered gate c t a (S k) u.
Proof.
  intros Hc Ht Hk Hlen Hacc.
  destruct (scatter_spec n k acc Hc Ht Hk Hlen) as (Hl & Hsc).
  split; [exact Hl |]. intros u Hu. rewrite Hsc by exact Hu.
  rewrite Hacc by exact Hu. unfold gathered, Csum4.
  assert (Hj : forall j, (j < 4)%nat -> newState u c t j <> k ->
             (newState u c t j <? S k)%nat = (newState u c t j <? k)%nat).
  { intros j _ Hne.
    destruct (Nat.ltb_spec (newState u c t j) k),
             (Nat.ltb_spec (newState u c t j) (S k)); auto; lia. }
  destruct (Nat.eqb_spec (newState k c t (inputState u c t)) u) as [E | NE].
  - (* u is in the orbit of k: exactly the term j = inputState k is new *)
    assert (Ek : newState u c t (inputState k c t) = k).
    { rewrite <- E. rewrite newState_newState by apply inputState_lt.
      apply newState_inputState. exact Hct. }
    assert (Hother : forall j, (j < 4)%nat -> j <> inputState k c t -> newState u c t j <> k).
    { intros j Hj4 Hjk Hs. apply Hjk. rewrite <- Hs.
      symmetry. apply inputState_newState; assumption. }
    pose proof (inputState_lt k c t) as Hk4.
    destruct (inputState k c t) as [|[|[|[|j0]]]] eqn:Esub; try lia;
      rewrite Ek, Nat.ltb_irrefl, (proj2 (Nat.ltb_lt k (S k))) by lia;
      rewrite ?(Hj 0%nat), ?(Hj 1%nat), ?(Hj 2%nat), ?(Hj 3%nat)
        by (try lia; apply Hother; lia);
      apply Complex_eq; cbn [Complex.re Complex.im Complex.add Complex.ZERO];
      real_ops; ring.
  - (* u is not in the orbit of k: nothing changes *)
    assert (Hother : forall j, (j < 4)%nat -> newState u c t j <> k).
    { intros j Hj4 Hs. apply NE. rewrite <- Hs.
      rewrite newState_newState by (try apply inputState_lt; exact Hj4).
      apply newState_inputState. exact Hct. }
    rewrite !Hj by (try lia; apply Hother; lia). reflexivity.
Qed.

End TwoQubitGateFacts.

Lemma applyTwoQubitGate_amplitudes (gate : QuantumMatrix.t R) (c t : nat) (r : RRegister) :
  QuantumRegister.wf r ->
  (c < QuantumRegister.numQubits r)%nat ->
  (t < QuantumRegister.numQubits r)%nat ->
  c <> t ->
  exists new,
    QuantumRegister.applyTwoQubitGate gate (Z.of_nat c) (Z.of_nat t) r
    = (Ok tt, QuantumRegister.set_amplitudes new r) /\
    length new = QuantumRegister.dimension r /\
    forall u, (u < QuantumRegister.dimension r)%nat ->
      new !!! u =
      Csum4 (fun j => Complex.mul (matrixElement gate (inputState u c t) j)
                                  (QuantumRegister.amplitudes r !!! newState u c t j)).
Proof.
  intros (Hn & Hdim & Hlen) Hc Ht Hct.
  unfold QuantumRegister.applyTwoQubitGate.
  replace ((Z.of_nat c <? 0)%Z || (Z.of_nat (QuantumRegister.numQubits r) <=? Z.of_nat c)%Z
           || (Z.of_nat t <? 0)%Z || (Z.of_nat (QuantumRegister.numQubits r) <=? Z.of_nat t)%Z)
    with false
    by (symmetry; repeat (apply orb_false_intro);
        [apply Z.ltb_ge | apply Z.leb_gt | apply Z.ltb_ge | apply Z.leb_gt]; lia).
  replace (Z.of_nat c =? Z.of_nat t)%Z with false by (symmetry; apply Z.eqb_neq; lia).
  rewrite !Nat2Z.id. cbv zeta. rewrite zero_fill.
  eexists. split; [reflexivity |].
  rewrite Hdim.
  set (a := QuantumRegister.amplitudes r).
  set (n := QuantumRegister.numQubits r) in *.
  set (P := fun k acc =>
              length acc = (2 ^ n)%nat /\
              forall u, (u < 2 ^ n)%nat -> acc !!! u = gathered gate c t a k u).
  match goal with
  | |- context [for_loop ?m ?body ?init] => assert (HP : P m (for_loop m body init))
  end.
  { apply for_loop_ind.
    - split; [apply length_replicate |].
      intros u Hu. rewrite lookup_total_replicate_2 by exact Hu.
      unfold gathered, Csum4. cbn [Nat.ltb Nat.leb].
      apply Complex_eq; cbn; ring.
    - intros k acc Hk (Hl & Hacc).
      exact (scatter_gathered gate c t a Hct n k acc Hc Ht Hk Hl Hacc). }
  destruct HP as (Hl & Hacc). split; [exact Hl |].
  intros u Hu. rewrite Hacc by exact Hu. unfold gathered, Csum4.
  rewrite !(proj2 (Nat.ltb_lt _ _)) by (apply newState_lt; (lia || assumption)).
  reflexivity.
Qed.

Lemma unitary4_isometry (m : nat -> nat -> C) (x : nat -> C) :
  unitary4 m ->
  Rsum4 (fun o => prob (Csum4 (fun j => Complex.mul (m o j) (x j))))
  = Rsum4 (fun j => prob (x j)).
Proof.
  intros HU.
  set (G := fun j j' => Csum4 (fun o => Complex.mul (Complex.conj (m o j)) (m o j'))).
  set (A := fun j j' => (Complex.re (x j) * Complex.re (x j')
                         + Complex.im (x j) * Complex.im (x j'))%R).
  set (B := fun j j' => (Complex.re (x j) * Complex.im (x j')
                         - Complex.im (x j) * Complex.re (x j'))%R).
  transitivity
    (Rsum4 (fun j => Rsum4 (fun j' =>
       A j j' * Complex.re (G j j') - B j j' * Complex.im (G j j'))%R)).
  - unfold Rsum4, prob, G, A, B, Csum4. rewrite !abs_squared.
    cbn [Complex.re Complex.im Complex.add Complex.mul Complex.conj]. real_ops. ring.
  - unfold Rsum4, G.
    rewrite !HU by lia. unfold A, B, prob. rewrite !abs_squared.
    cbn [Nat.eqb Complex.re Complex.im Complex.ONE Complex.ZERO]. real_ops. ring.
Qed.

Lemma testbit_flip_at (s q i : nat) :
  Nat.testbit (flip s q) i = xorb (Nat.testbit s i) (i =? q)%nat.
Proof.
  unfold flip. rewrite Nat.lxor_spec, Nat.shiftl_1_l, Nat.pow2_bits_eqb.
  rewrite (Nat.eqb_sym q i). reflexivity.
Qed.

Lemma bit_flip_other (s q q' : nat) : q <> q' -> bit (flip s q') q = bit s q.
Proof.
  intros Hq. rewrite !bit_testbit, testbit_flip_at.
  rewrite (proj2 (Nat.eqb_neq q q') Hq), xorb_false_r. reflexivity.
Qed.

Lemma testbit_withBit (b q s i : nat) :
  (b < 2)%nat ->
  Nat.testbit (withBit b q s) i = if (i =? q)%nat then (b =? 1)%nat else Nat.testbit s i.
Proof.
  intros Hb. unfold withBit.
  destruct (Nat.eqb_spec (bit s q) b) as [E | NE].
  - destruct (Nat.eqb_spec i q) as [-> | _]; [| reflexivity].
    rewrite testbit_of_bit, E. reflexivity.
  - rewrite testbit_flip_at.
    destruct (Nat.eqb_spec i q) as [-> | _]; [| apply xorb_false_r].
    rewrite testbit_of_bit.
    destruct (bit_0_or_1 s q) as [E | E]; rewrite E in *;
      destruct b as [|[|b]]; try lia; reflexivity.
Qed.

Lemma newState_withBit (s c t o : nat) :
  (o < 4)%nat -> c <> t ->
  newState s c t o = withBit (o / 2) c (withBit (o mod 2) t s).
Proof.
  intros Ho Hct. apply Nat.bits_inj. intros i.
  rewrite testbit_newState by exact Ho.
  rewrite !testbit_withBit
    by (first [apply Nat.mod_upper_bound; lia | apply Nat.Div0.div_lt_upper_bound; lia]).
  destruct (Nat.eqb_spec i t) as [-> | _], (Nat.eqb_spec t c) as [-> | _];
    try reflexivity; contradiction.
Qed.

(** The four indices the inner loop writes for [u] are [u] with the control
    and the target bit flipped or not. *)
Lemma newState_orbit (g : nat -> R) (u c t : nat) :
  c <> t ->
  Rsum4 (fun o => g (newState u c t o))
  = (g u + g (flip u t) + g (flip u c) + g (flip (flip u t) c))%R.
Proof.
  intros Hct. unfold Rsum4.
  rewrite !newState_withBit by (try lia; exact Hct).
  change (0 / 2)%nat with 0%nat. change (1 / 2)%nat with 0%nat.
  change (2 / 2)%nat with 1%nat. change (3 / 2)%nat with 1%nat.
  change (0 mod 2)%nat with 0%nat. change (1 mod 2)%nat with 1%nat.
  change (2 mod 2)%nat with 0%nat. change (3 mod 2)%nat with 1%nat.
  unfold withBit.
  destruct (bit_0_or_1 u t) as [Et | Et]; rewrite Et; cbn [Nat.eqb];
    rewrite ?bit_flip_other by exact Hct;
    destruct (bit_0_or_1 u c) as [Ec | Ec]; rewrite Ec; cbn [Nat.eqb]; ring.
Qed.

Lemma Rsum_orbit (g : nat -> R) (c t n : nat) :
  (c < n)%nat -> (t < n)%nat -> c <> t ->
  Rsum (fun u => Rsum4 (fun o => g (newState u c t o))) (2 ^ n) = (4 * Rsum g (2 ^ n))%R.
Proof.
  intros Hc Ht Hct.
  rewrite (Rsum_ext _ (fun u => g u + g (flip u t) + g (flip u c)
                                + g (flip (flip u t) c))%R)
    by (intros u _; apply newState_orbit; exact Hct).
  rewrite !Rsum_plus.
  rewrite (Rsum_flip (fun v => g (flip v c)) t n Ht).
  rewrite (Rsum_flip g t n Ht), (Rsum_flip g c n Hc). ring.
Qed.

(** A unitary two-qubit gate keeps the sum of squared magnitudes. *)
Lemma applyTwoQubitGate_norm (r r' : RRegister) (gate : QuantumMatrix.t R) (c t : Z) :
  QuantumRegister.wf r ->
  unitary4 (matrixElement gate) ->
  QuantumRegister.applyTwoQubitGate gate c t r = (Ok tt, r') ->
  ComplexUtils.sumAbsSquared (QuantumRegister.amplitudes r')
  = ComplexUtils.sumAbsSquared (QuantumRegister.amplitudes r).
Proof.
  intros Hwf HU Hrun.
  assert (Hrange : (0 <= c < Z.of_nat (QuantumRegister.numQubits r))%Z /\
                   (0 <= t < Z.of_nat (QuantumRegister.numQubits r))%Z /\ c <> t).
  { unfold QuantumRegister.applyTwoQubitGate in Hrun.
    destruct (Z.ltb_spec c 0); [discriminate |].
    destruct (Z.leb_spec (Z.of_nat (QuantumRegister.numQubits r)) c); [discriminate |].
    destruct (Z.ltb_spec t 0); [discriminate |].
    destruct (Z.leb_spec (Z.of_nat (QuantumRegister.numQubits r)) t); [discriminate |].
    destruct (Z.eqb_spec c t); [discriminate |]. lia. }
  destruct Hrange as (Hc & Ht & Hct).
  destruct (applyTwoQubitGate_amplitudes gate (Z.to_nat c) (Z.to_nat t) r Hwf)
    as (new & Happly & Hlen & Hnew); [lia | lia | lia |].
  rewrite !Z2Nat.id in Happly by lia. rewrite Happly in Hrun.
  injection Hrun as <-. cbn [QuantumRegister.amplitudes QuantumRegister.set_amplitudes].
  destruct Hwf as (Hn & Hdim & Hl).
  rewrite !sumAbsSquared_Rsum, Hlen, Hl, Hdim.
  set (a := QuantumRegister.amplitudes r) in *.
  set (n := QuantumRegister.numQubits r) in *.
  set (cq := Z.to_nat c) in *. set (tq := Z.to_nat t) in *.
  assert (Hcq : (cq < n)%nat) by (unfold cq, n; lia).
  assert (Htq : (tq < n)%nat) by (unfold tq, n; lia).
  assert (Hne : cq <> tq) by (unfold cq, tq; lia).
  assert (Horbit : forall u, (u < 2 ^ n)%nat ->
            Rsum4 (fun o => prob (new !!! newState u cq tq o))
            = Rsum4 (fun o => prob (a !!! newState u cq tq o))).
  { intros u Hu.
    rewrite <- (unitary4_isometry (matrixElement gate) (fun j => a !!! newState u cq tq j) HU).
    unfold Rsum4.
    rewrite !Hnew by (rewrite Hdim; apply newState_lt; (lia || assumption)).
    rewrite !inputState_newState by (lia || assumption).
    unfold Csum4. rewrite !newState_newState by lia. reflexivity. }
  pose proof (Rsum_orbit (fun u => prob (new !!! u)) cq tq n Hcq Htq Hne) as E1.
  pose proof (Rsum_orbit (fun u => prob (a !!! u)) cq tq n Hcq Htq Hne) as E2.
  cbv beta in E1, E2.
  rewrite (Rsum_ext _ _ _ Horbit) in E1. lra.
Qed.

(** After measureQubit, when the outcome had nonzero probability, the
    register is normalized. *)
Lemma measureQubit_norm (r r' : RRegister) (q : Z) (random : R) (outcome : nat) :
  QuantumRegister.wf r ->
  QuantumRegister.measureQubit q random r = (Ok outcome, r') ->
  outcomeProbability (QuantumRegister.amplitudes r) (Z.to_nat q) outcome <> 0%R ->
  ComplexUtils.sumAbsSquared (QuantumRegister.amplitudes r') = 1%R.
Proof.
  intros Hwf Hrun Hp.
  destruct (Z_lt_dec q 0) as [Hneg | Hnn].
  { unfold QuantumRegister.measureQubit in Hrun.
    rewrite (proj2 (Z.ltb_lt q 0) Hneg) in Hrun. discriminate. }
  destruct (Z_le_dec (Z.of_nat (QuantumRegister.numQubits r)) q) as [Hbig | Hsmall].
  { unfold QuantumRegister.measureQubit in Hrun.
    rewrite (proj2 (Z.leb_le _ _) Hbig), orb_true_r in Hrun. discriminate. }
  destruct (measureQubit_spec r (Z.to_nat q) random Hwf ltac:(lia))
    as (new & Hrun' & Hlen & Hnew).
  rewrite Z2Nat.id in Hrun' by lia. rewrite Hrun' in Hrun.
  injection Hrun as <- <-.
  cbn [QuantumRegister.amplitudes QuantumRegister.set_amplitudes].
  set (a := QuantumRegister.amplitudes r) in *.
  set (outcome := if Rltb random (outcomeProbability a (Z.to_nat q) 0)
                  then 0%nat else 1%nat) in *.
  set (p := outcomeProbability a (Z.to_nat q) outcome) in *.
  pose proof (outcomeProbability_nonneg a (Z.to_nat q) outcome) as Hnn'. fold p in Hnn'.
  assert (Hpos : (0 < p)%R) by lra.
  rewrite sumAbsSquared_Rsum, Hlen.
  rewrite (Rsum_ext _ (fun t => ((if (bit t (Z.to_nat q) =? outcome)%nat
                                  then prob (a !!! t) else 0) / p)%R)).
  - rewrite Rsum_div. destruct Hwf as (_ & _ & Hl). fold a in Hl.
    assert (Ep : p = Rsum (fun t => if (bit t (Z.to_nat q) =? outcome)%nat
                                    then prob (a !!! t) else 0%R)
                          (QuantumRegister.dimension r))
      by (unfold p, outcomeProbability; rewrite Hl; reflexivity).
    rewrite <- Ep. field. lra.
  - intros t Ht. rewrite (Hnew t Ht). cbv zeta. rewrite (Rltb_true 0%R) by lra.
    rewrite prob_scale by (pose proof (sqrt_lt_R0 p Hpos); lra).
    rewrite sqrt_sqrt by lra.
    destruct (bit t (Z.to_nat q) =? outcome)%nat; [reflexivity |].
    rewrite prob_ZERO. reflexivity.
Qed.

(** ** measureQubit: the outcome and the amplitudes that survive *)

(** The two outcomes of a qubit share out the sum of squared magnitudes. *)
Lemma outcomeProbability_total (a : list C) (q : nat) :
  (outcomeProbability a q 0 + outcomeProbability a q 1)%R = ComplexUtils.sumAbsSquared a.
Proof.
  unfold outcomeProbability. rewrite <- Rsum_plus, sumAbsSquared_Rsum. apply Rsum_ext.
  intros i _. destruct (bit_0_or_1 i q) as [-> | ->]; cbn [Nat.eqb]; lra.
Qed.

(** On a normalized register the outcome a sample in [0, 1) selects has a
    probability above zero. *)
Lemma sampled_outcome_probability (a : list C) (q : nat) (random : R) :
  ComplexUtils.sumAbsSquared a = 1%R -> (0 <= random < 1)%R ->
  (0 < outcomeProbability a q
         (if Rltb random (outcomeProbability a q 0) then 0%nat else 1%nat))%R.
Proof.
  intros Hn Hr. pose proof (outcomeProbability_total a q) as Ht.
  unfold Rltb. destruct (Rlt_dec random (outcomeProbability a q 0)) as [H | H]; lra.
Qed.

(** C4: measureQubit(i) returns 0 when the sample is below the probability
    of reading 0 on qubit i and 1 otherwise.  When the probability p of the
    outcome it returns is not zero, as it is for every sample in [0, 1) on a
    normalized register, every amplitude whose bit i is the outcome ends as
    its value before the measurement divided by sqrt p, and every other
    amplitude ends as zero. *)
Theorem C4_measureQubit_keeps_relative_amplitudes
        (r : RRegister) (q : Z) (random : R) :
  QuantumRegister.wf r ->
  (0 <= q < Z.of_nat (QuantumRegister.numQubits r))%Z ->
  let a := QuantumRegister.amplitudes r in
  let outcome := if Rltb random (outcomeProbability a (Z.to_nat q) 0)
                 then 0%nat else 1%nat in
  let p := outcomeProbability a (Z.to_nat q) outcome in
  exists r',
    QuantumRegister.measureQubit q random r = (Ok outcome, r') /\
    QuantumRegister.wf r' /\
    QuantumRegister.numQubits r' = QuantumRegister.numQubits r /\
    (ComplexUtils.sumAbsSquared a = 1%R -> (0 <= random < 1)%R -> p <> 0%R) /\
    (p <> 0%R ->
     forall s, (s < QuantumRegister.dimension r)%nat ->
       (bit s (Z.to_nat q) = outcome ->
        QuantumRegister.amplitudes r' !!! s = scale (a !!! s) (sqrt p)) /\
       (bit s (Z.to_nat q) <> outcome ->
        QuantumRegister.amplitudes r' !!! s = Complex.ZERO)).
Proof.
  intros Hwf Hq a outcome p.
  destruct (measureQubit_spec r (Z.to_nat q) random Hwf ltac:(lia))
    as (new & Hrun & Hlen & Hnew).
  rewrite Z2Nat.id in Hrun by lia. cbv zeta in Hrun, Hnew.
  fold a in Hrun, Hnew. fold outcome in Hrun, Hnew. fold p in Hnew.
  exists (QuantumRegister.set_amplitudes new r).
  split; [exact Hrun |].
  split; [destruct Hwf as (Hn & Hd & Hl); unfold QuantumRegister.wf; cbn [QuantumRegister.numQubits QuantumRegister.dimension QuantumRegister.amplitudes QuantumRegister.set_amplitudes]; rewrite Hlen; auto |].
  split; [reflexivity |].
  split.
  - intros Hn Hr. pose proof (sampled_outcome_probability a (Z.to_nat q) random Hn Hr) as H.
    fold outcome in H. fold p in H. lra.
  - intros Hp s Hs. cbn [QuantumRegister.amplitudes QuantumRegister.set_amplitudes].
    rewrite (Hnew s Hs).
    pose proof (outcomeProbability_nonneg a (Z.to_nat q) outcome) as Hnn. fold p in Hnn.
    rewrite (Rltb_true 0%R) by lra. split; intros Hb.
    + rewrite (proj2 (Nat.eqb_eq _ _) Hb). reflexivity.
    + rewrite (proj2 (Nat.eqb_neq _ _) Hb). apply scale_ZERO.
Qed.

(** ** The normalization invariant *)

Lemma wf_reg2 (a0 a1 a2 a3 : R) : QuantumRegister.wf (reg2 a0 a1 a2 a3).
Proof. unfold QuantumRegister.wf. cbn. repeat split; lia. Qed.

Lemma H_unitary :
  unitary2 (Cx (1 / sqrt 2) 0) (Cx (1 / sqrt 2) 0) (Cx (1 / sqrt 2) 0) (Cx (-1 / sqrt 2) 0).
Proof.
  unfold unitary2, Complex.add, Complex.mul, Complex.conj, Complex.ONE, Complex.ZERO.
  cbn [Complex.re Complex.im]. real_ops.
  repeat split; f_equal; arith.
Qed.

Lemma CNOT_unitary : unitary4 (matrixElement QuantumGates.CNOT).
Proof.
  intros j j' Hj Hj'.
  destruct j as [|[|[|[|j]]]]; try lia;
    destruct j' as [|[|[|[|j']]]]; try lia;
    apply Complex_eq; cbn; ring.
Qed.

Lemma CZ_unitary : unitary4 (matrixElement QuantumGates.CZ).
Proof.
  intros j j' Hj Hj'.
  destruct j as [|[|[|[|j]]]]; try lia;
    destruct j' as [|[|[|[|j']]]]; try lia;
    apply Complex_eq; cbn; ring.
Qed.

Lemma SWAP_unitary : unitary4 (matrixElement QuantumGates.SWAP).
Proof.
  intros j j' Hj Hj'.
  destruct j as [|[|[|[|j]]]]; try lia;
    destruct j' as [|[|[|[|j']]]]; try lia;
    apply Complex_eq; cbn; ring.
Qed.

Lemma new_normalized (n : Z) (r0 : RRegister) :
  QuantumRegister.new n = Ok r0 ->
  ComplexUtils.sumAbsSquared (QuantumRegister.amplitudes r0) = 1%R.
Proof.
  intros H.
  destruct (Z_lt_dec n 1) as [Hsmall | H1];
    [| destruct (Z_lt_dec 20 n) as [Hbig | H20]].
  - unfold QuantumRegister.new in H. rewrite (proj2 (Z.ltb_lt n 1) Hsmall) in H.
    discriminate.
  - unfold QuantumRegister.new in H.
    rewrite (proj2 (Z.ltb_lt 20 n) Hbig), orb_true_r in H. discriminate.
  - rewrite new_spec in H by lia. injection H as <-.
    cbn [QuantumRegister.amplitudes]. apply zeroState_normalized.
    pose proof (Nat.pow_nonzero 2 (Z.to_nat n)). lia.
Qed.

(** A method that throws leaves the register as it was. *)
Lemma failure_leaves_register (r r' : RRegister) (e : error) :
  QuantumRegister.wf r ->
  (exists k c, QuantumRegister.setAmplitude k c r = (Err e, r')) \/
  (exists gate q, QuantumRegister.applySingleQubitGate gate q r = (Err e, r')) \/
  (exists gate c t, QuantumRegister.applyTwoQubitGate gate c t r = (Err e, r')) \/
  (exists q random, QuantumRegister.measureQubit q random r = (Err e, r')) ->
  r' = r.
Proof.
  intros Hwf [(k & c & H) | [(gate & q & H) | [(gate & c & t & H) | (q & random & H)]]].
  - unfold QuantumRegister.setAmplitude in H.
    destruct (_ || _); [injection H as _ <-; reflexivity | discriminate].
  - unfold QuantumRegister.applySingleQubitGate in H.
    destruct (_ || _); [injection H as _ <-; reflexivity | discriminate].
  - unfold QuantumRegister.applyTwoQubitGate in H.
    destruct (_ || _); [injection H as _ <-; reflexivity |].
    destruct (c =? t)%Z; [injection H as _ <-; reflexivity | discriminate].
  - destruct (Z_lt_dec q 0) as [Hneg | Hnn];
      [| destruct (Z_le_dec (Z.of_nat (QuantumRegister.numQubits r)) q) as [Hbig | Hsmall]].
    + unfold QuantumRegister.measureQubit in H.
      rewrite (proj2 (Z.ltb_lt q 0) Hneg) in H. injection H as _ <-. reflexivity.
    + unfold QuantumRegister.measureQubit in H.
      rewrite (proj2 (Z.leb_le _ _) Hbig), orb_true_r in H. injection H as _ <-.
      reflexivity.
    + destruct (measureQubit_spec r (Z.to_nat q) random Hwf ltac:(lia))
        as (new & Hrun & _).
      rewrite Z2Nat.id in Hrun by lia. rewrite Hrun in H. discriminate.
Qed.

(** C1, counterexample: setAmplitude(1, 1) on a fresh two-qubit register, the
    first step of deutschAlgorithm, returns with amplitudes (1, 1, 0, 0),
    whose squared magnitudes sum to 2. *)
Lemma C1_setAmplitude_leaves_norm_2 :
  exists r0 r1 : RRegister,
    QuantumRegister.new 2 = Ok r0 /\
    QuantumRegister.setAmplitude 1 Complex.ONE r0 = (Ok tt, r1) /\
    ComplexUtils.sumAbsSquared (QuantumRegister.amplitudes r1) = 2%R /\
    QuantumRegister.isNormalized lit_1e_10 r1 = false.
Proof.
  exists (reg2 1 0 0 0), (reg2 1 1 0 0).
  split; [apply new_2 |]. split; [reflexivity |].
  assert (E : ComplexUtils.sumAbsSquared [Cx 1 0; Cx 1 0; Cx 0 0; Cx 0 0] = 2%R).
  { run. rewrite !sqrt_sum_squares. lra. }
  split; [exact E |].
  unfold QuantumRegister.isNormalized, ComplexUtils.isNormalized.
  cbn [QuantumRegister.amplitudes]. cbv zeta.
  rewrite E. real_ops. apply Rltb_false.
  replace (2 - 1)%R with 1%R by ring. rewrite Rabs_R1. lra.
Qed.

(** C1, amended: a register is normalized after construction; a unitary
    single-qubit gate and a unitary two-qubit gate keep the sum of the squared
    magnitudes; measureQubit, when the outcome it samples has nonzero
    probability, returns with the sum equal to 1; setAmplitude does not
    renormalize: it changes the sum by |new amplitude|^2 - |old amplitude|^2;
    a method that throws leaves the register as it was. *)
Theorem C1_normalization_invariant_amended (r : RRegister) :
  QuantumRegister.wf r ->
  (forall n r0, QuantumRegister.new n = Ok r0 ->
     ComplexUtils.sumAbsSquared (QuantumRegister.amplitudes r0) = 1%R) /\
  (forall m00 m01 m10 m11 q r',
     unitary2 m00 m01 m10 m11 ->
     QuantumRegister.applySingleQubitGate
       (QuantumMatrix.new [[m00; m01]; [m10; m11]]) q r = (Ok tt, r') ->
     ComplexUtils.sumAbsSquared (QuantumRegister.amplitudes r')
     = ComplexUtils.sumAbsSquared (QuantumRegister.amplitudes r)) /\
  (forall gate c t r',
     unitary4 (matrixElement gate) ->
     QuantumRegister.applyTwoQubitGate gate c t r = (Ok tt, r') ->
     ComplexUtils.sumAbsSquared (QuantumRegister.amplitudes r')
     = ComplexUtils.sumAbsSquared (QuantumRegister.amplitudes r)) /\
  (forall q random outcome r',
     QuantumRegister.measureQubit q random r = (Ok outcome, r') ->
     outcomeProbability (QuantumRegister.amplitudes r) (Z.to_nat q) outcome <> 0%R ->
     ComplexUtils.sumAbsSquared (QuantumRegister.amplitudes r') = 1%R) /\
  (forall k c r',
     QuantumRegister.setAmplitude k c r = (Ok tt, r') ->
     ComplexUtils.sumAbsSquared (QuantumRegister.amplitudes r')
     = (ComplexUtils.sumAbsSquared (QuantumRegister.amplitudes r)
        - prob (QuantumRegister.amplitudes r !!! Z.to_nat k) + prob c)%R) /\
  (forall e r',
     (exists k c, QuantumRegister.setAmplitude k c r = (Err e, r')) \/
     (exists gate q, QuantumRegister.applySingleQubitGate gate q r = (Err e, r')) \/
     (exists gate c t, QuantumRegister.applyTwoQubitGate gate c t r = (Err e, r')) \/
     (exists q random, QuantumRegister.measureQubit q random r = (Err e, r')) ->
     r' = r).
Proof.
  intros Hwf. split; [| split; [| split; [| split; [| split]]]].
  - intros n r0. apply new_normalized.
  - intros m00 m01 m10 m11 q r' HU. apply applySingleQubitGate_norm; assumption.
  - intros gate c t r' HU. apply applyTwoQubitGate_norm; assumption.
  - intros q random outcome r'. apply measureQubit_norm. exact Hwf.
  - intros k c r'. apply setAmplitude_norm. apply Hwf.
  - intros e r'. apply failure_leaves_register. exact Hwf.
Qed.


(** ** Instances of the theorems *)

Lemma C1_normalization_invariant_witness :
  QuantumRegister.wf (reg2 1 0 0 0) /\
  unitary2 (Cx (1 / sqrt 2) 0) (Cx (1 / sqrt 2) 0) (Cx (1 / sqrt 2) 0) (Cx (-1 / sqrt 2) 0) /\
  QuantumRegister.applySingleQubitGate QuantumGates.H 0 (reg2 1 0 0 0)
  = (Ok tt, reg2 (1 / sqrt 2) (1 / sqrt 2) 0 0) /\
  ComplexUtils.sumAbsSquared (QuantumRegister.amplitudes (reg2 (1 / sqrt 2) (1 / sqrt 2) 0 0))
  = ComplexUtils.sumAbsSquared (QuantumRegister.amplitudes (reg2 1 0 0 0)).
Proof.
  assert (E : QuantumRegister.applySingleQubitGate QuantumGates.H 0 (reg2 1 0 0 0)
              = (Ok tt, reg2 (1 / sqrt 2) (1 / sqrt 2) 0 0))
    by (apply (apply_gate2_qubit0 (1 / sqrt 2) (1 / sqrt 2) (1 / sqrt 2) (-1 / sqrt 2));
        arith).
  split; [apply wf_reg2 |]. split; [apply H_unitary |]. split; [exact E |].
  destruct (C1_normalization_invariant_amended (reg2 1 0 0 0) (wf_reg2 1 0 0 0))
    as (_ & Hgate & _).
  exact (Hgate _ _ _ _ 0%Z _ H_unitary E).
Defined.

(** CNOT with control 0 and target 1 on (|00> + |10>)/sqrt 2 runs and keeps
    the sum of the squared magnitudes. *)
Example applyTwoQubitGate_CNOT_keeps_norm :
  exists r',
    QuantumRegister.applyTwoQubitGate QuantumGates.CNOT 0 1
      (reg2 (1 / sqrt 2) 0 (1 / sqrt 2) 0) = (Ok tt, r') /\
    ComplexUtils.sumAbsSquared (QuantumRegister.amplitudes r')
    = ComplexUtils.sumAbsSquared
        (QuantumRegister.amplitudes (reg2 (1 / sqrt 2) 0 (1 / sqrt 2) 0)).
Proof.
  destruct (applyTwoQubitGate_amplitudes QuantumGates.CNOT 0 1
              (reg2 (1 / sqrt 2) 0 (1 / sqrt 2) 0) (wf_reg2 _ _ _ _))
    as (new & E & _); [cbn; lia | cbn; lia | lia |].
  eexists. split; [exact E |].
  exact (applyTwoQubitGate_norm _ _ _ 0%Z 1%Z (wf_reg2 _ _ _ _) CNOT_unitary E).
Qed.

Lemma C2_deutsch_balanced_identity_witness :
  (0 <= 1 / 2 < 1)%R /\
  exists res,
    QuantumAlgorithms.deutschAlgorithm "balanced-identity" (1 / 2)%R = Ok res /\
    DeutschResult.measurementResult res = 0%nat /\
    DeutschResult.interpretation res = constant /\
    DeutschResult.isCorrect res = false.
Proof.
  split; [lra |].
  apply (C2_deutsch_balanced_identity_classified_constant (1 / 2)%R). lra.
Defined.

Lemma C3_applySingleQubitGate_witness :
  QuantumRegister.wf (reg2 1 0 0 0) /\
  (0 <= 0 < Z.of_nat 2)%Z /\
  exists r',
    QuantumRegister.applySingleQubitGate
      (QuantumMatrix.new [[Cx 0 0; Cx 1 0]; [Cx 1 0; Cx 0 0]]) 0 (reg2 1 0 0 0)
    = (Ok tt, r') /\
    QuantumRegister.amplitudes r' !!! 0%nat
    = Complex.add (Complex.mul (Cx 0 0) (Cx 1 0)) (Complex.mul (Cx 1 0) (Cx 0 0)) /\
    QuantumRegister.amplitudes r' !!! 1%nat
    = Complex.add (Complex.mul (Cx 1 0) (Cx 1 0)) (Complex.mul (Cx 0 0) (Cx 0 0)).
Proof.
  split; [apply wf_reg2 |]. split; [lia |].
  destruct (C3_applySingleQubitGate_linear_map
              (reg2 1 0 0 0) (Cx 0 0) (Cx 1 0) (Cx 1 0) (Cx 0 0) 0%Z (wf_reg2 1 0 0 0))
    as [Hin _].
  destruct (Hin ltac:(cbn; lia)) as (r' & E & _ & _ & _ & Hs).
  exists r'. split; [exact E |].
  exact (Hs 0%nat ltac:(cbn; lia) eq_refl).
Defined.

Lemma outcomeProbability_reg2_qubit0 (a0 a1 a2 a3 : R) (outcome : nat) :
  outcomeProbability (QuantumRegister.amplitudes (reg2 a0 a1 a2 a3)) 0 outcome
  = ((if (0 =? outcome)%nat then a0 * a0 + a2 * a2 else 0)
     + (if (1 =? outcome)%nat then a1 * a1 + a3 * a3 else 0))%R.
Proof.
  unfold outcomeProbability. cbn [QuantumRegister.amplitudes length Rsum].
  change (bit 0 0) with 0%nat. change (bit 1 0) with 1%nat.
  change (bit 2 0) with 0%nat. change (bit 3 0) with 1%nat.
  cbn [lookup_total list_lookup_total]. unfold prob. rewrite !abs_squared.
  cbn [Complex.re Complex.im].
  destruct (0 =? outcome)%nat, (1 =? outcome)%nat; ring.
Qed.

Lemma C4_measureQubit_witness :
  QuantumRegister.wf (reg2 (3 / 5) (4 / 5) 0 0) /\
  (0 <= 0 < Z.of_nat (QuantumRegister.numQubits (reg2 (3 / 5) (4 / 5) 0 0)))%Z /\
  exists r',
    QuantumRegister.measureQubit 0 (1 / 2)%R (reg2 (3 / 5) (4 / 5) 0 0) = (Ok 1%nat, r') /\
    outcomeProbability (QuantumRegister.amplitudes (reg2 (3 / 5) (4 / 5) 0 0)) 0 1
    = (16 / 25)%R /\
    QuantumRegister.amplitudes r' !!! 0%nat = Complex.ZERO /\
    QuantumRegister.amplitudes r' !!! 1%nat = scale (Cx (4 / 5) 0) (sqrt (16 / 25)).
Proof.
  split; [apply wf_reg2 |]. split; [cbn; lia |].
  pose proof (outcomeProbability_reg2_qubit0 (3 / 5) (4 / 5) 0 0 0) as P0.
  pose proof (outcomeProbability_reg2_qubit0 (3 / 5) (4 / 5) 0 0 1) as P1.
  cbn [Nat.eqb] in P0, P1.
  assert (E0 : outcomeProbability (QuantumRegister.amplitudes (reg2 (3 / 5) (4 / 5) 0 0)) 0 0
               = (9 / 25)%R) by (rewrite P0; lra).
  assert (E1 : outcomeProbability (QuantumRegister.amplitudes (reg2 (3 / 5) (4 / 5) 0 0)) 0 1
               = (16 / 25)%R) by (rewrite P1; lra).
  destruct (C4_measureQubit_keeps_relative_amplitudes
              (reg2 (3 / 5) (4 / 5) 0 0) 0%Z (1 / 2)%R (wf_reg2 _ _ _ _) ltac:(cbn; lia))
    as (r' & Hrun & _ & _ & _ & Hs).
  change (Z.to_nat 0) with 0%nat in Hrun, Hs. rewrite E0 in Hrun, Hs.
  rewrite Rltb_false in Hrun, Hs by lra. rewrite E1 in Hs.
  exists r'. split; [exact Hrun |]. split; [exact E1 |].
  specialize (Hs ltac:(lra)).
  split.
  - exact (proj2 (Hs 0%nat ltac:(cbn; lia)) ltac:(discriminate)).
  - exact (proj1 (Hs 1%nat ltac:(cbn; lia)) eq_refl).
Defined.

Abbreviation reg1 a0 a1 := (@QuantumRegister.Build R 1 2 [Cx a0 0; Cx a1 0]).

Lemma wf_reg1 (a0 a1 : R) : QuantumRegister.wf (reg1 a0 a1).
Proof. unfold QuantumRegister.wf. cbn. repeat split; lia. Qed.

Lemma C5_measureQubit_zero_probability_witness :
  QuantumRegister.wf (reg1 (1 / 2) 0) /\
  (0 <= 0 < Z.of_nat 1)%Z /\
  exists outcome r',
    QuantumRegister.measureQubit 0 (1 / 2)%R (reg1 (1 / 2) 0) = (Ok outcome, r') /\
    (outcomeProbability (QuantumRegister.amplitudes (reg1 (1 / 2) 0)) 0 outcome = 0%R ->
     (forall s, (s < 2)%nat -> QuantumRegister.amplitudes r' !!! s = Complex.ZERO) /\
     QuantumRegister.amplitudes r' <> zeroState 2).
Proof.
  split; [apply wf_reg1 |]. split; [lia |].
  exact (C5_measureQubit_zero_probability_leaves_zero_vector
           (reg1 (1 / 2) 0) 0%Z (1 / 2)%R (wf_reg1 (1 / 2) 0) ltac:(cbn; lia)).
Defined.

(** The run behind C5, in exact arithmetic: after setAmplitude(0, 0.5) on a
    fresh one-qubit register, measureQubit(0) with the sample 0.5 samples the
    outcome 1, of probability 0, and leaves the amplitudes (0, 0). *)
Example measureQubit_zero_probability_run :
  exists r0 r1,
    QuantumRegister.new (F := R) 1 = Ok r0 /\
    QuantumRegister.setAmplitude 0 (Cx (1 / 2) 0) r0 = (Ok tt, r1) /\
    QuantumRegister.measureQubit 0 (1 / 2)%R r1 = (Ok 1%nat, reg1 0 0).
Proof.
  exists (reg1 1 0), (reg1 (1 / 2) 0).
  split; [reflexivity |]. split; [reflexivity |].
  run. rewrite !sqrt_sum_squares. rewrite Rltb_false by lra.
  run. rewrite !sqrt_sum_squares. rewrite Rltb_false by lra. reflexivity.
Qed.

(** The same on binary64, from a state the gates produce: H twice on |0>
    gives the amplitudes (0.9999999999999998, 0); with the sample
    0.9999999999999998 measureQubit(0) returns 1 and leaves (0, 0). *)
Example float_measureQubit_zero_probability_run :
  QuantumRegister.isNormalized lit_1e_10 float_HH1 = true /\
  QuantumRegister.measureQubit 0 sample_near_1 float_HH1
  = (Ok 1%nat,
     QuantumRegister.Build 1 2 [Complex.Build 0%float 0%float; Complex.Build 0%float 0%float]).
Proof. split; vm_compute; reflexivity. Qed.

(** C6, counterexample, on binary64: the uniform superposition of two qubits
    passes isNormalized, its four probabilities add up to a sum that never
    exceeds the sample 0.9999999999999998, and measureAll returns index 0,
    not the last index 3. *)
Lemma C6_measureAll_undershoot_returns_0_not_last :
  QuantumRegister.wf float_uniform2 /\
  QuantumRegister.isNormalized lit_1e_10 float_uniform2 = true /\
  forallb (fun k => negb (nlt sample_near_1
                            (fold_left nadd
                               (take k (QuantumRegister.getAllProbabilities float_uniform2))
                               (nof_Z 0))))
          [1; 2; 3; 4]%nat = true /\
  fst (QuantumRegister.measureAll sample_near_1 float_uniform2) = Ok 0%nat /\
  fst (QuantumRegister.measureAll sample_near_1 float_uniform2)
  <> Ok (2 ^ QuantumRegister.numQubits float_uniform2 - 1)%nat.
Proof.
  split; [unfold QuantumRegister.wf; cbn; repeat split; lia |].
  split; [vm_compute; reflexivity |].
  split; [vm_compute; reflexivity |].
  split; [vm_compute; reflexivity |].
  vm_compute. discriminate.
Qed.

Lemma C6_measureAll_fallback_witness :
  QuantumRegister.wf float_uniform2 /\
  (forall k, (1 <= k <= QuantumRegister.dimension float_uniform2)%nat ->
     nlt sample_near_1
         (fold_left nadd (take k (QuantumRegister.getAllProbabilities float_uniform2))
                    (nof_Z 0)) = false) /\
  QuantumRegister.measureAll sample_near_1 float_uniform2
  = (Ok 0%nat, QuantumRegister.set_amplitudes (zeroState 4) float_uniform2).
Proof.
  assert (Hwf : QuantumRegister.wf float_uniform2)
    by (unfold QuantumRegister.wf; cbn; repeat split; lia).
  assert (Hsum : forall k, (1 <= k <= QuantumRegister.dimension float_uniform2)%nat ->
            nlt sample_near_1
                (fold_left nadd (take k (QuantumRegister.getAllProbabilities float_uniform2))
                           (nof_Z 0)) = false).
  { intros k Hk. change (QuantumRegister.dimension float_uniform2) with 4%nat in Hk.
    destruct k as [|[|[|[|[|k]]]]]; try lia; vm_compute; reflexivity. }
  split; [exact Hwf |]. split; [exact Hsum |].
  exact (C6_measureAll_fallback_returns_index_0 float_uniform2 sample_near_1 Hwf Hsum).
Defined.

Lemma C7_mul_div_roundtrip_witness :
  (1 / 10 ^ 15 <= 3 * 3 + 4 * 4)%R /\
  Complex.div (Complex.mul (Cx 1 2) (Cx 3 4)) (Cx 3 4) = Ok (Cx 1 2) /\
  (-10 <= 3 <= 10)%Z /\ (-10 <= -4 <= 10)%Z /\ (-10 <= 0 <= 10)%Z /\ (-10 <= 7 <= 10)%Z /\
  (0%Z <> 0%Z \/ 7%Z <> 0%Z) /\
  exists c,
    Complex.div (Complex.mul (Complex.Build (tenth 3) (tenth (-4)))
                             (Complex.Build (tenth 0) (tenth 7)))
                (Complex.Build (tenth 0) (tenth 7)) = Ok c /\
    Complex.equals c (Complex.Build (tenth 3) (tenth (-4))) lit_1e_10 = true.
Proof.
  destruct C7_mul_div_roundtrip as (_ & Hexact & Hfloat).
  split; [lra |].
  split; [apply (proj1 (Hexact (Cx 1 2) (Cx 3 4))); cbn; lra |].
  split; [lia |]. split; [lia |]. split; [lia |]. split; [lia |].
  split; [right; lia |].
  exact (Hfloat 3%Z (-4)%Z 0%Z 7%Z ltac:(lia) ltac:(lia) ltac:(lia) ltac:(lia)
           ltac:(right; lia)).
Defined.

(** The run behind C7 on binary64. *)
Example float_mul_div_small_divisor_raises :
  Complex.div (Complex.mul (Complex.Build 1%float 0%float)
                           (Complex.Build (1 / 1000000000)%float 0%float))
              (Complex.Build (1 / 1000000000)%float 0%float)
  = Err DivisionByZero.
Proof. vm_compute. reflexivity. Qed.

(** binary64 outside those bounds: for a = (1e6, 3e6) and b = (0.1, 0.7) the
    result, (1000000.0000000001, 3000000.0000000005), is not within 1e-10 of
    a, and for b = 2^600 the squared magnitude overflows and the result is
    not a number. *)
Example float_mul_div_roundtrip_large_a :
  roundtrip_within lit_1e_10
    (Complex.Build (float_of_Z 1000000) (float_of_Z 3000000))
    (Complex.Build (tenth 1) (tenth 7)) = false.
Proof. vm_compute. reflexivity. Qed.

Example float_mul_div_roundtrip_large_b :
  Complex.div (Complex.mul (Complex.Build 1%float 0%float)
                           (Complex.Build 0x1p600%float 0%float))
              (Complex.Build 0x1p600%float 0%float)
  = Ok (Complex.Build nan 0%float).
Proof. vm_compute. reflexivity. Qed.

Lemma C8_createWState_witness :
  (1 <= 2 <= 20)%Z /\
  exists r,
    QuantumRegister.createWState (F := R) 2 = Ok r /\
    QuantumRegister.amplitudes r !!! 0%nat = Complex.ONE.
Proof.
  split; [lia |].
  apply (C8_createWState_keeps_amplitude_of_index_0 2). lia.
Defined.

(** The runs behind C8: createWState(2) in exact arithmetic and on binary64.
    Index 0 holds 1, where the W state has 0. *)
Example createWState_2 :
  QuantumRegister.createWState (F := R) 2
  = Ok (QuantumRegister.Build 2 4
          [Cx 1 0; Cx (1 / sqrt 2) 0; Cx (1 / sqrt 2) 0; Cx 0 0]).
Proof. reflexivity. Qed.

Example float_createWState_2 :
  match QuantumRegister.createWState (F := float) 2 with
  | Ok r => map Complex.re (QuantumRegister.amplitudes r)
  | Err _ => []
  end
  = [1; 1 / PrimFloat.sqrt 2; 1 / PrimFloat.sqrt 2; 0]%float.
Proof. vm_compute. reflexivity. Qed.

(** ** The algorithms on binary64 *)

(** Deutsch on 'balanced-identity' with the sample 0.5: "constant". *)
Example float_deutsch_balanced_identity :
  match QuantumAlgorithms.deutschAlgorithm "balanced-identity" 0.5%float with
  | Ok res => Some (DeutschResult.interpretation res, DeutschResult.isCorrect res)
  | Err _ => None
  end = Some (constant, false).
Proof. vm_compute. reflexivity. Qed.

(** Deutsch on 'constant-0' with the sample 0.9999999999999998: on binary64
    the probability of reading 0 comes out below that sample, and the run
    answers "balanced". *)
Example float_deutsch_constant_0_high_sample :
  match QuantumAlgorithms.deutschAlgorithm "constant-0" sample_near_1 with
  | Ok res => Some (DeutschResult.interpretation res, DeutschResult.isCorrect res)
  | Err _ => None
  end = Some (balanced, false).
Proof. vm_compute. reflexivity. Qed.

(** Grover for target 2 with one iteration: the recorded probability of the
    target is above 0.25 on binary64 too. *)
Example float_grover_target_probability :
  match QuantumAlgorithms.groverAlgorithm 2 (Some 1%nat) 0.5%float with
  | Ok res =>
    match GroverResult.targetProbability res with
    | Some p => PrimFloat.ltb 0.25%float p
    | None => false
    end
  | Err _ => false
  end = true.
Proof. vm_compute. reflexivity. Qed.

(** * Further properties of the library *)

(** ** Reading and writing single amplitudes *)

Lemma clone_id_any {F} {N : JsNum F} (c : Complex.t F) : Complex.clone c = c.
Proof. destruct c; reflexivity. Qed.

Lemma basis_guard_in_range (k : Z) (d : nat) :
  (0 <= k < Z.of_nat d)%Z -> ((k <? 0)%Z || (Z.of_nat d <=? k)%Z) = false.
Proof. intros H. apply orb_false_intro; [apply Z.ltb_ge | apply Z.leb_gt]; lia. Qed.

Lemma basis_guard_out_of_range (k : Z) (d : nat) :
  (k < 0 \/ Z.of_nat d <= k)%Z -> ((k <? 0)%Z || (Z.of_nat d <=? k)%Z) = true.
Proof.
  intros [H | H]; apply orb_true_iff; [left; apply Z.ltb_lt | right; apply Z.leb_le]; lia.
Qed.

(** X1: On a well-formed register, setAmplitude(k, c) with 0 <= k < 2^n
    succeeds, getAmplitude(k) then returns exactly c, and getAmplitude at
    every other index returns what it returned before; for k outside [0,
    2^n) both setAmplitude and getAmplitude fail with the basis-state-out-
    of-range error and leave the register unchanged. This holds for any
    number type (exact or binary64). *)
Theorem setAmplitude_getAmplitude {F} {N : JsNum F}
        (r : QuantumRegister.t F) (k : Z) (c : Complex.t F) :
  QuantumRegister.wf r ->
  ((0 <= k < Z.of_nat (QuantumRegister.dimension r))%Z ->
   exists r',
     QuantumRegister.setAmplitude k c r = (Ok tt, r') /\
     QuantumRegister.wf r' /\
     QuantumRegister.getAmplitude k r' = (Ok c, r') /\
     forall j, j <> k ->
       fst (QuantumRegister.getAmplitude j r') = fst (QuantumRegister.getAmplitude j r)) /\
  ((k < 0 \/ Z.of_nat (QuantumRegister.dimension r) <= k)%Z ->
   QuantumRegister.setAmplitude k c r = (Err BasisStateOutOfRange, r) /\
   QuantumRegister.getAmplitude k r = (Err BasisStateOutOfRange, r)).
Proof.
  intros (Hn & Hdim & Hlen). split.
  - intros Hk. eexists. split.
    { unfold QuantumRegister.setAmplitude. rewrite basis_guard_in_range by exact Hk.
      reflexivity. }
    split.
    { unfold QuantumRegister.wf. cbn. rewrite length_insert. auto. }
    split.
    { unfold QuantumRegister.getAmplitude. cbn.
      rewrite basis_guard_in_range by exact Hk.
      rewrite list_lookup_total_insert_eq by lia. rewrite !clone_id_any. reflexivity. }
    intros j Hj. unfold QuantumRegister.getAmplitude. cbn.
    destruct ((j <? 0)%Z || (Z.of_nat (QuantumRegister.dimension r) <=? j)%Z) eqn:E;
      [reflexivity |].
    cbn. apply orb_false_elim in E. destruct E as [E1 E2].
    apply Z.ltb_ge in E1. apply Z.leb_gt in E2.
    rewrite list_lookup_total_insert_ne by lia. reflexivity.
  - intros Hk. unfold QuantumRegister.setAmplitude, QuantumRegister.getAmplitude.
    rewrite basis_guard_out_of_range by exact Hk. split; reflexivity.
Qed.

(** ** ComplexUtils.normalize and QuantumRegister.normalize *)

Lemma sumAbsSquared_nonneg (l : list C) : (0 <= ComplexUtils.sumAbsSquared l)%R.
Proof. rewrite sumAbsSquared_Rsum. apply Rsum_nonneg. intros; apply prob_nonneg. Qed.

Lemma Rsum_scal (f : nat -> R) (k : R) (n : nat) :
  Rsum (fun i => (f i / k)%R) n = (Rsum f n / k)%R.
Proof. induction n as [|n IH]; cbn [Rsum]; [lra | rewrite IH; lra]. Qed.

Lemma lookup_total_map {A B} `{Inhabited A, Inhabited B} (f : A -> B) (l : list A) (i : nat) :
  (i < length l)%nat -> map f l !!! i = f (l !!! i).
Proof.
  revert i. induction l as [|x l IH]; intros i Hi; cbn in Hi; [lia |].
  destruct i as [|i]; [reflexivity |]. cbn. apply IH. lia.
Qed.

Lemma lookup_total_map_scale (l : list C) (k : R) (i : nat) :
  (i < length l)%nat ->
  map (fun amp => Cx (Complex.re amp / k) (Complex.im amp / k)) l !!! i = scale (l !!! i) k.
Proof. intros Hi. rewrite lookup_total_map by exact Hi. reflexivity. Qed.

Lemma sumAbsSquared_scale (l : list C) (k : R) :
  k <> 0%R ->
  ComplexUtils.sumAbsSquared
    (map (fun amp => Cx (Complex.re amp / k) (Complex.im amp / k)) l)
  = (ComplexUtils.sumAbsSquared l / (k * k))%R.
Proof.
  intros Hk. rewrite !sumAbsSquared_Rsum, length_map, <- Rsum_scal.
  apply Rsum_ext. intros i Hi. rewrite lookup_total_map_scale by exact Hi.
  apply prob_scale. exact Hk.
Qed.

Lemma tiny_pos : (0 < 1 / 10 ^ 15)%R.
Proof. apply Rdiv_lt_0_compat; [lra | apply pow_lt; lra]. Qed.

Lemma normalize_zero_vector (amplitudes : list C) :
  (sqrt (ComplexUtils.sumAbsSquared amplitudes) < 1 / 10 ^ 15)%R ->
  ComplexUtils.normalize amplitudes = Err ZeroVector.
Proof.
  intros H. unfold ComplexUtils.normalize. real_ops.
  rewrite Rltb_true by exact H. reflexivity.
Qed.

Lemma normalize_rescales (amplitudes : list C) :
  let norm := sqrt (ComplexUtils.sumAbsSquared amplitudes) in
  (1 / 10 ^ 15 <= norm)%R ->
  ComplexUtils.normalize amplitudes
  = Ok (map (fun amp => Cx (Complex.re amp / norm) (Complex.im amp / norm)) amplitudes) /\
  ComplexUtils.sumAbsSquared
    (map (fun amp => Cx (Complex.re amp / norm) (Complex.im amp / norm)) amplitudes) = 1%R.
Proof.
  intros norm H. pose proof tiny_pos as Htiny. split.
  - unfold ComplexUtils.normalize. real_ops. fold norm.
    rewrite Rltb_false by exact H. reflexivity.
  - assert (Hnorm : norm <> 0%R) by lra.
    assert (Hsq : (norm * norm = ComplexUtils.sumAbsSquared amplitudes)%R)
      by (apply sqrt_sqrt, sumAbsSquared_nonneg).
    rewrite sumAbsSquared_scale by exact Hnorm. rewrite <- Hsq. field. exact Hnorm.
Qed.

(** X2: In exact arithmetic, ComplexUtils.normalize fails with the zero-
    vector error when the norm sqrt(sum |a_i|^2) is below 1e-15; otherwise
    it returns a vector of the same length whose entry i is a_i divided by
    the norm, whose squared magnitudes sum to 1, and which normalize maps to
    itself. *)
Theorem ComplexUtils_normalize_spec (amplitudes : list C) :
  let norm := sqrt (ComplexUtils.sumAbsSquared amplitudes) in
  ((norm < 1 / 10 ^ 15)%R -> ComplexUtils.normalize amplitudes = Err ZeroVector) /\
  ((1 / 10 ^ 15 <= norm)%R ->
   exists normalized,
     ComplexUtils.normalize amplitudes = Ok normalized /\
     length normalized = length amplitudes /\
     (forall i, (i < length amplitudes)%nat ->
        normalized !!! i = scale (amplitudes !!! i) norm) /\
     ComplexUtils.sumAbsSquared normalized = 1%R /\
     ComplexUtils.normalize normalized = Ok normalized).
Proof.
  intros norm. pose proof tiny_pos as Htiny. split; [apply normalize_zero_vector |].
  intros H. destruct (normalize_rescales amplitudes H) as [E Hone]. fold norm in E, Hone.
  eexists. split; [exact E |]. split; [apply length_map |]. split.
  { intros i Hi. apply lookup_total_map_scale. exact Hi. }
  split; [exact Hone |].
  unfold ComplexUtils.normalize. real_ops.
  rewrite Hone, sqrt_1. rewrite Rltb_false by lra. f_equal.
  rewrite <- (map_id (map _ amplitudes)) at 2.
  apply map_ext. intros c. apply Complex_eq; cbn; field.
Qed.

(** ** Normalizing a register and measuring all of it *)

Ltac real_ops_in H :=
  cbn [nadd nsub nmul ndiv nneg nsqrt nabs nlt nof_Z lit_1e_15 lit_1e_10 Real_Num] in H.

(** X3: In exact arithmetic, QuantumRegister.normalize never fails on a
    well-formed register and always leaves squared magnitudes that sum to 1:
    when the norm is below 1e-15 it catches the zero-vector error and resets
    the register to |0...0> instead. *)
Theorem QuantumRegister_normalize_always_normalizes (r : RRegister) :
  QuantumRegister.wf r ->
  exists r',
    QuantumRegister.normalize r = (Ok tt, r') /\
    QuantumRegister.wf r' /\
    ComplexUtils.sumAbsSquared (QuantumRegister.amplitudes r') = 1%R /\
    ((sqrt (ComplexUtils.sumAbsSquared (QuantumRegister.amplitudes r)) < 1 / 10 ^ 15)%R ->
     QuantumRegister.amplitudes r' = zeroState (QuantumRegister.dimension r)).
Proof.
  intros (Hn & Hdim & Hlen).
  destruct (Rlt_le_dec (sqrt (ComplexUtils.sumAbsSquared (QuantumRegister.amplitudes r)))
                       (1 / 10 ^ 15)) as [H | H].
  - unfold QuantumRegister.normalize. rewrite (normalize_zero_vector _ H).
    rewrite initialize_spec by exact Hlen. eexists. split; [reflexivity |].
    cbn [QuantumRegister.amplitudes QuantumRegister.set_amplitudes].
    split; [| split; [| reflexivity]].
    + unfold QuantumRegister.wf. cbn. rewrite zeroState_length. auto.
    + apply zeroState_normalized. rewrite Hdim.
      pose proof (Nat.pow_nonzero 2 (QuantumRegister.numQubits r)). lia.
  - destruct (normalize_rescales _ H) as (E & Hone).
    unfold QuantumRegister.normalize. rewrite E. eexists. split; [reflexivity |].
    cbn [QuantumRegister.amplitudes QuantumRegister.set_amplitudes].
    split; [| split; [exact Hone | intros; lra]].
    unfold QuantumRegister.wf. cbn. rewrite length_map. auto.
Qed.

(** ** measureAll: the sampled index *)

Lemma measureAll_loop_first (probabilities : list R) (random cumulativeProb : R) (i : nat) :
  (exists k, (k < length probabilities)%nat /\
     QuantumRegister.measureAll_loop probabilities random cumulativeProb i = Some (i + k)%nat /\
     (random < fold_left Rplus (take (S k) probabilities) cumulativeProb)%R /\
     forall j, (1 <= j <= k)%nat ->
       (fold_left Rplus (take j probabilities) cumulativeProb <= random)%R) \/
  (QuantumRegister.measureAll_loop probabilities random cumulativeProb i = None /\
   forall j, (1 <= j <= length probabilities)%nat ->
     (fold_left Rplus (take j probabilities) cumulativeProb <= random)%R).
Proof.
  revert cumulativeProb i.
  induction probabilities as [|p rest IH]; intros cum i.
  - right. split; [reflexivity |]. intros j Hj. cbn in Hj. lia.
  - cbn [QuantumRegister.measureAll_loop]. real_ops.
    destruct (Rlt_le_dec random (cum + p)) as [Hlt | Hge].
    + left. exists 0%nat. rewrite Rltb_true by exact Hlt.
      split; [cbn; lia |]. split; [f_equal; lia |]. split.
      * rewrite firstn_cons, take_0. exact Hlt.
      * intros j Hj. lia.
    + rewrite Rltb_false by exact Hge.
      destruct (IH (cum + p)%R (S i)) as [(k & Hk & E & Hhit & Hbelow) | (E & Hbelow)].
      * left. exists (S k). split; [cbn; lia |].
        split; [rewrite E; f_equal; lia |]. split.
        -- rewrite firstn_cons. exact Hhit.
        -- intros j Hj. destruct j as [|j]; [lia |]. rewrite firstn_cons. cbn [fold_left].
           destruct j as [|j]; [rewrite take_0; exact Hge |]. apply Hbelow. lia.
      * right. split; [exact E |]. intros j Hj. cbn [length] in Hj.
        destruct j as [|j]; [lia |]. rewrite firstn_cons. cbn [fold_left].
        destruct j as [|j]; [rewrite take_0; exact Hge |]. apply Hbelow. lia.
Qed.

Lemma fold_left_take_probabilities (a : list C) (k : nat) :
  (k <= length a)%nat ->
  fold_left Rplus (take k (map (fun amp => (Complex.abs amp * Complex.abs amp)%R) a)) 0%R
  = cumulative a k.
Proof.
  induction k as [|k IH]; intros Hk; [reflexivity |].
  unfold cumulative. cbn [Rsum]. fold (cumulative a k). rewrite <- IH by lia.
  rewrite (take_S_r _ k (prob (a !!! k))).
  - rewrite fold_left_app. reflexivity.
  - change (map ?f a) with (f <$> a). rewrite list_lookup_fmap.
    rewrite list_lookup_lookup_total_lt by lia. reflexivity.
Qed.

Lemma cumulative_all (a : list C) :
  cumulative a (length a) = ComplexUtils.sumAbsSquared a.
Proof. unfold cumulative. rewrite sumAbsSquared_Rsum. reflexivity. Qed.

Lemma measureAll_first_exceeding (r : RRegister) (random : R) :
  QuantumRegister.wf r ->
  ComplexUtils.sumAbsSquared (QuantumRegister.amplitudes r) = 1%R ->
  (0 <= random < 1)%R ->
  exists i,
    (i < QuantumRegister.dimension r)%nat /\
    QuantumRegister.measureAll random r
    = (Ok i, QuantumRegister.set_amplitudes
               (<[i := Complex.ONE]> (zeroState (QuantumRegister.dimension r))) r) /\
    (cumulative (QuantumRegister.amplitudes r) i <= random
     < cumulative (QuantumRegister.amplitudes r) (S i))%R /\
    (0 < prob (QuantumRegister.amplitudes r !!! i))%R.
Proof.
  intros (Hn & Hdim & Hlen) Hone Hr.
  set (a := QuantumRegister.amplitudes r) in *.
  unfold QuantumRegister.measureAll. cbv zeta.
  unfold QuantumRegister.getAllProbabilities. fold a.
  match goal with
  | |- context [QuantumRegister.measureAll_loop ?p ?rnd ?c ?i] =>
    destruct (measureAll_loop_first p rnd c i)
      as [(k & Hk & E & Hhit & Hbelow) | (E & Hbelow)]
  end.
  - rewrite length_map in Hk. rewrite E. exists k.
    split; [lia |]. split.
    { unfold bind, ret. rewrite initialize_spec by exact Hlen.
      cbn [QuantumRegister.amplitudes QuantumRegister.set_amplitudes
           QuantumRegister.dimension QuantumRegister.numQubits].
      rewrite clone_id_any. reflexivity. }
    cbv zeta in Hhit, Hbelow. real_ops_in Hhit. real_ops_in Hbelow.
    rewrite fold_left_take_probabilities in Hhit by lia.
    assert (Hlow : (cumulative a k <= random)%R).
    { destruct k as [|k]; [unfold cumulative; cbn; lra |].
      rewrite <- fold_left_take_probabilities by lia. apply Hbelow. lia. }
    split; [lra |].
    unfold cumulative in *. cbn [Rsum] in Hhit. lra.
  - exfalso. rewrite length_map in Hbelow.
    specialize (Hbelow (length a)).
    cbv zeta in Hbelow. real_ops_in Hbelow.
    rewrite fold_left_take_probabilities, cumulative_all in Hbelow by lia.
    assert (1 <= length a)%nat
      by (rewrite Hlen, Hdim; pose proof (Nat.pow_nonzero 2 (QuantumRegister.numQubits r)); lia).
    specialize (Hbelow ltac:(lia)). lra.
Qed.

(* what measureAll leaves: initialize() sets index 0, then index i is set *)
Lemma after_measureAll_entries (d i j : nat) :
  (i < d)%nat -> (j < d)%nat ->
  <[i := Complex.ONE]> (zeroState (F := R) d) !!! j
  = if (j =? i)%nat || (j =? 0)%nat then Complex.ONE else Complex.ZERO.
Proof.
  intros Hi Hj. unfold zeroState.
  destruct (Nat.eqb_spec j i) as [-> | Hji]; cbn [orb].
  - apply list_lookup_total_insert_eq. rewrite length_insert, length_replicate. exact Hi.
  - rewrite list_lookup_total_insert_ne by congruence.
    destruct (Nat.eqb_spec j 0) as [-> | Hj0].
    + apply list_lookup_total_insert_eq. rewrite length_replicate. exact Hj.
    + rewrite list_lookup_total_insert_ne by congruence.
      apply lookup_total_replicate_2. exact Hj.
Qed.

Lemma after_measureAll_norm (d i : nat) :
  (i < d)%nat ->
  ComplexUtils.sumAbsSquared (<[i := Complex.ONE]> (zeroState (F := R) d))
  = (if (i =? 0)%nat then 1 else 2)%R.
Proof.
  intros Hi. rewrite sumAbsSquared_Rsum, length_insert, zeroState_length.
  rewrite (Rsum_ext _ (fun j => ((if (j =? i)%nat then 1 else 0)
                                 + (if (j =? 0)%nat
                                    then (if (i =? 0)%nat then 0 else 1) else 0))%R)).
  - rewrite Rsum_plus, !Rsum_indicator by lia.
    destruct (i =? 0)%nat; lra.
  - intros j Hj. rewrite after_measureAll_entries by assumption.
    destruct (Nat.eqb_spec j i) as [-> | Hji]; cbn [orb].
    + rewrite prob_ONE. destruct (i =? 0)%nat; lra.
    + destruct (Nat.eqb_spec j 0) as [-> | Hj0].
      * rewrite prob_ONE. destruct (Nat.eqb_spec i 0) as [-> | _]; [congruence | lra].
      * rewrite prob_ZERO. lra.
Qed.

(** X4: In exact arithmetic, on a well-formed normalized register and for a
    sample r of Math.random() in [0, 1), measureAll returns the index i
    whose interval of the cumulative distribution contains r (the sum of
    |a_j|^2 for j < i is <= r, and r is below that sum taken up to i), an
    index of nonzero probability; the fallback after the loop is not
    reached. It leaves amplitude 1 at index i and, because initialize() runs
    first and sets index 0 to 1, also at index 0, and 0 everywhere else: for
    i > 0 the register is left as |0...0> + |i>, with squared magnitudes
    summing to 2, and not in the basis state |i> the comment in the code
    names. *)
Theorem measureAll_born_rule (r : RRegister) (random : R) :
  QuantumRegister.wf r ->
  ComplexUtils.sumAbsSquared (QuantumRegister.amplitudes r) = 1%R ->
  (0 <= random < 1)%R ->
  exists i r',
    (i < QuantumRegister.dimension r)%nat /\
    QuantumRegister.measureAll random r = (Ok i, r') /\
    (cumulative (QuantumRegister.amplitudes r) i <= random
     < cumulative (QuantumRegister.amplitudes r) (S i))%R /\
    (0 < prob (QuantumRegister.amplitudes r !!! i))%R /\
    QuantumRegister.wf r' /\
    (forall j, (j < QuantumRegister.dimension r)%nat ->
       QuantumRegister.amplitudes r' !!! j
       = if (j =? i)%nat || (j =? 0)%nat then Complex.ONE else Complex.ZERO) /\
    ComplexUtils.sumAbsSquared (QuantumRegister.amplitudes r')
    = (if (i =? 0)%nat then 1 else 2)%R.
Proof.
  intros Hwf Hone Hr.
  destruct (measureAll_first_exceeding r random Hwf Hone Hr) as (i & Hi & E & Hc & Hpos).
  exists i. eexists. split; [exact Hi |]. split; [exact E |].
  split; [exact Hc |]. split; [exact Hpos |].
  cbn [QuantumRegister.amplitudes QuantumRegister.set_amplitudes].
  split.
  { destruct Hwf as (Hn & Hd & Hl). unfold QuantumRegister.wf.
    cbn [QuantumRegister.numQubits QuantumRegister.dimension QuantumRegister.amplitudes
         QuantumRegister.set_amplitudes].
    rewrite length_insert, zeroState_length. auto. }
  split.
  - intros j Hj. apply after_measureAll_entries; assumption.
  - apply after_measureAll_norm. exact Hi.
Qed.

(** ** measureQubit twice *)

Lemma scale_1 (c : C) : scale c 1 = c.
Proof. apply Complex_eq; cbn; field. Qed.

Lemma outcomeProbability_collapsed (a new : list C) (q o o' : nat) (p : R) :
  length new = length a ->
  (forall t, (t < length a)%nat ->
     new !!! t =
     let c := if (bit t q =? o)%nat then a !!! t else Complex.ZERO in
     if Rltb 0 p then scale c (sqrt p) else c) ->
  outcomeProbability new q o'
  = if (o' =? o)%nat
    then (if Rltb 0 p then outcomeProbability a q o / p else outcomeProbability a q o)%R
    else 0%R.
Proof.
  intros Hlen Hnew. unfold outcomeProbability. rewrite Hlen.
  destruct (Nat.eqb_spec o' o) as [-> | Hne].
  - unfold Rltb. destruct (Rlt_dec 0 p) as [Hp | Hp].
    + rewrite <- Rsum_scal. apply Rsum_ext. intros t Ht.
      destruct (bit t q =? o)%nat eqn:E; [| lra].
      rewrite Hnew by exact Ht. cbv zeta. rewrite E.
      unfold Rltb. destruct (Rlt_dec 0 p); [| contradiction].
      rewrite prob_scale by (pose proof (sqrt_lt_R0 p Hp); lra).
      rewrite sqrt_sqrt by lra. reflexivity.
    + apply Rsum_ext. intros t Ht.
      destruct (bit t q =? o)%nat eqn:E; [| reflexivity].
      rewrite Hnew by exact Ht. cbv zeta. rewrite E.
      unfold Rltb. destruct (Rlt_dec 0 p); [contradiction | reflexivity].
  - rewrite (Rsum_ext _ (fun _ => 0%R)).
    + clear. induction (length a) as [|n IH]; cbn [Rsum]; [reflexivity | rewrite IH; lra].
    + intros t Ht. destruct (Nat.eqb_spec (bit t q) o') as [E | _]; [| reflexivity].
      rewrite Hnew by exact Ht. cbv zeta.
      rewrite (proj2 (Nat.eqb_neq (bit t q) o)) by lia.
      destruct (Rltb 0 p); [rewrite scale_ZERO |]; apply prob_ZERO.
Qed.

(** X5: In exact arithmetic, if measureQubit(q) on a well-formed register
    returns an outcome (with a sample of Math.random() that is >= 0), then
    measuring the same qubit again returns the same outcome for every sample
    in [0, 1) and leaves the register exactly as the first measurement left
    it. *)
Theorem measureQubit_repeatable (r r1 : RRegister) (q : Z) (random random' : R) (outcome : nat) :
  QuantumRegister.wf r ->
  (0 <= random)%R -> (0 <= random' < 1)%R ->
  QuantumRegister.measureQubit q random r = (Ok outcome, r1) ->
  QuantumRegister.measureQubit q random' r1 = (Ok outcome, r1).
Proof.
  intros Hwf Hr Hr' Hrun.
  assert (Hq : (0 <= q < Z.of_nat (QuantumRegister.numQubits r))%Z).
  { unfold QuantumRegister.measureQubit in Hrun.
    destruct (Z.ltb_spec q 0); [discriminate |].
    destruct (Z.leb_spec (Z.of_nat (QuantumRegister.numQubits r)) q); [discriminate |]. lia. }
  destruct (measureQubit_spec r (Z.to_nat q) random Hwf ltac:(lia))
    as (new & E & Hlen & Hnew).
  rewrite Z2Nat.id in E by lia. rewrite E in Hrun. injection Hrun as Ho Hr1.
  cbv zeta in Hnew.
  set (a := QuantumRegister.amplitudes r) in *.
  set (k := Z.to_nat q) in *.
  set (o := if Rltb random (outcomeProbability a k 0) then 0%nat else 1%nat) in *.
  set (p := outcomeProbability a k o) in *.
  assert (Hwf1 : QuantumRegister.wf (QuantumRegister.set_amplitudes new r)).
  { destruct Hwf as (Hn & Hdim & Hl). unfold QuantumRegister.wf. cbn. auto. }
  assert (Hla : length new = length a) by (destruct Hwf as (_ & _ & Hl); unfold a; lia).
  assert (Hnew' : forall t, (t < length a)%nat ->
            new !!! t =
            let c := if (bit t k =? o)%nat then a !!! t else Complex.ZERO in
            if Rltb 0 p then scale c (sqrt p) else c).
  { intros t Ht. apply Hnew. destruct Hwf as (_ & _ & Hl). unfold a in Ht. lia. }
  pose proof (outcomeProbability_nonneg a k 0) as Hp0.
  pose proof (outcomeProbability_nonneg a k o) as Hpo. fold p in Hpo.
  (* the second measurement *)
  destruct (measureQubit_spec (QuantumRegister.set_amplitudes new r) k random' Hwf1)
    as (new2 & E2 & Hlen2 & Hnew2).
  { cbn. lia. }
  cbv zeta in Hnew2.
  cbn [QuantumRegister.amplitudes QuantumRegister.set_amplitudes
       QuantumRegister.dimension] in E2, Hlen2, Hnew2.
  unfold k in E2. rewrite Z2Nat.id in E2 by lia. fold k in E2.
  subst r1. subst outcome.
  (* the outcome is the same *)
  assert (Ho : (o = 0%nat /\ random < outcomeProbability a k 0)%R \/
               (o = 1%nat /\ outcomeProbability a k 0 <= random)%R).
  { unfold o, Rltb. destruct (Rlt_dec random (outcomeProbability a k 0)); [left | right];
      split; try reflexivity; lra. }
  assert (Hsame : (if Rltb random' (outcomeProbability new k 0) then 0%nat else 1%nat) = o).
  { rewrite (outcomeProbability_collapsed a new k o 0 p Hla Hnew').
    destruct Ho as [(Ho & Hlt) | (Ho & Hge)].
    - assert (Hp : p = outcomeProbability a k 0) by (unfold p; rewrite Ho; reflexivity).
      rewrite Ho. cbn [Nat.eqb]. rewrite (Rltb_true 0 p) by lra. rewrite <- Hp.
      replace (p / p)%R with 1%R by (field; lra).
      rewrite (Rltb_true random' 1) by lra. reflexivity.
    - rewrite Ho. cbn [Nat.eqb]. rewrite (Rltb_false random' 0) by lra. reflexivity. }
  rewrite Hsame in E2, Hnew2. rewrite E2. apply (f_equal (pair (Ok o))).
  destruct r as [nq dim amps]. cbn. apply (f_equal (QuantumRegister.Build nq dim)).
  cbn [QuantumRegister.dimension QuantumRegister.amplitudes] in *.
  apply list_total_ext; [lia |]. intros t Ht. rewrite Hnew2 by lia.
  assert (HP' : (0 < p /\ outcomeProbability new k o = 1)%R \/
                (p = 0 /\ outcomeProbability new k o = 0)%R).
  { rewrite (outcomeProbability_collapsed a new k o o p Hla Hnew'), Nat.eqb_refl.
    fold p. unfold Rltb. destruct (Rlt_dec 0 p); [left | right]; split; try lra.
    field. lra. }
  assert (Hzero : (bit t k =? o)%nat = false -> new !!! t = Complex.ZERO).
  { intros Hb. rewrite Hnew' by (rewrite <- Hla; lia). cbv zeta. rewrite Hb.
    destruct (Rltb 0 p); [apply scale_ZERO | reflexivity]. }
  destruct HP' as [(Hp & ->) | (Hp & ->)].
  - rewrite (Rltb_true 0 1) by lra. rewrite sqrt_1.
    destruct (bit t k =? o)%nat eqn:Eb; [apply scale_1 |].
    rewrite scale_1. symmetry. apply Hzero. reflexivity.
  - rewrite (Rltb_false 0 0) by lra.
    destruct (bit t k =? o)%nat eqn:Eb; [reflexivity |].
    symmetry. apply Hzero. reflexivity.
Qed.

(** ** Gates on a register, by their action on the basis states *)

Lemma wf_set_amplitudes {F} {N : JsNum F} (r : QuantumRegister.t F) (new : list (Complex.t F)) :
  QuantumRegister.wf r -> length new = QuantumRegister.dimension r ->
  QuantumRegister.wf (QuantumRegister.set_amplitudes new r).
Proof. intros (Hn & Hdim & Hlen) Hl. unfold QuantumRegister.wf. cbn. auto. Qed.

Lemma set_amplitudes_ext (r : RRegister) (l1 l2 : list C) :
  length l1 = length l2 ->
  (forall i, (i < length l1)%nat -> l1 !!! i = l2 !!! i) ->
  QuantumRegister.set_amplitudes l1 r = QuantumRegister.set_amplitudes l2 r.
Proof. intros Hl H. f_equal. apply list_total_ext; assumption. Qed.

Lemma set_amplitudes_twice {F} {N : JsNum F} (r : QuantumRegister.t F) (l1 l2 : list (Complex.t F)) :
  QuantumRegister.set_amplitudes l2 (QuantumRegister.set_amplitudes l1 r)
  = QuantumRegister.set_amplitudes l2 r.
Proof. reflexivity. Qed.

Lemma set_amplitudes_id {F} {N : JsNum F} (r : QuantumRegister.t F) :
  QuantumRegister.set_amplitudes (QuantumRegister.amplitudes r) r = r.
Proof. destruct r; reflexivity. Qed.

(** X6: In exact arithmetic, on a well-formed register and an in-range qubit
    q, applySingleQubitGate(X, q) moves the amplitude of every basis state
    to the state with bit q flipped, and applySingleQubitGate(Z, q) negates
    the amplitudes of the basis states whose bit q is 1 and leaves the
    others. *)
Theorem pauli_gates_on_register (r : RRegister) (q : Z) :
  QuantumRegister.wf r ->
  (0 <= q < Z.of_nat (QuantumRegister.numQubits r))%Z ->
  (exists r',
     QuantumRegister.applySingleQubitGate QuantumGates.X q r = (Ok tt, r') /\
     QuantumRegister.wf r' /\
     forall s, (s < QuantumRegister.dimension r)%nat ->
       QuantumRegister.amplitudes r' !!! s
       = QuantumRegister.amplitudes r !!! flip s (Z.to_nat q)) /\
  (exists r',
     QuantumRegister.applySingleQubitGate QuantumGates.Z q r = (Ok tt, r') /\
     QuantumRegister.wf r' /\
     forall s, (s < QuantumRegister.dimension r)%nat ->
       QuantumRegister.amplitudes r' !!! s
       = if (bit s (Z.to_nat q) =? 1)%nat
         then Complex.sub Complex.ZERO (QuantumRegister.amplitudes r !!! s)
         else QuantumRegister.amplitudes r !!! s).
Proof.
  intros Hwf Hq. split.
  - destruct (applySingleQubitGate_amplitudes
                Complex.ZERO Complex.ONE Complex.ONE Complex.ZERO (Z.to_nat q) r Hwf)
      as (new & E & Hlen & Hnew); [lia |].
    rewrite Z2Nat.id in E by lia.
    eexists. split; [exact E |]. split; [apply wf_set_amplitudes; assumption |].
    intros s Hs. cbn [QuantumRegister.amplitudes QuantumRegister.set_amplitudes].
    rewrite Hnew by exact Hs.
    destruct (bit_0_or_1 s (Z.to_nat q)) as [-> | ->]; apply Complex_eq; cbn; ring.
  - destruct (applySingleQubitGate_amplitudes
                Complex.ONE Complex.ZERO Complex.ZERO (Cx (-1) 0) (Z.to_nat q) r Hwf)
      as (new & E & Hlen & Hnew); [lia |].
    rewrite Z2Nat.id in E by lia.
    eexists. split; [exact E |]. split; [apply wf_set_amplitudes; assumption |].
    intros s Hs. cbn [QuantumRegister.amplitudes QuantumRegister.set_amplitudes].
    rewrite Hnew by exact Hs.
    destruct (bit_0_or_1 s (Z.to_nat q)) as [-> | ->]; apply Complex_eq; cbn; ring.
Qed.

(** Reading the bits the inner loop of applyTwoQubitGate sets. *)
Lemma newState_cases (u c t o : nat) :
  (o < 4)%nat -> c <> t ->
  newState u c t o
  = let u' := if (bit u t =? o mod 2)%nat then u else flip u t in
    if (bit u c =? o / 2)%nat then u' else flip u' c.
Proof.
  intros Ho Hct. rewrite newState_withBit by assumption. unfold withBit. cbv zeta.
  destruct (bit u t =? o mod 2)%nat; [reflexivity |].
  rewrite bit_flip_other by exact Hct. reflexivity.
Qed.

Lemma flip_comm (s q q' : nat) : flip (flip s q) q' = flip (flip s q') q.
Proof.
  unfold flip. rewrite !Nat.lxor_assoc. f_equal. apply Nat.lxor_comm.
Qed.

Ltac two_qubit_cases u c t Hct :=
  rewrite !newState_cases by (try lia; exact Hct);
  destruct (bit_0_or_1 u c) as [Ec | Ec], (bit_0_or_1 u t) as [Et | Et];
  unfold inputState; rewrite ?Ec, ?Et;
  cbn [Nat.eqb Nat.div Nat.modulo Nat.divmod fst snd Nat.sub Nat.mul Nat.add];
  cbv zeta.

(** X7: In exact arithmetic, on a well-formed register and distinct in-range
    qubits c and t, applyTwoQubitGate acts on the basis states as the gate's
    name says: with CNOT the new amplitude at s is the old amplitude at s
    with bit t flipped when bit c of s is 1 (else at s); CZ negates the
    amplitude when bits c and t are both 1; SWAP exchanges bits c and t of
    the index. *)
Theorem two_qubit_gates_on_register (r : RRegister) (c t : Z) :
  QuantumRegister.wf r ->
  (0 <= c < Z.of_nat (QuantumRegister.numQubits r))%Z ->
  (0 <= t < Z.of_nat (QuantumRegister.numQubits r))%Z ->
  c <> t ->
  let a := QuantumRegister.amplitudes r in
  let cq := Z.to_nat c in
  let tq := Z.to_nat t in
  (exists r',
     QuantumRegister.applyTwoQubitGate QuantumGates.CNOT c t r = (Ok tt, r') /\
     forall s, (s < QuantumRegister.dimension r)%nat ->
       QuantumRegister.amplitudes r' !!! s
       = a !!! (if (bit s cq =? 1)%nat then flip s tq else s)) /\
  (exists r',
     QuantumRegister.applyTwoQubitGate QuantumGates.CZ c t r = (Ok tt, r') /\
     forall s, (s < QuantumRegister.dimension r)%nat ->
       QuantumRegister.amplitudes r' !!! s
       = if (bit s cq =? 1)%nat && (bit s tq =? 1)%nat
         then Complex.sub Complex.ZERO (a !!! s) else a !!! s) /\
  (exists r',
     QuantumRegister.applyTwoQubitGate QuantumGates.SWAP c t r = (Ok tt, r') /\
     forall s, (s < QuantumRegister.dimension r)%nat ->
       QuantumRegister.amplitudes r' !!! s
       = a !!! (if (bit s cq =? bit s tq)%nat then s else flip (flip s tq) cq)).
Proof.
  intros Hwf Hc Ht Hct a cq tq.
  assert (Hne : cq <> tq) by (unfold cq, tq; lia).
  split; [| split].
  - destruct (applyTwoQubitGate_amplitudes QuantumGates.CNOT cq tq r Hwf)
      as (new & E & Hlen & Hnew); [unfold cq; lia | unfold tq; lia | exact Hne |].
    unfold cq, tq in E. rewrite !Z2Nat.id in E by lia.
    eexists. split; [exact E |]. intros s Hs.
    cbn [QuantumRegister.amplitudes QuantumRegister.set_amplitudes].
    rewrite Hnew by exact Hs. fold a. unfold Csum4.
    two_qubit_cases s cq tq Hne;
      apply Complex_eq; cbn; ring.
  - destruct (applyTwoQubitGate_amplitudes QuantumGates.CZ cq tq r Hwf)
      as (new & E & Hlen & Hnew); [unfold cq; lia | unfold tq; lia | exact Hne |].
    unfold cq, tq in E. rewrite !Z2Nat.id in E by lia.
    eexists. split; [exact E |]. intros s Hs.
    cbn [QuantumRegister.amplitudes QuantumRegister.set_amplitudes].
    rewrite Hnew by exact Hs. fold a. unfold Csum4.
    two_qubit_cases s cq tq Hne;
      apply Complex_eq; cbn; ring.
  - destruct (applyTwoQubitGate_amplitudes QuantumGates.SWAP cq tq r Hwf)
      as (new & E & Hlen & Hnew); [unfold cq; lia | unfold tq; lia | exact Hne |].
    unfold cq, tq in E. rewrite !Z2Nat.id in E by lia.
    eexists. split; [exact E |]. intros s Hs.
    cbn [QuantumRegister.amplitudes QuantumRegister.set_amplitudes].
    rewrite Hnew by exact Hs. fold a. unfold Csum4.
    two_qubit_cases s cq tq Hne;
      apply Complex_eq; cbn; ring.
Qed.

(** ** Applying gates one after the other *)

(* the single-qubit gate in the form the loop lemma reads it *)
Lemma applySingleQubitGate_entries (m00 m01 m10 m11 : C) (q : Z) (r : RRegister) :
  QuantumRegister.wf r ->
  (0 <= q < Z.of_nat (QuantumRegister.numQubits r))%Z ->
  exists new,
    QuantumRegister.applySingleQubitGate
      (QuantumMatrix.new [[m00; m01]; [m10; m11]]) q r
    = (Ok tt, QuantumRegister.set_amplitudes new r) /\
    length new = QuantumRegister.dimension r /\
    forall t, (t < QuantumRegister.dimension r)%nat ->
      new !!! t =
      Complex.add
        (Complex.mul (entry m00 m01 m10 m11 (bit t (Z.to_nat q)) (bit t (Z.to_nat q)))
                     (QuantumRegister.amplitudes r !!! t))
        (Complex.mul (entry m00 m01 m10 m11 (bit t (Z.to_nat q)) (1 - bit t (Z.to_nat q)))
                     (QuantumRegister.amplitudes r !!! flip t (Z.to_nat q))).
Proof.
  intros Hwf Hq.
  destruct (applySingleQubitGate_amplitudes m00 m01 m10 m11 (Z.to_nat q) r Hwf)
    as (new & E & Hlen & Hnew); [lia |].
  rewrite Z2Nat.id in E by lia. exists new. auto.
Qed.

Lemma flip_lt_dim (r : RRegister) (t q : nat) :
  QuantumRegister.wf r -> (t < QuantumRegister.dimension r)%nat ->
  (q < QuantumRegister.numQubits r)%nat ->
  (flip t q < QuantumRegister.dimension r)%nat.
Proof.
  intros (Hn & Hdim & Hlen) Ht Hq. rewrite Hdim in *. apply flip_lt; assumption.
Qed.

(** X8: In exact arithmetic, applying one of the gates X, Y, Z, H twice to
    the same in-range qubit of a well-formed register succeeds and gives
    back exactly the register it started from. *)
Theorem self_inverse_gates_on_register (gate : QuantumMatrix.t R) (r : RRegister) (q : Z) :
  In gate [QuantumGates.X; QuantumGates.Y; QuantumGates.Z; QuantumGates.H] ->
  QuantumRegister.wf r ->
  (0 <= q < Z.of_nat (QuantumRegister.numQubits r))%Z ->
  (QuantumRegister.applySingleQubitGate gate q >>
   QuantumRegister.applySingleQubitGate gate q)%method r = (Ok tt, r).
Proof.
  intros Hgate Hwf Hq.
  assert (Hform : exists m00 m01 m10 m11,
             gate = QuantumMatrix.new [[m00; m01]; [m10; m11]] /\
             Complex.add (Complex.mul m00 m00) (Complex.mul m01 m10) = Complex.ONE /\
             Complex.add (Complex.mul m00 m01) (Complex.mul m01 m11) = Complex.ZERO /\
             Complex.add (Complex.mul m10 m00) (Complex.mul m11 m10) = Complex.ZERO /\
             Complex.add (Complex.mul m10 m01) (Complex.mul m11 m11) = Complex.ONE).
  { pose proof inv_sqrt2_squared as Hs.
    cbn [In] in Hgate. destruct Hgate as [<- | [<- | [<- | [<- | []]]]];
      do 4 eexists; (split; [reflexivity |]);
      repeat split; apply Complex_eq; cbn; try ring.
    all: try (replace (-1 / sqrt 2)%R with (- (1 / sqrt 2))%R by (field; pose proof sqrt2_pos; lra)).
    all: nra. }
  destruct Hform as (m00 & m01 & m10 & m11 & -> & H00 & H01 & H10 & H11).
  destruct (applySingleQubitGate_entries m00 m01 m10 m11 q r Hwf Hq)
    as (new & E & Hlen & Hnew).
  pose proof (wf_set_amplitudes r new Hwf Hlen) as Hwf1.
  destruct (applySingleQubitGate_entries m00 m01 m10 m11 q _ Hwf1 Hq)
    as (new2 & E2 & Hlen2 & Hnew2).
  unfold bind. rewrite E, E2. rewrite set_amplitudes_twice.
  rewrite <- (set_amplitudes_id r) at 2. f_equal.
  apply set_amplitudes_ext.
  { destruct Hwf as (_ & _ & Hl). cbn in Hlen2. lia. }
  intros t Ht.
  cbn [QuantumRegister.amplitudes QuantumRegister.set_amplitudes
       QuantumRegister.dimension QuantumRegister.numQubits] in *.
  assert (Ht' : (t < QuantumRegister.dimension r)%nat) by lia.
  assert (Hf : (flip t (Z.to_nat q) < QuantumRegister.dimension r)%nat)
    by (apply flip_lt_dim; [assumption | assumption | lia]).
  rewrite Hnew2 by exact Ht'. rewrite (Hnew t), (Hnew (flip t (Z.to_nat q))) by assumption.
  rewrite bit_flip, flip_flip.
  set (a0 := QuantumRegister.amplitudes r !!! t).
  set (a1 := QuantumRegister.amplitudes r !!! flip t (Z.to_nat q)).
  destruct (bit_0_or_1 t (Z.to_nat q)) as [-> | ->]; cbn [Nat.sub entry].
  - transitivity (Complex.add
                    (Complex.mul (Complex.add (Complex.mul m00 m00) (Complex.mul m01 m10)) a0)
                    (Complex.mul (Complex.add (Complex.mul m00 m01) (Complex.mul m01 m11)) a1)).
    + apply Complex_eq; cbn; ring.
    + rewrite H00, H01. apply Complex_eq; cbn; ring.
  - transitivity (Complex.add
                    (Complex.mul (Complex.add (Complex.mul m10 m01) (Complex.mul m11 m11)) a0)
                    (Complex.mul (Complex.add (Complex.mul m10 m00) (Complex.mul m11 m10)) a1)).
    + apply Complex_eq; cbn; ring.
    + rewrite H11, H10. apply Complex_eq; cbn; ring.
Qed.

(** X9: In exact arithmetic, for any two 2x2 matrices A and B and two
    different in-range qubits q1 and q2 of a well-formed register,
    applySingleQubitGate(A, q1) followed by applySingleQubitGate(B, q2)
    leaves the same register as the two calls in the opposite order. *)
Theorem gates_on_different_qubits_commute
        (a00 a01 a10 a11 b00 b01 b10 b11 : C) (r : RRegister) (q1 q2 : Z) :
  QuantumRegister.wf r ->
  (0 <= q1 < Z.of_nat (QuantumRegister.numQubits r))%Z ->
  (0 <= q2 < Z.of_nat (QuantumRegister.numQubits r))%Z ->
  q1 <> q2 ->
  let gateA := QuantumMatrix.new [[a00; a01]; [a10; a11]] in
  let gateB := QuantumMatrix.new [[b00; b01]; [b10; b11]] in
  (QuantumRegister.applySingleQubitGate gateA q1 >>
   QuantumRegister.applySingleQubitGate gateB q2)%method r
  = (QuantumRegister.applySingleQubitGate gateB q2 >>
     QuantumRegister.applySingleQubitGate gateA q1)%method r.
Proof.
  intros Hwf H1 H2 Hne gateA gateB. subst gateA gateB.
  destruct (applySingleQubitGate_entries a00 a01 a10 a11 q1 r Hwf H1)
    as (newA & EA & HlA & HA).
  destruct (applySingleQubitGate_entries b00 b01 b10 b11 q2 r Hwf H2)
    as (newB & EB & HlB & HB).
  pose proof (wf_set_amplitudes r newA Hwf HlA) as HwfA.
  pose proof (wf_set_amplitudes r newB Hwf HlB) as HwfB.
  destruct (applySingleQubitGate_entries b00 b01 b10 b11 q2 _ HwfA H2)
    as (newAB & EAB & HlAB & HAB).
  destruct (applySingleQubitGate_entries a00 a01 a10 a11 q1 _ HwfB H1)
    as (newBA & EBA & HlBA & HBA).
  unfold bind. rewrite EA, EB, EAB, EBA. rewrite !set_amplitudes_twice. f_equal.
  cbn [QuantumRegister.amplitudes QuantumRegister.set_amplitudes
       QuantumRegister.dimension QuantumRegister.numQubits] in *.
  apply set_amplitudes_ext; [lia |]. intros t Ht.
  set (k1 := Z.to_nat q1) in *. set (k2 := Z.to_nat q2) in *.
  assert (Hk : k1 <> k2) by (unfold k1, k2; lia).
  assert (Ht' : (t < QuantumRegister.dimension r)%nat) by lia.
  assert (Hf1 : (flip t k1 < QuantumRegister.dimension r)%nat)
    by (apply flip_lt_dim; [assumption | assumption | unfold k1; lia]).
  assert (Hf2 : (flip t k2 < QuantumRegister.dimension r)%nat)
    by (apply flip_lt_dim; [assumption | assumption | unfold k2; lia]).
  rewrite HAB, HBA by exact Ht'.
  rewrite (HA t), (HA (flip t k2)), (HB t), (HB (flip t k1)) by assumption.
  rewrite (bit_flip_other t k1 k2), (bit_flip_other t k2 k1) by auto.
  rewrite (flip_comm t k2 k1).
  apply Complex_eq; cbn [Complex.re Complex.im Complex.add Complex.mul]; real_ops; ring.
Qed.

(** ** createUniformSuperposition *)

Lemma for_each_app {S A} (l1 l2 : list nat) (body : nat -> A -> Method S A) (a : A) (s : S) :
  for_each (l1 ++ l2) body a s
  = match for_each l1 body a s with
    | (Ok a', s') => for_each l2 body a' s'
    | (Err e, s') => (Err e, s')
    end.
Proof.
  revert a s. induction l1 as [|i l1 IH]; intros a s; [reflexivity |].
  cbn [for_each app]. unfold bind. destruct (body i a s) as [[a' | e] s']; [apply IH | reflexivity].
Qed.

Lemma for_loopM_S {S A} (n : nat) (body : nat -> A -> Method S A) (a : A) (s : S) :
  for_loopM (Datatypes.S n) body a s
  = match for_loopM n body a s with
    | (Ok a', s') => body n a' s'
    | (Err e, s') => (Err e, s')
    end.
Proof.
  unfold for_loopM. rewrite seq_S, for_each_app. cbn [Nat.add].
  destruct (for_each (seq 0 n) body a s) as [[a' | e] s']; [| reflexivity].
  cbn [for_each]. unfold bind, ret. destruct (body n a' s') as [[a'' | e] s'']; reflexivity.
Qed.

(* the loop that sets the first k amplitudes to [amp] *)
Lemma set_all_amplitudes {F} {N : JsNum F} (r : QuantumRegister.t F) (amp : Complex.t F) (k : nat) :
  length (QuantumRegister.amplitudes r) = QuantumRegister.dimension r ->
  (k <= QuantumRegister.dimension r)%nat ->
  for_loopM k (fun i _ => QuantumRegister.setAmplitude (Z.of_nat i) amp) tt r
  = (Ok tt, QuantumRegister.set_amplitudes
              (replicate k amp ++ drop k (QuantumRegister.amplitudes r)) r).
Proof.
  intros Hlen. induction k as [|k IH]; intros Hk.
  - cbn. rewrite drop_0. destruct r; reflexivity.
  - rewrite for_loopM_S, IH by lia.
    unfold QuantumRegister.setAmplitude.
    cbn [QuantumRegister.dimension QuantumRegister.set_amplitudes QuantumRegister.amplitudes
         QuantumRegister.numQubits].
    rewrite basis_guard_in_range by lia. rewrite Nat2Z.id, clone_id_any.
    apply (f_equal (pair (Ok tt))). rewrite set_amplitudes_twice.
    apply (f_equal (fun l => QuantumRegister.set_amplitudes l r)).
    rewrite insert_app_r_alt by (rewrite length_replicate; lia).
    rewrite length_replicate, Nat.sub_diag.
    rewrite (drop_S _ (QuantumRegister.amplitudes r !!! k) k)
      by (apply list_lookup_lookup_total_lt; lia).
    cbn [insert list_insert].
    rewrite replicate_S_end, <- app_assoc. reflexivity.
Qed.

Lemma Rsum_const (v : R) (n : nat) : Rsum (fun _ => v) n = (INR n * v)%R.
Proof.
  induction n as [|n IH]; [cbn; lra |].
  cbn [Rsum]. rewrite IH, S_INR. lra.
Qed.

Lemma sumAbsSquared_replicate (n : nat) (c : C) :
  ComplexUtils.sumAbsSquared (replicate n c) = (INR n * prob c)%R.
Proof.
  rewrite sumAbsSquared_Rsum, length_replicate.
  rewrite (Rsum_ext _ (fun _ => prob c)); [apply Rsum_const |].
  intros i Hi. rewrite lookup_total_replicate_2 by exact Hi. reflexivity.
Qed.

(** X10: In exact arithmetic, createUniformSuperposition(n) for 1 <= n <= 20
    returns a well-formed n-qubit register in which every one of the 2^n
    amplitudes is 1/sqrt(2^n), so that the squared magnitudes sum to 1; for
    n < 1 or n > 20 it fails with the constructor's qubit-count error. *)
Theorem createUniformSuperposition_spec (numQubits : Z) :
  ((1 <= numQubits <= 20)%Z ->
   exists r,
     QuantumRegister.createUniformSuperposition (F := R) numQubits = Ok r /\
     QuantumRegister.wf r /\
     QuantumRegister.numQubits r = Z.to_nat numQubits /\
     QuantumRegister.amplitudes r
     = replicate (2 ^ Z.to_nat numQubits)
                 (Cx (1 / sqrt (INR (2 ^ Z.to_nat numQubits))) 0) /\
     ComplexUtils.sumAbsSquared (QuantumRegister.amplitudes r) = 1%R) /\
  ((numQubits < 1 \/ 20 < numQubits)%Z ->
   QuantumRegister.createUniformSuperposition (F := R) numQubits = Err InvalidQubitCount).
Proof.
  split.
  - intros Hn. unfold QuantumRegister.createUniformSuperposition.
    rewrite new_spec by exact Hn. cbv zeta. unfold exec.
    rewrite set_all_amplitudes
      by (cbn; rewrite ?zeroState_length; lia).
    cbn [QuantumRegister.dimension QuantumRegister.amplitudes QuantumRegister.set_amplitudes
         QuantumRegister.numQubits].
    rewrite drop_ge by (rewrite zeroState_length; lia). rewrite app_nil_r.
    real_ops. rewrite <- INR_IZR_INZ.
    set (d := (2 ^ Z.to_nat numQubits)%nat).
    assert (Hd : (0 < INR d)%R).
    { apply lt_0_INR. unfold d. pose proof (Nat.pow_nonzero 2 (Z.to_nat numQubits)). lia. }
    eexists. split; [reflexivity |].
    cbn [QuantumRegister.dimension QuantumRegister.amplitudes QuantumRegister.numQubits
         QuantumRegister.set_amplitudes].
    split.
    { unfold QuantumRegister.wf. cbn. rewrite length_replicate. repeat split; lia. }
    split; [reflexivity |]. split; [reflexivity |].
    rewrite sumAbsSquared_replicate. unfold prob. rewrite abs_squared. cbn.
    pose proof (sqrt_lt_R0 _ Hd) as Hs. pose proof (sqrt_sqrt (INR d) ltac:(lra)) as Hss.
    replace (1 / sqrt (INR d) * (1 / sqrt (INR d)) + 0 * 0)%R
      with (1 / (sqrt (INR d) * sqrt (INR d)))%R by (field; lra).
    rewrite Hss. field. lra.
  - intros Hn. unfold QuantumRegister.createUniformSuperposition, QuantumRegister.new.
    replace ((numQubits <? 1)%Z || (20 <? numQubits)%Z) with true; [reflexivity |].
    symmetry. apply orb_true_iff. destruct Hn; [left | right]; apply Z.ltb_lt; lia.
Qed.

(** ** Deutsch's algorithm on every function type *)

(** Symbolic execution that leaves the oracle and the check alone. *)
Ltac sym_deutsch :=
  cbv -[Rplus Rmult Rminus Ropp Rdiv Rinv IZR sqrt Rabs Rltb Rlt_dec pow
        QuantumRegister.applySingleQubitGate QuantumRegister.measureQubit
        QuantumRegister.measureAll QuantumMatrix.apply Complex.mul
        QuantumAlgorithms.applyDeutschOracle QuantumAlgorithms.checkDeutschResult
        includes];
  fold Real_Num.

Lemma deutsch_after_oracle (functionType : string) (random : R)
      (M : QuantumMatrix.t R) (b0 b1 b2 b3 : R) :
  (0 <= random < 1)%R ->
  QuantumAlgorithms.applyDeutschOracle functionType (reg2 1 0 1 0)
  = (Ok M, reg2 b0 b1 b2 b3) ->
  ((b0 + b1) * (b0 + b1) + (b2 + b3) * (b2 + b3) = 2)%R ->
  exists res,
    QuantumAlgorithms.deutschAlgorithm functionType random = Ok res /\
    DeutschResult.measurementResult res = 0%nat /\
    DeutschResult.interpretation res = constant /\
    DeutschResult.isCorrect res = includes functionType "constant".
Proof.
  intros Hr Horacle Hb. unfold QuantumAlgorithms.deutschAlgorithm. rewrite new_2.
  sym_deutsch. rewrite apply_gate2_qubit0
    with (b0 := (2 * (1 / sqrt 2))%R) (b1 := 0%R) (b2 := 0%R) (b3 := 0%R) by arith.
  sym_deutsch. rewrite apply_gate2_qubit1
    with (b0 := 1%R) (b1 := 0%R) (b2 := 1%R) (b3 := 0%R) by arith.
  sym_deutsch. rewrite Horacle.
  sym_deutsch. rewrite apply_gate2_qubit0
    with (b0 := ((b0 + b1) * (1 / sqrt 2))%R) (b1 := ((b0 - b1) * (1 / sqrt 2))%R)
         (b2 := ((b2 + b3) * (1 / sqrt 2))%R) (b3 := ((b2 - b3) * (1 / sqrt 2))%R)
    by (try replace (-1 / sqrt 2)%R with (- (1 / sqrt 2))%R
          by (field; pose proof sqrt2_pos; lra); ring).
  sym_deutsch. rewrite measureQubit0_reg2.
  2:{ pose proof inv_sqrt2_squared as Hs.
      replace ((b0 + b1) * (1 / sqrt 2) * ((b0 + b1) * (1 / sqrt 2)) +
               (b2 + b3) * (1 / sqrt 2) * ((b2 + b3) * (1 / sqrt 2)))%R
        with (((b0 + b1) * (b0 + b1) + (b2 + b3) * (b2 + b3))
              * (1 / sqrt 2 * (1 / sqrt 2)))%R by ring.
      rewrite Hb, Hs. lra. }
  sym_deutsch. eexists. split; [reflexivity |]. cbn.
  split; [reflexivity |]. split; [reflexivity |].
  unfold QuantumAlgorithms.checkDeutschResult. cbn.
  destruct (includes functionType "constant"); reflexivity.
Qed.

Lemma oracle_identity_matrix (functionType : string) :
  String.eqb functionType "constant-1" = false ->
  String.eqb functionType "balanced-identity" = false ->
  String.eqb functionType "balanced-not" = false ->
  exists M,
    QuantumAlgorithms.applyDeutschOracle functionType (reg2 1 0 1 0)
    = (Ok M, reg2 1 0 1 0).
Proof.
  intros H1 H2 H3. unfold QuantumAlgorithms.applyDeutschOracle.
  rewrite H1, H2, H3.
  assert (E : forall b : bool,
            (if b then ret (QuantumMatrix.tensorProduct QuantumGates.I QuantumGates.I)
             else ret (QuantumMatrix.tensorProduct QuantumGates.I QuantumGates.I))
            = (ret (QuantumMatrix.tensorProduct QuantumGates.I QuantumGates.I)
               : Method RRegister (QuantumMatrix.t R)))
    by (intros []; reflexivity).
  rewrite E. sym. rewrite !mul_real.
  rewrite apply_matrix4 with (b0 := 1%R) (b1 := 0%R) (b2 := 1%R) (b3 := 0%R) by lra.
  sym. eexists. reflexivity.
Qed.

(** X11: In exact arithmetic, for every string functionType (the four known
    ones and any other) and every sample of Math.random() in [0, 1),
    deutschAlgorithm returns without error with measurementResult 0 and
    interpretation "constant"; isCorrect is therefore true exactly when
    functionType contains the substring 'constant'. *)
Theorem deutschAlgorithm_always_answers_constant (functionType : string) (random : R) :
  (0 <= random < 1)%R ->
  exists res,
    QuantumAlgorithms.deutschAlgorithm functionType random = Ok res /\
    DeutschResult.measurementResult res = 0%nat /\
    DeutschResult.interpretation res = constant /\
    DeutschResult.isCorrect res = includes functionType "constant".
Proof.
  intros Hr.
  destruct (String.eqb functionType "constant-1") eqn:E1.
  { apply String.eqb_eq in E1. subst functionType.
    apply (deutsch_after_oracle _ random
             (QuantumMatrix.tensorProduct QuantumGates.I QuantumGates.X) 0 1 0 1 Hr);
      [| lra].
    unfold QuantumAlgorithms.applyDeutschOracle. sym. rewrite !mul_real.
    rewrite apply_matrix4 with (b0 := 0%R) (b1 := 1%R) (b2 := 0%R) (b3 := 1%R) by lra.
    sym. reflexivity. }
  destruct (String.eqb functionType "balanced-identity") eqn:E2.
  { apply String.eqb_eq in E2. subst functionType.
    apply (deutsch_after_oracle _ random QuantumGates.CNOT 1 0 0 1 Hr); [| lra].
    unfold QuantumAlgorithms.applyDeutschOracle. sym.
    rewrite apply_matrix4 with (b0 := 1%R) (b1 := 0%R) (b2 := 0%R) (b3 := 1%R) by lra.
    sym. reflexivity. }
  destruct (String.eqb functionType "balanced-not") eqn:E3.
  { apply String.eqb_eq in E3. subst functionType.
    apply (deutsch_after_oracle _ random QuantumGates.CNOT 1 0 1 0 Hr); [| lra].
    unfold QuantumAlgorithms.applyDeutschOracle. sym.
    rewrite apply_gate2_qubit1
      with (b0 := 1%R) (b1 := 0%R) (b2 := 1%R) (b3 := 0%R) by lra.
    sym. reflexivity. }
  destruct (oracle_identity_matrix functionType E1 E2 E3) as (M & EM).
  apply (deutsch_after_oracle _ random M 1 0 1 0 Hr EM). lra.
Qed.

(** ** Grover's algorithm on every target *)

Lemma applyGroverOracle_reg2 (targetItem : Z) (a0 a1 a2 a3 : R) :
  (0 <= targetItem <= 3)%Z ->
  QuantumAlgorithms.applyGroverOracle targetItem (reg2 a0 a1 a2 a3)
  = (Ok tt, reg2 (if (targetItem =? 0)%Z then - a0 else a0)
                 (if (targetItem =? 1)%Z then - a1 else a1)
                 (if (targetItem =? 2)%Z then - a2 else a2)
                 (if (targetItem =? 3)%Z then - a3 else a3)).
Proof.
  intros Ht.
  assert (H : (targetItem = 0 \/ targetItem = 1 \/ targetItem = 2 \/ targetItem = 3)%Z)
    by lia.
  destruct H as [-> | [-> | [-> | ->]]];
    unfold QuantumAlgorithms.applyGroverOracle; sym;
    first
      [ rewrite apply_matrix4 with (b0 := (- a0)%R) (b1 := a1) (b2 := a2) (b3 := a3) by lra
      | rewrite apply_matrix4 with (b0 := a0) (b1 := (- a1)%R) (b2 := a2) (b3 := a3) by lra
      | rewrite apply_matrix4 with (b0 := a0) (b1 := a1) (b2 := (- a2)%R) (b3 := a3) by lra
      | rewrite apply_matrix4 with (b0 := a0) (b1 := a1) (b2 := a2) (b3 := (- a3)%R) by lra ];
    sym; reflexivity.
Qed.

Lemma applyGroverDiffuser_reg2 (a0 a1 a2 a3 : R) :
  QuantumAlgorithms.applyGroverDiffuser (reg2 a0 a1 a2 a3)
  = (Ok tt, reg2 (a0 - (a0 + a1 + a2 + a3) / 2) (a1 - (a0 + a1 + a2 + a3) / 2)
                 (a2 - (a0 + a1 + a2 + a3) / 2) (a3 - (a0 + a1 + a2 + a3) / 2)).
Proof.
  pose proof inv_sqrt2_squared as Hs.
  assert (Hneg : (-1 / sqrt 2 = - (1 / sqrt 2))%R) by (field; pose proof sqrt2_pos; lra).
  set (h := (1 / sqrt 2)%R) in *.
  pose proof (f_equal (Rmult a0) Hs) as H0. pose proof (f_equal (Rmult a1) Hs) as H1.
  pose proof (f_equal (Rmult a2) Hs) as H2. pose proof (f_equal (Rmult a3) Hs) as H3.
  unfold QuantumAlgorithms.applyGroverDiffuser.
  sym. fold h. rewrite ?Hneg.
  rewrite apply_gate2_qubit0
    with (b0 := (h * (a0 + a1))%R) (b1 := (h * (a0 - a1))%R)
         (b2 := (h * (a2 + a3))%R) (b3 := (h * (a2 - a3))%R) by ring.
  sym. fold h. rewrite ?Hneg.
  rewrite apply_gate2_qubit1
    with (b0 := ((a0 + a1 + a2 + a3) / 2)%R) (b1 := ((a0 - a1 + a2 - a3) / 2)%R)
         (b2 := ((a0 + a1 - a2 - a3) / 2)%R) (b3 := ((a0 - a1 - a2 + a3) / 2)%R) by lra.
  sym. fold h. rewrite ?Hneg. rewrite mul_real.
  rewrite apply_gate2_qubit0
    with (b0 := (h * ((a0 - a1 + a2 - a3) / 2 - (a0 + a1 + a2 + a3) / 2))%R)
         (b1 := (h * (- ((a0 + a1 + a2 + a3) / 2) - (a0 - a1 + a2 - a3) / 2))%R)
         (b2 := (h * ((a0 + a1 - a2 - a3) / 2 + (a0 - a1 - a2 + a3) / 2))%R)
         (b3 := (h * ((a0 + a1 - a2 - a3) / 2 - (a0 - a1 - a2 + a3) / 2))%R) by ring.
  sym. fold h. rewrite ?Hneg.
  rewrite apply_gate2_qubit1
    with (b0 := (a0 - (a0 + a1 + a2 + a3) / 2)%R) (b1 := (a1 - (a0 + a1 + a2 + a3) / 2)%R)
         (b2 := (a2 - (a0 + a1 + a2 + a3) / 2)%R) (b3 := (a3 - (a0 + a1 + a2 + a3) / 2)%R)
    by lra.
  reflexivity.
Qed.

(** A register whose whole probability sits on index [k] is measured as [k]. *)
Lemma measureAll_certain (r : RRegister) (random : R) (k : nat) :
  QuantumRegister.wf r ->
  (0 <= random < 1)%R ->
  (k < QuantumRegister.dimension r)%nat ->
  prob (QuantumRegister.amplitudes r !!! k) = 1%R ->
  (forall j, (j < QuantumRegister.dimension r)%nat -> j <> k ->
             prob (QuantumRegister.amplitudes r !!! j) = 0%R) ->
  QuantumRegister.measureAll random r
  = (Ok k, QuantumRegister.set_amplitudes
             (<[k := Complex.ONE]> (zeroState (QuantumRegister.dimension r))) r).
Proof.
  intros Hwf Hr Hk H1 H0.
  assert (Hone : ComplexUtils.sumAbsSquared (QuantumRegister.amplitudes r) = 1%R).
  { rewrite sumAbsSquared_Rsum. destruct Hwf as (_ & _ & Hlen). rewrite Hlen.
    rewrite (Rsum_ext _ (fun i => if (i =? k)%nat then 1%R else 0%R)).
    - apply Rsum_indicator. exact Hk.
    - intros i Hi. destruct (Nat.eqb_spec i k) as [-> | Hne]; [exact H1 | apply H0; assumption]. }
  destruct (measureAll_first_exceeding r random Hwf Hone Hr) as (i & Hi & E & _ & Hpos).
  destruct (Nat.eq_dec i k) as [-> | Hne]; [exact E |].
  rewrite (H0 i Hi Hne) in Hpos. lra.
Qed.

Ltac sym_grover :=
  cbv -[Rplus Rmult Rminus Ropp Rdiv Rinv IZR sqrt Rabs Rltb Rlt_dec pow
        QuantumRegister.applySingleQubitGate QuantumRegister.measureQubit
        QuantumRegister.measureAll QuantumMatrix.apply Complex.mul
        QuantumAlgorithms.applyGroverOracle QuantumAlgorithms.applyGroverDiffuser];
  fold Real_Num.

Lemma prob_real (x : R) : prob (Cx x 0) = (x * x)%R.
Proof. unfold prob. rewrite abs_squared. cbn. ring. Qed.

Ltac other_indices_zero :=
  let j := fresh "j" in let Hj := fresh "Hj" in let Hne := fresh "Hne" in
  intros j Hj Hne; cbn [QuantumRegister.dimension] in Hj;
  destruct j as [|[|[|[|j]]]]; try lia;
  cbn [QuantumRegister.amplitudes]; cbn [lookup_total list_lookup_total];
  rewrite prob_real; lra.

(** X12: In exact arithmetic, groverAlgorithm(target) with the default
    number of iterations (one) and any sample of Math.random() in [0, 1)
    returns, for each target 0, 1, 2, 3, a recorded target probability of
    exactly 1, the target as measurementResult and foundCorrect = true; for
    a target outside [0, 3] it fails with its parameter error. *)
Theorem groverAlgorithm_finds_every_target (targetItem : Z) (random : R) :
  ((0 <= targetItem <= 3)%Z -> (0 <= random < 1)%R ->
   exists res,
     QuantumAlgorithms.groverAlgorithm targetItem None random = Ok res /\
     GroverResult.iterations res = 1%nat /\
     GroverResult.targetProbability res = Some 1%R /\
     GroverResult.measurementResult res = Z.to_nat targetItem /\
     GroverResult.foundCorrect res = true) /\
  ((targetItem < 0 \/ 3 < targetItem)%Z ->
   QuantumAlgorithms.groverAlgorithm targetItem None random = Err InvalidAlgorithmParameter).
Proof.
  split.
  - intros Ht Hr.
    unfold QuantumAlgorithms.groverAlgorithm.
    replace ((targetItem <? 0)%Z || (3 <? targetItem)%Z) with false
      by (symmetry; apply orb_false_intro; apply Z.ltb_ge; lia).
    rewrite new_2.
    assert (H : (targetItem = 0 \/ targetItem = 1 \/ targetItem = 2 \/ targetItem = 3)%Z)
      by lia.
    destruct H as [-> | [-> | [-> | ->]]].
    all: sym_grover; rewrite apply_gate2_qubit0
      with (b0 := (1 / sqrt 2)%R) (b1 := (1 / sqrt 2)%R) (b2 := 0%R) (b3 := 0%R) by arith.
    all: sym_grover; rewrite apply_gate2_qubit1
      with (b0 := (1 / 2)%R) (b1 := (1 / 2)%R) (b2 := (1 / 2)%R) (b3 := (1 / 2)%R) by arith.
    all: sym_grover; rewrite applyGroverOracle_reg2 by lia; cbn [Z.eqb Pos.eqb].
    all: sym_grover; rewrite applyGroverDiffuser_reg2.
    all: sym_grover.
    + rewrite (measureAll_certain _ random 0%nat); [| apply wf_reg2 | exact Hr | cbn; lia | |].
      * sym_grover. eexists. repeat split; try reflexivity.
        cbn. f_equal. rewrite sqrt_sum_squares. lra.
      * cbn [QuantumRegister.amplitudes]. cbn [lookup_total list_lookup_total].
        rewrite prob_real. lra.
      * other_indices_zero.
    + rewrite (measureAll_certain _ random 1%nat); [| apply wf_reg2 | exact Hr | cbn; lia | |].
      * sym_grover. eexists. repeat split; try reflexivity.
        cbn. f_equal. rewrite sqrt_sum_squares. lra.
      * cbn [QuantumRegister.amplitudes]. cbn [lookup_total list_lookup_total].
        rewrite prob_real. lra.
      * other_indices_zero.
    + rewrite (measureAll_certain _ random 2%nat); [| apply wf_reg2 | exact Hr | cbn; lia | |].
      * sym_grover. eexists. repeat split; try reflexivity.
        cbn. f_equal. rewrite sqrt_sum_squares. lra.
      * cbn [QuantumRegister.amplitudes]. cbn [lookup_total list_lookup_total].
        rewrite prob_real. lra.
      * other_indices_zero.
    + rewrite (measureAll_certain _ random 3%nat); [| apply wf_reg2 | exact Hr | cbn; lia | |].
      * sym_grover. eexists. repeat split; try reflexivity.
        cbn. f_equal. rewrite sqrt_sum_squares. lra.
      * cbn [QuantumRegister.amplitudes]. cbn [lookup_total list_lookup_total].
        rewrite prob_real. lra.
      * other_indices_zero.
  - intros Ht. unfold QuantumAlgorithms.groverAlgorithm.
    replace ((targetItem <? 0)%Z || (3 <? targetItem)%Z) with true; [reflexivity |].
    symmetry. apply orb_true_iff. destruct Ht; [left | right]; apply Z.ltb_lt; lia.
Qed.

(** ** The oracle and the diffuser on arbitrary amplitudes *)

Lemma applyGroverDiffuser_amplitudes (c0 c1 c2 c3 : C) :
  let sum := Complex.add (Complex.add (Complex.add c0 c1) c2) c3 in
  QuantumAlgorithms.applyGroverDiffuser (QuantumRegister.Build 2 4 [c0; c1; c2; c3])
  = (Ok tt, QuantumRegister.Build 2 4
              [Complex.sub c0 (scale sum 2); Complex.sub c1 (scale sum 2);
               Complex.sub c2 (scale sum 2); Complex.sub c3 (scale sum 2)]).
Proof.
  destruct c0 as [x0 y0], c1 as [x1 y1], c2 as [x2 y2], c3 as [x3 y3].
  intros sum. subst sum. run.
  pose proof inv_sqrt2_squared as Hs.
  assert (Hneg : (-1 / sqrt 2 = - (1 / sqrt 2))%R) by (field; pose proof sqrt2_pos; lra).
  rewrite Hneg. set (h := (1 / sqrt 2)%R) in *.
  assert (Hh : forall x : R, (h * (h * x) = x / 2)%R) by (intros x; rewrite <- Rmult_assoc, Hs; lra).
  assert (H2 : (h ^ 2 = 1 / 2)%R) by (rewrite <- Hs; ring).
  assert (H3 : (h ^ 3 = h / 2)%R) by (replace (h ^ 3)%R with (h * h * h)%R by ring; rewrite Hs; lra).
  assert (H4 : (h ^ 4 = 1 / 4)%R)
    by (replace (h ^ 4)%R with ((h * h) * (h * h))%R by ring; rewrite Hs; lra).
  do 2 f_equal.
  apply amplitudes4_ext; ring_simplify; rewrite ?H4, ?H3, ?H2; lra.
Qed.

Lemma applyGroverOracle_amplitudes (targetItem : Z) (c0 c1 c2 c3 : C) :
  let mark (i : Z) (c : C) :=
    if (i =? targetItem)%Z then Complex.sub Complex.ZERO c else c in
  QuantumAlgorithms.applyGroverOracle targetItem (QuantumRegister.Build 2 4 [c0; c1; c2; c3])
  = (Ok tt, QuantumRegister.Build 2 4 [mark 0%Z c0; mark 1%Z c1; mark 2%Z c2; mark 3%Z c3]).
Proof.
  destruct c0 as [x0 y0], c1 as [x1 y1], c2 as [x2 y2], c3 as [x3 y3].
  intros mark. subst mark.
  cbv -[Rplus Rmult Rminus Ropp Rdiv Rinv IZR sqrt Rabs Rltb Rlt_dec pow Z.eqb].
  do 2 f_equal.
  change (Z.pos 1) with 1%Z. 
  destruct (0 =? targetItem)%Z, (1 =? targetItem)%Z, (Z.pos 2 =? targetItem)%Z,
           (Z.pos 3 =? targetItem)%Z;
    apply amplitudes4_ext; ring.
Qed.

(** X13: In exact arithmetic, on a two-qubit register with arbitrary complex
    amplitudes c0..c3: applyGroverOracle(target) succeeds for every integer
    target, negates the amplitude at index target when target is 0, 1, 2 or
    3 and changes nothing else; applyGroverDiffuser (H on both qubits, the
    phase flip of |00>, H on both qubits) succeeds and replaces every
    amplitude c_i by c_i - (c0 + c1 + c2 + c3)/2, which is the inversion
    about the mean up to the global sign. *)
Theorem grover_oracle_and_diffuser_two_qubits (targetItem : Z) (c0 c1 c2 c3 : C) :
  let mark (i : Z) (c : C) :=
    if (i =? targetItem)%Z then Complex.sub Complex.ZERO c else c in
  let sum := Complex.add (Complex.add (Complex.add c0 c1) c2) c3 in
  QuantumAlgorithms.applyGroverOracle targetItem (QuantumRegister.Build 2 4 [c0; c1; c2; c3])
  = (Ok tt, QuantumRegister.Build 2 4 [mark 0%Z c0; mark 1%Z c1; mark 2%Z c2; mark 3%Z c3]) /\
  QuantumAlgorithms.applyGroverDiffuser (QuantumRegister.Build 2 4 [c0; c1; c2; c3])
  = (Ok tt, QuantumRegister.Build 2 4
              [Complex.sub c0 (scale sum 2); Complex.sub c1 (scale sum 2);
               Complex.sub c2 (scale sum 2); Complex.sub c3 (scale sum 2)]).
Proof.
  split; [apply applyGroverOracle_amplitudes | apply applyGroverDiffuser_amplitudes].
Qed.

(** ** Complex numbers *)

Lemma prob_re_im (c : C) :
  prob c = (Complex.re c * Complex.re c + Complex.im c * Complex.im c)%R.
Proof. unfold prob. apply abs_squared. Qed.

Lemma prob_mul (z w : C) : prob (Complex.mul z w) = (prob z * prob w)%R.
Proof. rewrite !prob_re_im. cbn. ring. Qed.

Lemma abs_nonneg (c : C) : (0 <= Complex.abs c)%R.
Proof. unfold Complex.abs. apply sqrt_pos. Qed.

(** X14: In exact arithmetic, for all complex z and w: abs(z.mul(w)) =
    abs(z) * abs(w), abs(z.conj()) = abs(z), and z.mul(z.conj()) is the real
    number abs(z)^2. *)
Theorem Complex_abs_multiplicative (z w : C) :
  Complex.abs (Complex.mul z w) = (Complex.abs z * Complex.abs w)%R /\
  Complex.abs (Complex.conj z) = Complex.abs z /\
  Complex.mul z (Complex.conj z) = Cx (Complex.abs z * Complex.abs z) 0.
Proof.
  split; [| split].
  - unfold Complex.abs. cbn. rewrite <- sqrt_mult by nra. f_equal. ring.
  - unfold Complex.abs. cbn. f_equal. ring.
  - rewrite abs_squared. apply Complex_eq; cbn; ring.
Qed.

(** X15: In exact arithmetic, z.equals(w, eps) is true exactly when both |re
    z - re w| < eps and |im z - im w| < eps; it is symmetric, true of z and
    z for every eps > 0, false for every pair when eps <= 0, and not
    transitive (0 equals 1 and 1 equals 2 up to 1.5, but 0 does not equal
    2). *)
Theorem Complex_equals_tolerance (z w : C) (eps : R) :
  Complex.equals z w eps = Complex.equals w z eps /\
  ((0 < eps)%R -> Complex.equals z z eps = true) /\
  ((eps <= 0)%R -> Complex.equals z w eps = false) /\
  (Complex.equals z w eps = true <->
   (Rabs (Complex.re z - Complex.re w) < eps /\
    Rabs (Complex.im z - Complex.im w) < eps)%R) /\
  (Complex.equals (Cx 0 0) (Cx 1 0) (3 / 2)%R = true /\
   Complex.equals (Cx 1 0) (Cx 2 0) (3 / 2)%R = true /\
   Complex.equals (Cx 0 0) (Cx 2 0) (3 / 2)%R = false).
Proof.
  unfold Complex.equals. real_ops. cbn [Complex.re Complex.im].
  split; [| split; [| split; [| split]]].
  - rewrite (Rabs_minus_sym (Complex.re z)), (Rabs_minus_sym (Complex.im z)). reflexivity.
  - intros He. replace (Complex.re z - Complex.re z)%R with 0%R by ring.
    replace (Complex.im z - Complex.im z)%R with 0%R by ring.
    rewrite Rabs_R0, Rltb_true by exact He. reflexivity.
  - intros He. rewrite Rltb_false; [reflexivity |].
    pose proof (Rabs_pos (Complex.re z - Complex.re w)). lra.
  - unfold Rltb. destruct (Rlt_dec _ eps), (Rlt_dec _ eps); cbn; split;
      intros H; try discriminate; try reflexivity; try tauto.
  - replace (0 - 1)%R with (-1)%R by ring. replace (1 - 2)%R with (-1)%R by ring.
    replace (0 - 0)%R with 0%R by ring. replace (0 - 2)%R with (-2)%R by ring.
    replace (Rabs (-1)) with 1%R by (rewrite Rabs_left by lra; lra).
    replace (Rabs (-2)) with 2%R by (rewrite Rabs_left by lra; lra).
    rewrite Rabs_R0.
    rewrite (Rltb_true 1 (3 / 2)), (Rltb_true 0 (3 / 2)), (Rltb_false 2 (3 / 2)) by lra.
    repeat split.
Qed.

Lemma tiny_lt_1 : (1 / 10 ^ 15 < 1)%R.
Proof.
  assert (H : (1 < 10 ^ 15)%R) by (cbn [pow]; lra).
  apply (Rmult_lt_reg_r (10 ^ 15)); [lra |].
  unfold Rdiv. rewrite Rmult_assoc, Rinv_l by lra. lra.
Qed.

(** ** Lone qubit states *)

Lemma QuantumState_new_cases (alpha beta : C) :
  let norm := sqrt (prob alpha + prob beta) in
  ((norm < 1 / 10 ^ 15)%R ->
   QuantumState.new alpha beta = QuantumState.Build (Cx 1 0) (Cx 0 0)) /\
  ((1 / 10 ^ 15 <= norm)%R ->
   QuantumState.new alpha beta = QuantumState.Build (scale alpha norm) (scale beta norm)).
Proof.
  intros norm. unfold QuantumState.new, QuantumState.normalize.
  cbn [QuantumState.alpha QuantumState.beta]. rewrite !clone_id. real_ops.
  fold (prob alpha) (prob beta). fold norm. split; intros H.
  - rewrite Rltb_true by exact H. reflexivity.
  - rewrite Rltb_false by exact H. reflexivity.
Qed.

Lemma state_probabilities (a b : C) :
  QuantumState.getProbability0 (QuantumState.Build a b) = prob a /\
  QuantumState.getProbability1 (QuantumState.Build a b) = prob b.
Proof. split; reflexivity. Qed.

Lemma QuantumState_new_sum_one (alpha beta : C) :
  (QuantumState.getProbability0 (QuantumState.new alpha beta)
   + QuantumState.getProbability1 (QuantumState.new alpha beta) = 1)%R.
Proof.
  destruct (QuantumState_new_cases alpha beta) as [Hsmall Hbig].
  cbv zeta in Hsmall, Hbig. pose proof tiny_pos as Htiny.
  destruct (Rlt_le_dec (sqrt (prob alpha + prob beta)) (1 / 10 ^ 15)) as [H | H].
  - rewrite (Hsmall H). unfold QuantumState.getProbability0, QuantumState.getProbability1.
    cbn [QuantumState.alpha QuantumState.beta]. cbv zeta. real_ops.
    fold (prob (Cx 1 0)) (prob (Cx 0 0)). rewrite !prob_real. lra.
  - rewrite (Hbig H). unfold QuantumState.getProbability0, QuantumState.getProbability1.
    cbn [QuantumState.alpha QuantumState.beta]. cbv zeta. real_ops.
    set (n := sqrt (prob alpha + prob beta)) in *.
    fold (prob (scale alpha n)) (prob (scale beta n)).
    rewrite !prob_scale by lra.
    assert (Hsq : (n * n = prob alpha + prob beta)%R).
    { apply sqrt_sqrt. pose proof (prob_nonneg alpha). pose proof (prob_nonneg beta). lra. }
    rewrite Hsq. field. rewrite <- Hsq. nra.
Qed.

Lemma QuantumState_new_normalized_id (a b : C) :
  (prob a + prob b = 1)%R -> QuantumState.new a b = QuantumState.Build a b.
Proof.
  intros H1. destruct (QuantumState_new_cases a b) as [_ Hbig].
  cbv zeta in Hbig. rewrite H1, sqrt_1 in Hbig.
  rewrite Hbig by (pose proof tiny_lt_1; lra).
  rewrite !scale_1. reflexivity.
Qed.

Lemma QuantumState_clone_normalized (s : QuantumState.t R) :
  (QuantumState.getProbability0 s + QuantumState.getProbability1 s = 1)%R ->
  QuantumState.clone s = s.
Proof.
  intros H. unfold QuantumState.clone. rewrite !clone_id.
  destruct s as [a b]. cbn [QuantumState.alpha QuantumState.beta].
  apply QuantumState_new_normalized_id. exact H.
Qed.

(** X16: In exact arithmetic, new QuantumState(alpha, beta) always has
    |alpha|^2 + |beta|^2 = 1, whatever amplitudes it is given; it stores
    amplitudes that are already normalized unchanged, and clone() of a
    constructed state is the state itself. *)
Theorem QuantumState_constructor_normalizes (alpha beta : C) :
  let s := QuantumState.new alpha beta in
  (QuantumState.getProbability0 s + QuantumState.getProbability1 s = 1)%R /\
  ((prob alpha + prob beta = 1)%R -> s = QuantumState.Build alpha beta) /\
  QuantumState.clone s = s.
Proof.
  intros s. split; [apply QuantumState_new_sum_one |].
  split; [apply QuantumState_new_normalized_id |].
  apply QuantumState_clone_normalized, QuantumState_new_sum_one.
Qed.

(** ** Lone qubits and tensor products *)

(** X17: In exact arithmetic, QuantumState.measure() returns 0 exactly when
    the sample of Math.random() is below |alpha|^2 and 1 otherwise, leaves
    the state |0> or |1> according to the outcome (which getStateType
    reports as 'basis-0' or 'basis-1'), and measuring again with any sample
    in [0, 1) returns the same outcome and state. *)
Theorem QuantumState_measure_collapses (s : QuantumState.t R) (random random' : R) :
  (0 <= random' < 1)%R ->
  let '(outcome, s') := QuantumState.measure random s in
  (outcome = 0%nat <-> (random < QuantumState.getProbability0 s)%R) /\
  (outcome = 0%nat \/ outcome = 1%nat) /\
  s' = (if (outcome =? 0)%nat then QuantumState.Build (Cx 1 0) (Cx 0 0)
        else QuantumState.Build (Cx 0 0) (Cx 1 0)) /\
  QuantumState.getStateType s' = (if (outcome =? 0)%nat then QuantumState.basis_0
                                  else QuantumState.basis_1) /\
  QuantumState.measure random' s' = (outcome, s').
Proof.
  intros Hr'. unfold QuantumState.measure. cbv zeta. real_ops.
  assert (P10 : prob (Cx 1 0) = 1%R) by (rewrite prob_real; lra).
  assert (P00 : prob (Cx 0 0) = 0%R) by (rewrite prob_real; lra).
  unfold Rltb at 1. destruct (Rlt_dec random (QuantumState.getProbability0 s)) as [H | H].
  - split; [tauto |]. split; [auto |]. split; [reflexivity |]. split.
    + unfold QuantumState.getStateType, QuantumState.getProbability0,
        QuantumState.getProbability1, QuantumState.lit_0_99.
      cbn [QuantumState.alpha QuantumState.beta Nat.eqb]. cbv zeta. real_ops.
      fold (prob (Cx 1 0)). rewrite P10. rewrite Rltb_true by lra. reflexivity.
    + unfold QuantumState.getProbability0. cbn [QuantumState.alpha]. cbv zeta. real_ops.
      fold (prob (Cx 1 0)). rewrite P10. rewrite Rltb_true by lra. reflexivity.
  - split; [split; [discriminate | contradiction] |]. split; [auto |].
    split; [reflexivity |]. split.
    + unfold QuantumState.getStateType, QuantumState.getProbability0,
        QuantumState.getProbability1, QuantumState.lit_0_99.
      cbn [QuantumState.alpha QuantumState.beta Nat.eqb]. cbv zeta. real_ops.
      fold (prob (Cx 1 0)) (prob (Cx 0 0)). rewrite P10, P00.
      rewrite Rltb_false by lra. rewrite Rltb_true by lra. reflexivity.
    + unfold QuantumState.getProbability0. cbn [QuantumState.alpha]. cbv zeta. real_ops.
      fold (prob (Cx 0 0)). rewrite P00. rewrite Rltb_false by lra. reflexivity.
Qed.

(** ** Tensor products *)

Lemma for_loop_push {A} (n : nat) (f : nat -> A) (acc : list A) :
  for_loop n (fun j result => result ++ [f j]) acc = acc ++ map f (seq 0 n).
Proof.
  induction n as [|n IH]; [cbn; rewrite app_nil_r; reflexivity |].
  rewrite for_loop_S, IH, seq_S, map_app, app_assoc. reflexivity.
Qed.

Lemma map_lookup_total_seq {A} `{Inhabited A} (l : list A) :
  map (fun j => l !!! j) (seq 0 (length l)) = l.
Proof.
  induction l as [|x l IH] using rev_ind; [reflexivity |].
  rewrite length_app. cbn [length]. rewrite Nat.add_1_r, seq_S, map_app. cbn [map Nat.add].
  rewrite lookup_total_app_r by lia. rewrite Nat.sub_diag. cbn. f_equal.
  rewrite <- IH at 2. apply map_ext_in. intros j Hj. apply in_seq in Hj.
  rewrite lookup_total_app_l by lia. reflexivity.
Qed.

Lemma tensorProduct_flat_map (vec1 vec2 : list C) :
  ComplexUtils.tensorProduct vec1 vec2
  = flat_map (fun a => map (Complex.mul a) vec2) vec1.
Proof.
  unfold ComplexUtils.tensorProduct.
  assert (Hinner : forall (a : C) (acc : list C),
            for_loop (length vec2)
              (fun j result => result ++ [Complex.mul a (vec2 !!! j)]) acc
            = acc ++ map (Complex.mul a) vec2).
  { intros a acc. rewrite (for_loop_push _ (fun j => Complex.mul a (vec2 !!! j))).
    f_equal. rewrite <- (map_lookup_total_seq vec2) at 2. rewrite map_map. reflexivity. }
  assert (Houter : forall k, (k <= length vec1)%nat ->
            for_loop k (fun i result =>
              for_loop (length vec2)
                (fun j result => result ++ [Complex.mul (vec1 !!! i) (vec2 !!! j)]) result) []
            = flat_map (fun a => map (Complex.mul a) vec2) (take k vec1)).
  { induction k as [|k IH]; intros Hk; [reflexivity |].
    rewrite for_loop_S, IH by lia. rewrite Hinner.
    rewrite (take_S_r vec1 k (vec1 !!! k)) by (apply list_lookup_lookup_total_lt; lia).
    rewrite flat_map_app. cbn [flat_map]. rewrite app_nil_r. reflexivity. }
  rewrite Houter by lia. rewrite firstn_all. reflexivity.
Qed.

Lemma sumAbsSquared_list (l : list C) :
  ComplexUtils.sumAbsSquared l = Rlist_sum (map prob l).
Proof.
  rewrite sumAbsSquared_Rsum, Rsum_list. f_equal.
  rewrite <- (map_lookup_total_seq l) at 2. rewrite map_map. reflexivity.
Qed.

Lemma Rlist_sum_map_mul (a : C) (l : list C) :
  Rlist_sum (map prob (map (Complex.mul a) l)) = (prob a * Rlist_sum (map prob l))%R.
Proof.
  induction l as [|x l IH]; unfold Rlist_sum in *; cbn [map fold_right]; [ring |].
  rewrite IH, prob_mul. ring.
Qed.

(** X18: In exact arithmetic, ComplexUtils.tensorProduct(v1, v2) has length
    |v1| * |v2|, its entry at index i * |v2| + j is v1[i].mul(v2[j]), and
    its sum of squared magnitudes is the product of those of v1 and v2 (so
    the product of normalized vectors is normalized). *)
Theorem ComplexUtils_tensorProduct_spec (vec1 vec2 : list C) :
  length (ComplexUtils.tensorProduct vec1 vec2) = (length vec1 * length vec2)%nat /\
  (forall i j, (i < length vec1)%nat -> (j < length vec2)%nat ->
     ComplexUtils.tensorProduct vec1 vec2 !!! (i * length vec2 + j)%nat
     = Complex.mul (vec1 !!! i) (vec2 !!! j)) /\
  ComplexUtils.sumAbsSquared (ComplexUtils.tensorProduct vec1 vec2)
  = (ComplexUtils.sumAbsSquared vec1 * ComplexUtils.sumAbsSquared vec2)%R.
Proof.
  rewrite tensorProduct_flat_map. split; [| split].
  - induction vec1 as [|a vec1 IH]; [reflexivity |].
    cbn [flat_map length]. rewrite length_app, length_map, IH. lia.
  - induction vec1 as [|a vec1 IH]; intros i j Hi Hj; [cbn in Hi; lia |].
    cbn [flat_map]. destruct i as [|i].
    + cbn [Nat.mul Nat.add]. rewrite lookup_total_app_l by (rewrite length_map; lia).
      rewrite lookup_total_map by exact Hj. reflexivity.
    + rewrite lookup_total_app_r by (rewrite length_map; cbn; lia).
      rewrite length_map.
      replace (S i * length vec2 + j - length vec2)%nat with (i * length vec2 + j)%nat
        by (cbn; lia).
      cbn [lookup_total list_lookup_total]. apply IH; [cbn in Hi; lia | exact Hj].
  - rewrite !sumAbsSquared_list.
    induction vec1 as [|a vec1 IH]; [unfold Rlist_sum; cbn; ring |].
    cbn [flat_map]. rewrite map_app. rewrite Rlist_sum_app, IH, Rlist_sum_map_mul.
    unfold Rlist_sum. cbn [map fold_right]. ring.
Qed.

(** ** Tensor products of matrices and the scalar product *)

(** X19: In exact arithmetic, for 2x2 matrices A and B and two-entry vectors
    x and y, A.tensorProduct(B) is a 4x4 matrix and applying it to
    ComplexUtils.tensorProduct(x, y) gives
    ComplexUtils.tensorProduct(A.apply(x), B.apply(y)). *)
Theorem QuantumMatrix_tensorProduct_mixed_product
        (a00 a01 a10 a11 b00 b01 b10 b11 x0 x1 y0 y1 : C) :
  let A := QuantumMatrix.new [[a00; a01]; [a10; a11]] in
  let B := QuantumMatrix.new [[b00; b01]; [b10; b11]] in
  exists Ax By,
    QuantumMatrix.apply A [x0; x1] = Ok Ax /\
    QuantumMatrix.apply B [y0; y1] = Ok By /\
    QuantumMatrix.rows (QuantumMatrix.tensorProduct A B) = 4%nat /\
    QuantumMatrix.cols (QuantumMatrix.tensorProduct A B) = 4%nat /\
    QuantumMatrix.apply (QuantumMatrix.tensorProduct A B)
                        (ComplexUtils.tensorProduct [x0; x1] [y0; y1])
    = Ok (ComplexUtils.tensorProduct Ax By).
Proof.
  intros A B. subst A B.
  destruct a00, a01, a10, a11, b00, b01, b10, b11, x0, x1, y0, y1.
  do 2 eexists. split; [reflexivity |]. split; [reflexivity |].
  split; [reflexivity |]. split; [reflexivity |].
  run. f_equal. apply amplitudes4_ext; ring.
Qed.

(** X20: In exact arithmetic, ComplexUtils.dot fails with its dimension
    error when the two vectors differ in length; dot(v, v) is the real
    number sum |v_i|^2; and for vectors of equal length dot(v2, v1) is the
    complex conjugate of dot(v1, v2). *)
Theorem ComplexUtils_dot_spec (vec1 vec2 : list C) :
  (length vec1 <> length vec2 -> ComplexUtils.dot vec1 vec2 = Err DimensionMismatch) /\
  ComplexUtils.dot vec1 vec1 = Ok (Cx (ComplexUtils.sumAbsSquared vec1) 0) /\
  (length vec1 = length vec2 ->
   exists d d',
     ComplexUtils.dot vec1 vec2 = Ok d /\ ComplexUtils.dot vec2 vec1 = Ok d' /\
     d' = Complex.conj d).
Proof.
  unfold ComplexUtils.dot. split; [| split].
  - intros Hne. rewrite (proj2 (Nat.eqb_neq _ _) Hne). reflexivity.
  - rewrite Nat.eqb_refl. cbn [negb]. f_equal.
    rewrite sumAbsSquared_Rsum.
    induction (length vec1) as [|n IH]; [reflexivity |].
    rewrite for_loop_S, IH. cbn [Rsum]. rewrite prob_re_im.
    apply Complex_eq; cbn; ring.
  - intros Hlen. rewrite <- Hlen, !Nat.eqb_refl. cbn [negb].
    do 2 eexists. split; [reflexivity |]. split; [reflexivity |].
    clear Hlen.
    induction (length vec1) as [|n IH]; [apply Complex_eq; cbn; ring |].
    rewrite !for_loop_S, IH. apply Complex_eq; cbn; ring.
Qed.

(** ** The gate matrices are unitary *)

Lemma cos2_sin2 (x : R) : (cos x * cos x + sin x * sin x = 1)%R.
Proof. pose proof (sin2_cos2 x) as H. unfold Rsqr in H. lra. Qed.

Lemma neg_inv_sqrt2 : (-1 / sqrt 2 = - (1 / sqrt 2))%R.
Proof. field. pose proof sqrt2_pos. lra. Qed.

Lemma single_qubit_gate_form (angle : R) (gate : QuantumMatrix.t R) :
  In gate [QuantumGates.I; QuantumGates.X; QuantumGates.Y; QuantumGates.Z;
           QuantumGates.H; QuantumGates.S; QuantumGates.T;
           QuantumGates.RX angle; QuantumGates.RY angle; QuantumGates.RZ angle] ->
  unitary2 (matrixElement gate 0 0) (matrixElement gate 0 1)
           (matrixElement gate 1 0) (matrixElement gate 1 1) /\
  gate = QuantumMatrix.new [[matrixElement gate 0 0; matrixElement gate 0 1];
                            [matrixElement gate 1 0; matrixElement gate 1 1]].
Proof.
  intros Hgate.
  pose proof inv_sqrt2_squared as Hs. pose proof neg_inv_sqrt2 as Hneg.
  pose proof (cos2_sin2 (angle / 2)) as Ha. pose proof (cos2_sin2 (PI / 4)) as Hp.
  pose proof (cos2_sin2 (- angle / 2)) as Hm.
  cbn [In] in Hgate.
  destruct Hgate as [<- | [<- | [<- | [<- | [<- | [<- | [<- | [<- | [<- | [<- | []]]]]]]]]]];
    (split; [| reflexivity]);
    unfold unitary2, matrixElement; cbn;
    repeat split; apply Complex_eq; cbn; rewrite ?Hneg; try ring; nra.
Qed.

Lemma single_qubit_gates_unitary (angle : R) (gate : QuantumMatrix.t R) :
  In gate [QuantumGates.I; QuantumGates.X; QuantumGates.Y; QuantumGates.Z;
           QuantumGates.H; QuantumGates.S; QuantumGates.T;
           QuantumGates.RX angle; QuantumGates.RY angle; QuantumGates.RZ angle] ->
  unitary2 (matrixElement gate 0 0) (matrixElement gate 0 1)
           (matrixElement gate 1 0) (matrixElement gate 1 1) /\
  forall (r r' : RRegister) (q : Z),
    QuantumRegister.wf r ->
    QuantumRegister.applySingleQubitGate gate q r = (Ok tt, r') ->
    ComplexUtils.sumAbsSquared (QuantumRegister.amplitudes r')
    = ComplexUtils.sumAbsSquared (QuantumRegister.amplitudes r).
Proof.
  intros Hgate. destruct (single_qubit_gate_form angle gate Hgate) as (HU & Hform).
  split; [exact HU |].
  intros r r' q Hwf Hrun. rewrite Hform in Hrun.
  exact (applySingleQubitGate_norm r r' _ _ _ _ q Hwf HU Hrun).
Qed.

Lemma CH_unitary : unitary4 (matrixElement QuantumGates.CH).
Proof.
  pose proof inv_sqrt2_squared as Hs. pose proof neg_inv_sqrt2 as Hneg.
  intros j j' Hj Hj'.
  destruct j as [|[|[|[|j]]]]; try lia;
    destruct j' as [|[|[|[|j']]]]; try lia;
    apply Complex_eq; cbn; rewrite ?Hneg; try ring; nra.
Qed.

Lemma two_qubit_gates_unitary (gate : QuantumMatrix.t R) :
  In gate [QuantumGates.CNOT; QuantumGates.CZ; QuantumGates.SWAP; QuantumGates.CH] ->
  unitary4 (matrixElement gate) /\
  forall (r r' : RRegister) (c t : Z),
    QuantumRegister.wf r ->
    QuantumRegister.applyTwoQubitGate gate c t r = (Ok tt, r') ->
    ComplexUtils.sumAbsSquared (QuantumRegister.amplitudes r')
    = ComplexUtils.sumAbsSquared (QuantumRegister.amplitudes r).
Proof.
  intros Hgate.
  assert (HU : unitary4 (matrixElement gate)).
  { cbn [In] in Hgate. destruct Hgate as [<- | [<- | [<- | [<- | []]]]];
      [apply CNOT_unitary | apply CZ_unitary | apply SWAP_unitary | apply CH_unitary]. }
  split; [exact HU |]. intros r r' c t Hwf Hrun.
  exact (applyTwoQubitGate_norm r r' gate c t Hwf HU Hrun).
Qed.

(** X21: In exact arithmetic, every matrix QuantumGates builds is unitary:
    the 2x2 matrices I, X, Y, Z, H, S, T, RX(angle), RY(angle), RZ(angle)
    for every angle, and the 4x4 matrices CNOT, CZ, SWAP and CH. So
    applySingleQubitGate and applyTwoQubitGate with them, whenever they
    succeed on a well-formed register, leave the sum of squared magnitudes
    unchanged. *)
Theorem gate_matrices_are_unitary (angle : R) :
  (forall gate : QuantumMatrix.t R,
     In gate [QuantumGates.I; QuantumGates.X; QuantumGates.Y; QuantumGates.Z;
              QuantumGates.H; QuantumGates.S; QuantumGates.T;
              QuantumGates.RX angle; QuantumGates.RY angle; QuantumGates.RZ angle] ->
     unitary2 (matrixElement gate 0 0) (matrixElement gate 0 1)
              (matrixElement gate 1 0) (matrixElement gate 1 1) /\
     forall (r r' : RRegister) (q : Z),
       QuantumRegister.wf r ->
       QuantumRegister.applySingleQubitGate gate q r = (Ok tt, r') ->
       ComplexUtils.sumAbsSquared (QuantumRegister.amplitudes r')
       = ComplexUtils.sumAbsSquared (QuantumRegister.amplitudes r)) /\
  (forall gate : QuantumMatrix.t R,
     In gate [QuantumGates.CNOT; QuantumGates.CZ; QuantumGates.SWAP; QuantumGates.CH] ->
     unitary4 (matrixElement gate) /\
     forall (r r' : RRegister) (c t : Z),
       QuantumRegister.wf r ->
       QuantumRegister.applyTwoQubitGate gate c t r = (Ok tt, r') ->
       ComplexUtils.sumAbsSquared (QuantumRegister.amplitudes r')
       = ComplexUtils.sumAbsSquared (QuantumRegister.amplitudes r)).
Proof.
  split; [apply single_qubit_gates_unitary | apply two_qubit_gates_unitary].
Qed.

(** ** Gates on a lone qubit state *)

Lemma apply_2x2 (m00 m01 m10 m11 a b : C) :
  QuantumMatrix.apply (QuantumMatrix.new [[m00; m01]; [m10; m11]]) [a; b]
  = Ok [Complex.add (Complex.mul m00 a) (Complex.mul m01 b);
        Complex.add (Complex.mul m10 a) (Complex.mul m11 b)].
Proof.
  unfold QuantumMatrix.apply. cbn [QuantumMatrix.new QuantumMatrix.cols QuantumMatrix.rows
    QuantumMatrix.elements length Nat.eqb negb].
  f_equal. unfold for_loop. cbn [seq fold_left app lookup_total list_lookup_total].
  f_equal; [| f_equal]; rewrite Cadd_0_l; reflexivity.
Qed.

(* a unitary gate on a normalized lone state: the constructor does not rescale *)
Lemma lone_gate_exact (m00 m01 m10 m11 a b : C) :
  unitary2 m00 m01 m10 m11 -> (prob a + prob b = 1)%R ->
  QuantumGates.applySingleQubitGate (QuantumState.Build a b)
    (QuantumMatrix.new [[m00; m01]; [m10; m11]])
  = Ok (QuantumState.Build (Complex.add (Complex.mul m00 a) (Complex.mul m01 b))
                           (Complex.add (Complex.mul m10 a) (Complex.mul m11 b))).
Proof.
  intros HU Hn. unfold QuantumGates.applySingleQubitGate.
  cbn [QuantumState.alpha QuantumState.beta]. rewrite apply_2x2.
  cbn [lookup_total list_lookup_total]. f_equal.
  apply QuantumState_new_normalized_id.
  rewrite (unitary2_isometry m00 m01 m10 m11 a b HU). exact Hn.
Qed.

Lemma cos_sin_PI4 : cos (PI / 4) = (1 / sqrt 2)%R /\ sin (PI / 4) = (1 / sqrt 2)%R.
Proof. split; [apply cos_PI4 | apply sin_PI4]. Qed.

(** X22: In exact arithmetic, on a lone qubit state with |alpha|^2 +
    |beta|^2 = 1 the helpers pauliX, pauliY, pauliZ and hadamard succeed and
    applying the same one twice gives back the state (pauliX exchanging
    alpha and beta); sGate applied twice gives what pauliZ gives, and tGate
    applied twice gives what sGate gives. *)
Theorem lone_qubit_gates_compose (s : QuantumState.t R) :
  (QuantumState.getProbability0 s + QuantumState.getProbability1 s = 1)%R ->
  (exists s1, QuantumGates.pauliX s = Ok s1 /\ QuantumGates.pauliX s1 = Ok s /\
              QuantumState.alpha s1 = QuantumState.beta s /\
              QuantumState.beta s1 = QuantumState.alpha s) /\
  (exists s1, QuantumGates.pauliY s = Ok s1 /\ QuantumGates.pauliY s1 = Ok s) /\
  (exists s1, QuantumGates.pauliZ s = Ok s1 /\ QuantumGates.pauliZ s1 = Ok s) /\
  (exists s1, QuantumGates.hadamard s = Ok s1 /\ QuantumGates.hadamard s1 = Ok s) /\
  (exists s1, QuantumGates.sGate s = Ok s1 /\ QuantumGates.sGate s1 = QuantumGates.pauliZ s) /\
  (exists s1, QuantumGates.tGate s = Ok s1 /\ QuantumGates.tGate s1 = QuantumGates.sGate s).
Proof.
  destruct s as [a b]. intros Hn.
  destruct (state_probabilities a b) as [E0 E1]. rewrite E0, E1 in Hn.
  pose proof inv_sqrt2_squared as Hs. pose proof neg_inv_sqrt2 as Hneg.
  destruct cos_sin_PI4 as [Hc Hsn].
  assert (HU : forall gate, In gate [QuantumGates.X; QuantumGates.Y; QuantumGates.Z;
                                     QuantumGates.H; QuantumGates.S; QuantumGates.T] ->
             unitary2 (matrixElement gate 0 0) (matrixElement gate 0 1)
                      (matrixElement gate 1 0) (matrixElement gate 1 1)).
  { intros gate Hg. apply (single_qubit_gate_form 0 gate).
    cbn [In] in *. tauto. }
  assert (Hstep : forall gate x y, 
             In gate [QuantumGates.X; QuantumGates.Y; QuantumGates.Z;
                      QuantumGates.H; QuantumGates.S; QuantumGates.T] ->
             (prob x + prob y = 1)%R ->
             QuantumGates.applySingleQubitGate (QuantumState.Build x y) gate
             = Ok (QuantumState.Build
                     (Complex.add (Complex.mul (matrixElement gate 0 0) x)
                                  (Complex.mul (matrixElement gate 0 1) y))
                     (Complex.add (Complex.mul (matrixElement gate 1 0) x)
                                  (Complex.mul (matrixElement gate 1 1) y))) /\
             (prob (Complex.add (Complex.mul (matrixElement gate 0 0) x)
                                (Complex.mul (matrixElement gate 0 1) y)) +
              prob (Complex.add (Complex.mul (matrixElement gate 1 0) x)
                                (Complex.mul (matrixElement gate 1 1) y)) = 1)%R).
  { intros gate x y Hg Hxy. pose proof (HU gate Hg) as HUg. split.
    - rewrite <- (lone_gate_exact _ _ _ _ x y HUg Hxy). f_equal.
      cbn [In] in Hg. destruct Hg as [<- | [<- | [<- | [<- | [<- | [<- | []]]]]]]; reflexivity.
    - rewrite (unitary2_isometry _ _ _ _ x y HUg). exact Hxy. }
  set (h := (1 / sqrt 2)%R) in *.
  assert (H2 : (h ^ 2 = 1 / 2)%R) by (rewrite <- Hs; ring).
  unfold QuantumGates.pauliX, QuantumGates.pauliY, QuantumGates.pauliZ,
    QuantumGates.hadamard, QuantumGates.sGate, QuantumGates.tGate.
  repeat split.
  - destruct (Hstep QuantumGates.X a b ltac:(cbn; tauto) Hn) as [E Hn1].
    eexists. split; [exact E |].
    destruct (Hstep QuantumGates.X _ _ ltac:(cbn; tauto) Hn1) as [E' _].
    split; [| split].
    + rewrite E'. do 2 f_equal; apply Complex_eq; cbn; ring.
    + apply Complex_eq; cbn; ring.
    + apply Complex_eq; cbn; ring.
  - destruct (Hstep QuantumGates.Y a b ltac:(cbn; tauto) Hn) as [E Hn1].
    eexists. split; [exact E |].
    destruct (Hstep QuantumGates.Y _ _ ltac:(cbn; tauto) Hn1) as [E' _].
    rewrite E'. do 2 f_equal; apply Complex_eq; cbn; ring.
  - destruct (Hstep QuantumGates.Z a b ltac:(cbn; tauto) Hn) as [E Hn1].
    eexists. split; [exact E |].
    destruct (Hstep QuantumGates.Z _ _ ltac:(cbn; tauto) Hn1) as [E' _].
    rewrite E'. do 2 f_equal; apply Complex_eq; cbn; ring.
  - destruct (Hstep QuantumGates.H a b ltac:(cbn; tauto) Hn) as [E Hn1].
    eexists. split; [exact E |].
    destruct (Hstep QuantumGates.H _ _ ltac:(cbn; tauto) Hn1) as [E' _].
    rewrite E'. do 2 f_equal; apply Complex_eq; cbn; fold h; rewrite ?Hneg;
      ring_simplify; rewrite ?H2; lra.
  - destruct (Hstep QuantumGates.S a b ltac:(cbn; tauto) Hn) as [E Hn1].
    eexists. split; [exact E |].
    destruct (Hstep QuantumGates.S _ _ ltac:(cbn; tauto) Hn1) as [E' _].
    destruct (Hstep QuantumGates.Z a b ltac:(cbn; tauto) Hn) as [EZ _].
    rewrite E', EZ. do 2 f_equal; apply Complex_eq; cbn; ring.
  - destruct (Hstep QuantumGates.T a b ltac:(cbn; tauto) Hn) as [E Hn1].
    eexists. split; [exact E |].
    destruct (Hstep QuantumGates.T _ _ ltac:(cbn; tauto) Hn1) as [E' _].
    destruct (Hstep QuantumGates.S a b ltac:(cbn; tauto) Hn) as [ES _].
    rewrite E', ES. do 2 f_equal; apply Complex_eq; cbn; rewrite ?Hc, ?Hsn;
      ring_simplify; rewrite ?H2; lra.
Qed.

(** ** Bell states from the circuit *)

Lemma applyTwoQubitGate_CNOT_0_1_reg2 (a0 a1 a2 a3 : R) :
  QuantumRegister.applyTwoQubitGate QuantumGates.CNOT 0 1 (reg2 a0 a1 a2 a3)
  = (Ok tt, reg2 a0 a3 a2 a1).
Proof. run. do 2 f_equal. apply amplitudes4_ext; ring. Qed.

Lemma ln_half : (ln (1 / 2) / ln 2 = -1)%R.
Proof.
  replace (1 / 2)%R with (/ 2)%R by lra. rewrite ln_Rinv by lra.
  field. pose proof ln_lt_2. lra.
Qed.

Lemma getEntanglementMeasure_reg2 (a0 a1 a2 a3 : R) :
  let term (a : R) := if Rltb (1 / 10 ^ 15) (a * a)
                      then (- (a * a * (ln (a * a) / ln 2)))%R else 0%R in
  QuantumRegister.getEntanglementMeasure (reg2 a0 a1 a2 a3)
  = Rmin (term a0 + term a1 + term a2 + term a3) 1.
Proof.
  intros term. unfold QuantumRegister.getEntanglementMeasure, QuantumRegister.getEntropy,
    QuantumRegister.getAllProbabilities.
  cbn [QuantumRegister.numQubits QuantumRegister.amplitudes Nat.eqb map fold_left].
  cbv zeta. real_ops. cbn [nmin nlog2 Real_Math].
  fold (prob (Cx a0 0)) (prob (Cx a1 0)) (prob (Cx a2 0)) (prob (Cx a3 0)).
  rewrite !prob_real. f_equal. subst term. cbv beta.
  destruct (Rltb _ (a0 * a0)), (Rltb _ (a1 * a1)), (Rltb _ (a2 * a2)), (Rltb _ (a3 * a3));
    ring.
Qed.

Lemma entropy_term_zero :
  (if Rltb (1 / 10 ^ 15) (0 * 0) then (- (0 * 0 * (ln (0 * 0) / ln 2)))%R else 0%R) = 0%R.
Proof. pose proof tiny_pos. rewrite Rltb_false by lra. reflexivity. Qed.

Lemma half_not_tiny : (1 / 10 ^ 15 < 1 / 2)%R.
Proof.
  assert (H : (2 < 10 ^ 15)%R) by (cbn [pow]; lra).
  apply (Rmult_lt_reg_r (10 ^ 15)); [lra |].
  unfold Rdiv at 1. rewrite Rmult_assoc, Rinv_l by lra. lra.
Qed.

Lemma entropy_term_half (a : R) :
  (a * a = 1 / 2)%R ->
  (if Rltb (1 / 10 ^ 15) (a * a) then (- (a * a * (ln (a * a) / ln 2)))%R else 0%R)
  = (1 / 2)%R.
Proof.
  intros ->. rewrite Rltb_true by apply half_not_tiny. rewrite ln_half. lra.
Qed.

Ltac sym_bell :=
  cbv -[Rplus Rmult Rminus Ropp Rdiv Rinv IZR sqrt Rabs Rltb Rlt_dec pow
        QuantumRegister.applySingleQubitGate QuantumRegister.applyTwoQubitGate
        QuantumRegister.getEntanglementMeasure QuantumRegister.getAllProbabilities
        toLowerCase String.eqb ln Rmin];
  fold Real_Num.

Lemma getAllProbabilities_reg2 (a0 a1 a2 a3 : R) :
  QuantumRegister.getAllProbabilities (reg2 a0 a1 a2 a3)
  = [(a0 * a0)%R; (a1 * a1)%R; (a2 * a2)%R; (a3 * a3)%R].
Proof.
  unfold QuantumRegister.getAllProbabilities. cbn [QuantumRegister.amplitudes map].
  cbv zeta. real_ops.
  fold (prob (Cx a0 0)) (prob (Cx a1 0)) (prob (Cx a2 0)) (prob (Cx a3 0)).
  rewrite !prob_real. reflexivity.
Qed.

Lemma entanglement_of_bell (a0 a1 a2 a3 : R) :
  ((a0 * a0 = 1 / 2 /\ a1 = 0 /\ a2 = 0 /\ a3 * a3 = 1 / 2) \/
   (a0 = 0 /\ a1 * a1 = 1 / 2 /\ a2 * a2 = 1 / 2 /\ a3 = 0))%R ->
  QuantumRegister.getEntanglementMeasure (reg2 a0 a1 a2 a3) = 1%R.
Proof.
  intros H. rewrite getEntanglementMeasure_reg2. cbv zeta.
  destruct H as [(H0 & -> & -> & H3) | (-> & H1 & H2 & ->)];
    rewrite !entropy_term_zero, !entropy_term_half by assumption;
    replace (1 / 2 + 0 + 0 + 1 / 2)%R with 1%R by lra;
    replace (0 + 1 / 2 + 1 / 2 + 0)%R with 1%R by lra;
    apply Rmin_left; lra.
Qed.

(** X23: In exact arithmetic, createBellState(bellType) succeeds for every
    string; comparing the lower-cased bellType, it ends in (|00> -
    |11>)/sqrt 2 for 'phi-', (|01> + |10>)/sqrt 2 for 'psi+', (-|01> +
    |10>)/sqrt 2 for 'psi-' and (|00> + |11>)/sqrt 2 for anything else, with
    probabilities 1/2 on the two basis states involved, entanglement measure
    exactly 1, isMaximallyEntangled true, and 4 recorded steps for the three
    named types and 3 otherwise. *)
Theorem createBellState_spec (bellType : string) :
  let kind := toLowerCase bellType in
  let h := (1 / sqrt 2)%R in
  exists res,
    QuantumAlgorithms.createBellState bellType = Ok res /\
    BellResult.bellType res = kind /\
    BellResult.finalState res
    = (if String.eqb kind "phi-" then [Cx h 0; Cx 0 0; Cx 0 0; Cx (- h) 0]
       else if String.eqb kind "psi+" then [Cx 0 0; Cx h 0; Cx h 0; Cx 0 0]
       else if String.eqb kind "psi-" then [Cx 0 0; Cx (- h) 0; Cx h 0; Cx 0 0]
       else [Cx h 0; Cx 0 0; Cx 0 0; Cx h 0]) /\
    BellResult.probabilities res
    = (if String.eqb kind "psi+" || String.eqb kind "psi-"
       then [0; 1 / 2; 1 / 2; 0] else [1 / 2; 0; 0; 1 / 2])%R /\
    BellResult.entanglement res = 1%R /\
    BellResult.isMaximallyEntangled res = true /\
    length (BellResult.steps res)
    = (if String.eqb kind "phi-" || String.eqb kind "psi+" || String.eqb kind "psi-"
       then 4 else 3)%nat.
Proof.
  intros kind h.
  pose proof inv_sqrt2_squared as Hs. fold h in Hs.
  assert (Hneg : (-1 / sqrt 2 = - h)%R) by apply neg_inv_sqrt2.
  assert (Hlit : Rltb (95 / 100) 1 = true) by (apply Rltb_true; lra).
  unfold QuantumAlgorithms.createBellState. rewrite new_2.
  sym_bell. fold h. rewrite ?Hneg.
  rewrite apply_gate2_qubit0
    with (b0 := h) (b1 := h) (b2 := 0%R) (b3 := 0%R) by lra.
  sym_bell. fold h. rewrite applyTwoQubitGate_CNOT_0_1_reg2.
  sym_bell. fold h. fold kind.
  destruct (String.eqb kind "phi-") eqn:E1;
    [| destruct (String.eqb kind "psi+") eqn:E2;
       [| destruct (String.eqb kind "psi-") eqn:E3]].
  - assert (E2 : String.eqb kind "psi+" = false)
      by (apply String.eqb_eq in E1; rewrite E1; reflexivity).
    assert (E3 : String.eqb kind "psi-" = false)
      by (apply String.eqb_eq in E1; rewrite E1; reflexivity).
    rewrite ?E2, ?E3.
    rewrite apply_gate2_qubit0
      with (b0 := h) (b1 := 0%R) (b2 := 0%R) (b3 := (- h)%R) by lra.
    sym_bell. fold h. rewrite getAllProbabilities_reg2.
    rewrite entanglement_of_bell by (left; repeat split; lra).
    rewrite Hlit. eexists. split; [reflexivity |]. cbn.
    repeat split; try reflexivity. f_equal; [| f_equal; [| f_equal; [| f_equal]]]; lra.
  - assert (E3 : String.eqb kind "psi-" = false)
      by (apply String.eqb_eq in E2; rewrite E2; reflexivity).
    rewrite ?E3.
    rewrite apply_gate2_qubit1
      with (b0 := 0%R) (b1 := h) (b2 := h) (b3 := 0%R) by lra.
    sym_bell. fold h. rewrite getAllProbabilities_reg2.
    rewrite entanglement_of_bell by (right; repeat split; lra).
    rewrite Hlit. eexists. split; [reflexivity |]. cbn.
    repeat split; try reflexivity. f_equal; [| f_equal; [| f_equal; [| f_equal]]]; lra.
  - rewrite apply_gate2_qubit0
      with (b0 := h) (b1 := 0%R) (b2 := 0%R) (b3 := (- h)%R) by lra.
    sym_bell. fold h. rewrite apply_gate2_qubit1
      with (b0 := 0%R) (b1 := (- h)%R) (b2 := h) (b3 := 0%R) by lra.
    sym_bell. fold h. rewrite getAllProbabilities_reg2.
    rewrite entanglement_of_bell by (right; repeat split; lra).
    rewrite Hlit. eexists. split; [reflexivity |]. cbn.
    repeat split; try reflexivity. f_equal; [| f_equal; [| f_equal; [| f_equal]]]; lra.
  - rewrite getAllProbabilities_reg2.
    rewrite entanglement_of_bell by (left; repeat split; lra).
    rewrite Hlit. eexists. split; [reflexivity |]. cbn.
    repeat split; try reflexivity. f_equal; [| f_equal; [| f_equal; [| f_equal]]]; lra.
Qed.

(** ** quantumAddition *)

Ltac sym_addition :=
  cbv -[Rplus Rmult Rminus Ropp Rdiv Rinv IZR sqrt Rabs Rltb Rlt_dec pow
        QuantumRegister.measureAll];
  fold Real_Num.

Ltac prob_of_entry :=
  cbn [QuantumRegister.amplitudes lookup_total list_lookup_total];
  rewrite prob_re_im; cbn [Complex.re Complex.im]; lra.

Ltac addition_case random Hr k :=
  sym_addition;
  rewrite (measureAll_certain _ random k);
  [ sym_addition; eexists; split; [reflexivity |];
    cbn [AdditionResult.steps AdditionResult.finalState AdditionResult.carry
         AdditionResult.sum AdditionResult.decimal];
    split;
    [ eexists _, _, _; split; [reflexivity |];
      cbn [Step.state]; split; [| reflexivity];
      repeat (apply f_equal2; [apply Complex_eq; cbn [Complex.re Complex.im]; lra |]);
      reflexivity
    | split; [reflexivity |];
      split;
      [ let j := fresh "j" in let Hj := fresh "Hj" in
        intros j Hj; do 8 (destruct j as [|j]; [reflexivity |]); lia
      | repeat split; reflexivity ] ]
  | unfold QuantumRegister.wf; cbn; repeat split; lia
  | exact Hr
  | cbn; lia
  | prob_of_entry
  | let j := fresh "j" in let Hj := fresh "Hj" in let Hne := fresh "Hne" in
    intros j Hj Hne; cbn [QuantumRegister.dimension] in Hj;
    do 8 (destruct j as [|j]; [try lia; prob_of_entry |]); lia ].

(** X24: In exact arithmetic, quantumAddition(a, b) for bits a, b in {0, 1}
    and any sample of Math.random() in [0, 1) succeeds with three recorded
    steps and carry = a * b. The state recorded at step 2, after the CNOT
    and before the measurement, is the basis state of index k = a + 2 (a XOR
    b), that is qubit 0 = a, qubit 1 = a XOR b, qubit 2 = 0. The final
    state, recorded after measureAll, has amplitude 1 at index k and also at
    index 0 and 0 elsewhere, so it is that basis state only for a = b = 0.
    The reported sum is undefined and decimal is NaN, because sum is read as
    property 1 of the number measureAll returned. For an integer a or b
    outside {0, 1} the call fails with its parameter error. *)
Theorem quantumAddition_spec (a b : Z) (random : R) :
  ((0 <= a <= 1)%Z -> (0 <= b <= 1)%Z -> (0 <= random < 1)%R ->
   let k := Z.to_nat (a + 2 * ((a + b) mod 2)) in
   exists res,
     QuantumAlgorithms.quantumAddition a b random = Ok res /\
     (exists step1 step2 step3,
        AdditionResult.steps res = [step1; step2; step3] /\
        Step.state step2 = <[k := Complex.ONE]> (replicate 8 Complex.ZERO) /\
        Step.state step3 = AdditionResult.finalState res) /\
     length (AdditionResult.finalState res) = 8%nat /\
     (forall j, (j < 8)%nat ->
        AdditionResult.finalState res !!! j
        = if (j =? k)%nat || (j =? 0)%nat then Complex.ONE else Complex.ZERO) /\
     AdditionResult.carry res = (a * b)%Z /\
     AdditionResult.sum res = None /\
     AdditionResult.decimal res = None) /\
  ((a < 0 \/ 1 < a \/ b < 0 \/ 1 < b)%Z ->
   QuantumAlgorithms.quantumAddition a b random = Err InvalidAlgorithmParameter).
Proof.
  split.
  - intros Ha Hb Hr.
    assert (H : (a = 0 \/ a = 1)%Z) by lia. assert (H' : (b = 0 \/ b = 1)%Z) by lia.
    unfold QuantumAlgorithms.quantumAddition.
    destruct H as [-> | ->], H' as [-> | ->]; cbv zeta.
    + addition_case random Hr 0%nat.
    + addition_case random Hr 2%nat.
    + addition_case random Hr 3%nat.
    + addition_case random Hr 1%nat.
  - intros H. unfold QuantumAlgorithms.quantumAddition.
    replace ((a <? 0)%Z || (1 <? a)%Z || (b <? 0)%Z || (1 <? b)%Z) with true; [reflexivity |].
    symmetry. rewrite !orb_true_iff, !Z.ltb_lt. tauto.
Qed.

(** ** The tape *)

Lemma clone_normalized (s : QuantumState.t R) : normalized (QuantumState.clone s).
Proof. apply QuantumState_new_sum_one. Qed.

Lemma zero_normalized : normalized QuantumState.zero.
Proof. apply QuantumState_new_sum_one. Qed.

Lemma clone_of_normalized (s : QuantumState.t R) :
  normalized s -> QuantumState.clone s = s.
Proof. apply QuantumState_clone_normalized. Qed.

Section Arrays.
Context {A : Type}.
Implicit Types (array : list (option A)) (a : A).

Lemma array_get_set_same i a array : array_get i (array_set i a array) = Some a.
Proof.
  unfold array_get, array_set.
  destruct (Nat.ltb_spec i (length array)) as [H | H].
  - rewrite list_lookup_insert_eq by exact H. reflexivity.
  - rewrite lookup_app_r by exact H.
    rewrite lookup_app_r by (rewrite length_replicate; lia).
    rewrite length_replicate.
    replace (i - length array - (i - length array))%nat with 0%nat by lia.
    reflexivity.
Qed.

Lemma array_get_set_other i j a array :
  i <> j -> array_get j (array_set i a array) = array_get j array.
Proof.
  intros Hne. unfold array_get, array_set.
  destruct (Nat.ltb_spec i (length array)) as [H | H].
  - rewrite list_lookup_insert_ne by exact Hne. reflexivity.
  - destruct (Nat.lt_ge_cases j (length array)) as [Hj | Hj].
    + rewrite lookup_app_l by exact Hj. reflexivity.
    + rewrite lookup_app_r by exact Hj.
      rewrite (lookup_ge_None_2 array j) by exact Hj.
      destruct (Nat.lt_ge_cases (j - length array) (i - length array)) as [Hj' | Hj'].
      * rewrite lookup_app_l by (rewrite length_replicate; exact Hj').
        rewrite lookup_replicate_2 by exact Hj'. reflexivity.
      * rewrite lookup_app_r by (rewrite length_replicate; exact Hj').
        rewrite length_replicate.
        destruct (j - length array - (i - length array))%nat as [|k] eqn:E; [lia |].
        reflexivity.
Qed.

Lemma array_set_in_range i a array :
  (i < length array)%nat -> array_set i a array = <[i := Some a]> array.
Proof.
  intros H. unfold array_set.
  destruct (Nat.ltb_spec i (length array)); [reflexivity | lia].
Qed.

End Arrays.

Lemma slice_last {A} (n : nat) (array : list A) :
  (0 < n)%nat -> slice (- Z.of_nat n) array = drop (length array - n) array.
Proof.
  intros Hn. unfold slice.
  destruct (Z.ltb_spec (- Z.of_nat n) 0) as [_ | H]; [| lia].
  f_equal. lia.
Qed.

Lemma slice_0 {A} (array : list A) : slice 0 array = array.
Proof. unfold slice. cbn [Z.ltb Z.compare]. rewrite Z.min_l by lia. reflexivity. Qed.

Lemma addToHistory_bounded {F} {N : JsNum F} {M : JsMath F} timestamp operation
    position state metadata (tape : QuantumTape.t F) :
  exists history,
    QuantumTape.addToHistory timestamp operation position state metadata tape
    = (Ok tt, QuantumTape.set_operationHistory history tape) /\
    ((length (QuantumTape.operationHistory tape) <= 1000)%nat ->
     (length history <= 1000)%nat).
Proof.
  unfold QuantumTape.addToHistory. cbv zeta. eexists. split; [reflexivity |].
  intros H.
  match goal with |- context [(1000 <? length ?l)%nat] =>
    destruct (Nat.ltb_spec 1000 (length l)) as [Hl | Hl]; [| exact Hl] end.
  change (-500)%Z with (- Z.of_nat 500)%Z. rewrite slice_last by lia.
  rewrite length_drop. lia.
Qed.

Lemma invariant_set_history (tape : QuantumTape.t R) history :
  tape_invariant tape -> (length history <= 1000)%nat ->
  tape_invariant (QuantumTape.set_operationHistory history tape).
Proof.
  intros (Hs & Hl & Hc & Hh & _) H. repeat split; try assumption; apply Hs || apply Hh.
Qed.

Lemma invariant_addToHistory timestamp operation position state metadata
    (tape : QuantumTape.t R) :
  tape_invariant tape ->
  exists tape',
    QuantumTape.addToHistory timestamp operation position state metadata tape
    = (Ok tt, tape') /\
    tape_invariant tape' /\
    QuantumTape.size tape' = QuantumTape.size tape /\
    QuantumTape.headPosition tape' = QuantumTape.headPosition tape /\
    QuantumTape.cells tape' = QuantumTape.cells tape.
Proof.
  intros Hinv.
  destruct (addToHistory_bounded timestamp operation position state metadata tape)
    as (history & -> & Hlen).
  eexists. split; [reflexivity |]. split; [| repeat split].
  apply invariant_set_history; [exact Hinv |]. apply Hlen, Hinv.
Qed.

Lemma invariant_set_cell (tape : QuantumTape.t R) (position : Z) (s : QuantumState.t R) :
  tape_invariant tape -> (0 <= position < QuantumTape.size tape)%Z -> normalized s ->
  tape_invariant
    (QuantumTape.set_cells (array_set (Z.to_nat position) s (QuantumTape.cells tape)) tape).
Proof.
  intros (Hs & Hl & Hc & Hh & Hlog) Hp Hn.
  rewrite array_set_in_range by lia.
  repeat split; try assumption; try apply Hs; try apply Hh.
  - cbn. rewrite length_insert. exact Hl.
  - cbn. apply Forall_insert; [exact Hc |]. exists s. split; [reflexivity | exact Hn].
Qed.

Lemma invariant_setState timestamp position state (tape : QuantumTape.t R) :
  tape_invariant tape ->
  exists tape',
    QuantumTape.setState timestamp position state tape = (Ok tt, tape') /\
    tape_invariant tape' /\
    QuantumTape.size tape' = QuantumTape.size tape /\
    QuantumTape.headPosition tape' = QuantumTape.headPosition tape.
Proof.
  intros Hinv. unfold QuantumTape.setState.
  destruct (Z.leb_spec 0 position) as [H0 | H0];
    [destruct (Z.ltb_spec position (QuantumTape.size tape)) as [H1 | H1] |]; cbn [andb].
  - destruct (invariant_addToHistory timestamp "setState" position (Some state)
                HistoryEntry.no_metadata _
                (invariant_set_cell tape position (QuantumState.clone state) Hinv
                   (conj H0 H1) (clone_normalized state)))
      as (tape' & E & Hinv' & Hs & Hh & _).
    exists tape'. split; [exact E |]. split; [exact Hinv' |]. split; [exact Hs | exact Hh].
  - exists tape. split; [reflexivity |]. split; [exact Hinv |]. split; reflexivity.
  - exists tape. split; [reflexivity |]. split; [exact Hinv |]. split; reflexivity.
Qed.

Lemma invariant_getState position (tape : QuantumTape.t R) :
  tape_invariant tape ->
  exists s, QuantumTape.getState position tape = (Ok s, tape) /\ normalized s.
Proof.
  intros (Hs & Hl & Hc & Hh & Hlog). unfold QuantumTape.getState.
  destruct (Z.ltb_spec position 0) as [H0 | H0]; cbn [orb].
  { exists QuantumState.zero. split; [reflexivity | apply zero_normalized]. }
  destruct (Z.leb_spec (QuantumTape.size tape) position) as [H1 | H1].
  { exists QuantumState.zero. split; [reflexivity | apply zero_normalized]. }
  unfold array_get.
  destruct (lookup_lt_is_Some_2 (QuantumTape.cells tape) (Z.to_nat position)) as [cell E];
    [lia |].
  rewrite E. rewrite Forall_lookup in Hc. destruct (Hc _ _ E) as (s & -> & Hn).
  exists (QuantumState.clone s). split; [reflexivity | apply clone_normalized].
Qed.

(* one step of a method: run the first call with its lemma *)
Ltac step_with L :=
  unfold bind at 1;
  let tape' := fresh "tape" in
  let E := fresh "E" in
  let Hinv' := fresh "Hinv" in
  let Hs := fresh "Hsize" in
  let Hh := fresh "Hhead" in
  destruct L as (tape' & E & Hinv' & Hs & Hh); rewrite E; clear E.

Lemma invariant_measureAll_loop (randoms : nat -> R) (timestamps : nat -> Z)
    (l : list nat) (results : list nat) (tape : QuantumTape.t R) :
  tape_invariant tape ->
  exists results' tape',
    for_each l
      (fun i results =>
         bind (QuantumTape.getState (Z.of_nat i)) (fun state =>
         bind (QuantumTape.setState (timestamps i) (Z.of_nat i)
                 (snd (QuantumState.measure (randoms i) state)))
              (fun _ => ret (results ++ [fst (QuantumState.measure (randoms i) state)]))))
      results tape = (Ok results', tape') /\
    tape_invariant tape' /\
    QuantumTape.size tape' = QuantumTape.size tape /\
    QuantumTape.headPosition tape' = QuantumTape.headPosition tape.
Proof.
  revert results tape. induction l as [|i l IH]; intros results tape Hinv.
  - exists results, tape. split; [reflexivity |]. split; [exact Hinv |]. split; reflexivity.
  - cbn [for_each]. unfold bind at 1 2.
    destruct (invariant_getState (Z.of_nat i) tape Hinv) as (s & -> & _).
    unfold bind at 1.
    destruct (invariant_setState (timestamps i) (Z.of_nat i)
                (snd (QuantumState.measure (randoms i) s)) tape Hinv)
      as (tape1 & -> & Hinv1 & Hs1 & Hh1).
    unfold ret at 1.
    destruct (IH (results ++ [fst (QuantumState.measure (randoms i) s)]) tape1 Hinv1)
      as (results' & tape' & E & Hinv' & Hs & Hh).
    exists results', tape'. split; [exact E |]. split; [exact Hinv' |]. split; congruence.
Qed.

Lemma invariant_initializeTape (tape : QuantumTape.t R) :
  (1 <= QuantumTape.size tape <= 100)%Z ->
  (length (QuantumTape.operationHistory tape) <= 1000)%nat ->
  exists tape',
    QuantumTape.initializeTape tape = (Ok tt, tape') /\
    tape_invariant tape' /\
    QuantumTape.size tape' = QuantumTape.size tape /\
    QuantumTape.type tape' = QuantumTape.type tape /\
    QuantumTape.cells tape'
    = replicate (Z.to_nat (QuantumTape.size tape)) (Some QuantumState.zero) /\
    QuantumTape.headPosition tape' = (QuantumTape.size tape / 2)%Z /\
    QuantumTape.operationHistory tape' = QuantumTape.operationHistory tape.
Proof.
  intros Hs Hlog. unfold QuantumTape.initializeTape. eexists. split; [reflexivity |].
  assert (Hcells : forall n,
             for_loop n (fun _ cells => cells ++ [Some (QuantumState.zero (F := R))]) []
             = replicate n (Some QuantumState.zero)).
  { intros n. unfold for_loop. induction n as [|n IH]; [reflexivity |].
    rewrite seq_S, fold_left_app, IH. cbn [fold_left]. rewrite replicate_S_end.
    reflexivity. }
  cbv zeta. rewrite Hcells.
  split; [| repeat split].
  repeat split; cbn; try lia.
  - rewrite length_replicate. reflexivity.
  - apply Forall_replicate. eexists. split; [reflexivity | apply zero_normalized].
  - apply Z.div_pos; lia.
  - apply Z.div_lt_upper_bound; lia.
Qed.

Lemma invariant_set_head (tape : QuantumTape.t R) (p : Z) :
  tape_invariant tape -> (0 <= p < QuantumTape.size tape)%Z ->
  tape_invariant (QuantumTape.set_headPosition p tape).
Proof.
  intros (Hs & Hl & Hc & Hh & Hlog) Hp. repeat split; try assumption; apply Hs || apply Hp.
Qed.

Lemma invariant_after_call (call : TapeCall) (tape : QuantumTape.t R) :
  tape_invariant tape ->
  exists tape',
    after_call call tape = Ok tape' /\
    tape_invariant tape' /\
    QuantumTape.size tape' = QuantumTape.size tape.
Proof.
  intros Hinv. destruct call; unfold after_call, exec.
  - (* setState *)
    destruct (invariant_setState timestamp position state tape Hinv)
      as (tape' & -> & Hinv' & Hs & _).
    exists tape'. split; [reflexivity |]. split; assumption.
  - (* setCurrentState *)
    unfold QuantumTape.setCurrentState.
    destruct (invariant_setState timestamp (QuantumTape.headPosition tape) state tape Hinv)
      as (tape' & -> & Hinv' & Hs & _).
    exists tape'. split; [reflexivity |]. split; assumption.
  - (* moveLeft *)
    unfold QuantumTape.moveLeft.
    destruct (Z.ltb_spec 0 (QuantumTape.headPosition tape)) as [H | H].
    + cbv zeta. unfold bind.
      destruct (invariant_addToHistory timestamp "moveLeft"
                  (QuantumTape.headPosition
                     (QuantumTape.set_headPosition (QuantumTape.headPosition tape - 1) tape)
                   + 1)%Z None HistoryEntry.no_metadata
                  (QuantumTape.set_headPosition (QuantumTape.headPosition tape - 1) tape))
        as (tape' & -> & Hinv' & Hs & _).
      { apply invariant_set_head; [exact Hinv |].
        destruct Hinv as (_ & _ & _ & Hh & _). lia. }
      exists tape'. split; [reflexivity |]. split; assumption.
    + exists tape. split; [reflexivity |]. split; [exact Hinv | reflexivity].
  - (* moveRight *)
    unfold QuantumTape.moveRight.
    destruct (Z.ltb_spec (QuantumTape.headPosition tape) (QuantumTape.size tape - 1))
      as [H | H].
    + cbv zeta. unfold bind.
      destruct (invariant_addToHistory timestamp "moveRight"
                  (QuantumTape.headPosition
                     (QuantumTape.set_headPosition (QuantumTape.headPosition tape + 1) tape)
                   - 1)%Z None HistoryEntry.no_metadata
                  (QuantumTape.set_headPosition (QuantumTape.headPosition tape + 1) tape))
        as (tape' & -> & Hinv' & Hs & _).
      { apply invariant_set_head; [exact Hinv |].
        destruct Hinv as (_ & _ & _ & Hh & _). lia. }
      exists tape'. split; [reflexivity |]. split; assumption.
    + exists tape. split; [reflexivity |]. split; [exact Hinv | reflexivity].
  - (* applyGate *)
    unfold QuantumTape.applyGate, QuantumTape.getCurrentState, QuantumTape.setCurrentState.
    unfold bind at 1 2 3 4.
    destruct (invariant_getState (QuantumTape.headPosition tape) tape Hinv) as (s & -> & _).
    cbv zeta.
    match goal with |- context [QuantumTape.setState timestamp1 ?p ?st tape] =>
      destruct (invariant_setState timestamp1 p st tape Hinv)
        as (tape1 & -> & Hinv1 & Hs1 & _) end.
    unfold get at 1.
    match goal with |- context [QuantumTape.addToHistory timestamp2 ?o ?p ?st ?md tape1] =>
      destruct (invariant_addToHistory timestamp2 o p st md tape1 Hinv1)
        as (tape2 & -> & Hinv2 & Hs2 & _) end.
    exists tape2. split; [reflexivity |]. split; [exact Hinv2 | congruence].
  - (* applyTwoQubitGate *)
    unfold QuantumTape.applyTwoQubitGate.
    match goal with |- context [if ?c then (Ok false, tape) else _] => destruct c end.
    { exists tape. split; [reflexivity |]. split; [exact Hinv | reflexivity]. }
    unfold QuantumTape.getCurrentState, QuantumTape.setCurrentState.
    unfold bind at 1 2.
    destruct (invariant_getState (QuantumTape.headPosition tape) tape Hinv) as (s & -> & _).
    destruct (invariant_getState targetPosition tape Hinv) as (s' & -> & _).
    cbv zeta.
    match goal with |- context [match ?a with Some _ => _ | None => ret false end] =>
      destruct a as [newStates |] end.
    2: { exists tape. split; [reflexivity |]. split; [exact Hinv | reflexivity]. }
    unfold bind at 1 2 3 4.
    destruct (invariant_setState timestamp1 (QuantumTape.headPosition tape)
                (fst newStates) tape Hinv) as (tape1 & -> & Hinv1 & Hs1 & _).
    destruct (invariant_setState timestamp2 targetPosition (snd newStates) tape1 Hinv1)
      as (tape2 & -> & Hinv2 & Hs2 & _).
    unfold get at 1.
    match goal with |- context [QuantumTape.addToHistory timestamp3 ?o ?p ?st ?md tape2] =>
      destruct (invariant_addToHistory timestamp3 o p st md tape2 Hinv2)
        as (tape3 & -> & Hinv3 & Hs3 & _) end.
    exists tape3. split; [reflexivity |]. split; [exact Hinv3 | congruence].
  - (* measureCurrent *)
    unfold QuantumTape.measureCurrent, QuantumTape.getCurrentState,
      QuantumTape.setCurrentState.
    unfold bind at 1 2 3 4.
    destruct (invariant_getState (QuantumTape.headPosition tape) tape Hinv) as (s & -> & _).
    cbv zeta.
    match goal with |- context [QuantumTape.setState timestamp1 ?p ?st tape] =>
      destruct (invariant_setState timestamp1 p st tape Hinv)
        as (tape1 & -> & Hinv1 & Hs1 & _) end.
    unfold get at 1.
    match goal with |- context [QuantumTape.addToHistory timestamp2 ?o ?p ?st ?md tape1] =>
      destruct (invariant_addToHistory timestamp2 o p st md tape1 Hinv1)
        as (tape2 & -> & Hinv2 & Hs2 & _) end.
    exists tape2. split; [reflexivity |]. split; [exact Hinv2 | congruence].
  - (* measureAll *)
    unfold QuantumTape.measureAll, for_loopM. cbv zeta.
    unfold bind at 1. unfold get at 1.
    match goal with |- context [for_each ?l ?body ?r] => set (loop := for_each l body r) end.
    unfold bind, get. subst loop.
    destruct (invariant_measureAll_loop randoms timestamps
                (seq 0 (Z.to_nat (QuantumTape.size tape))) [] tape Hinv)
      as (results & tape1 & -> & Hinv1 & Hs1 & _).
    match goal with |- context [QuantumTape.addToHistory timestamp ?o ?p ?st ?md tape1] =>
      destruct (invariant_addToHistory timestamp o p st md tape1 Hinv1)
        as (tape2 & -> & Hinv2 & Hs2 & _) end.
    exists tape2. split; [reflexivity |]. split; [exact Hinv2 | congruence].
  - (* reset *)
    unfold QuantumTape.reset. unfold bind at 1 2.
    destruct (invariant_initializeTape tape) as (tape1 & -> & Hinv1 & Hs1 & _);
      [apply Hinv | apply Hinv |].
    match goal with |- context [QuantumTape.addToHistory timestamp ?o ?p ?st ?md ?t1] =>
      destruct (invariant_addToHistory timestamp o p st md t1)
        as (tape2 & -> & Hinv2 & Hs2 & _) end.
    { apply invariant_set_history; [exact Hinv1 | cbn; lia]. }
    exists tape2. split; [reflexivity |]. split; [exact Hinv2 |].
    rewrite Hs2. exact Hs1.
  - (* clearHistory *)
    unfold QuantumTape.clearHistory. eexists. split; [reflexivity |].
    split; [apply invariant_set_history; [exact Hinv | cbn; lia] | reflexivity].
Qed.

(** X25: In exact arithmetic, new QuantumTape(size, type) for an integer
    size fails when size < 1 or size > 100 and otherwise gives size cells in
    state |0>, the head at floor(size / 2) and an empty log; after any
    sequence of calls of setState, setCurrentState, moveLeft, moveRight,
    applyGate, applyTwoQubitGate, measureCurrent, measureAll, reset and
    clearHistory, with any arguments, none of the calls has thrown, the tape
    still has size cells, each a qubit with |alpha|^2 + |beta|^2 = 1, the
    head is on a cell (0 <= headPosition < size) and the log holds at most
    1000 entries. *)
Theorem QuantumTape_keeps_its_invariant (size : Z) (type : string) :
  ((1 <= size <= 100)%Z ->
   exists tape,
     QuantumTape.new size type = Some tape /\
     QuantumTape.cells tape = replicate (Z.to_nat size) (Some QuantumState.zero) /\
     QuantumTape.headPosition tape = (size / 2)%Z /\
     QuantumTape.operationHistory tape = [] /\
     forall calls : list TapeCall,
     exists tape',
       after_calls calls tape = Ok tape' /\
       tape_invariant tape' /\
       QuantumTape.size tape' = size) /\
  ((size < 1 \/ 100 < size)%Z -> QuantumTape.new (F := R) size type = None).
Proof.
  split.
  - intros Hs. unfold QuantumTape.new.
    destruct (Z.ltb_spec size 1) as [H | _]; [lia |].
    destruct (Z.ltb_spec 100 size) as [H | _]; [lia |]. cbn [orb].
    destruct (invariant_initializeTape (QuantumTape.Build size type [] 0 []))
      as (tape & E & Hinv & Hsize & _ & Hcells & Hhead & Hlog);
      [exact Hs | cbn; lia |].
    rewrite E. cbn [snd]. exists tape. split; [reflexivity |].
    split; [exact Hcells |]. split; [exact Hhead |]. split; [exact Hlog |].
    intros calls. change size with (QuantumTape.size (QuantumTape.Build (F := R) size type [] 0 [])).
    rewrite <- Hsize. clear E Hcells Hhead Hlog Hsize.
    revert tape Hinv. induction calls as [|call calls IH]; intros tape Hinv.
    + exists tape. split; [reflexivity |]. split; [exact Hinv | reflexivity].
    + cbn [after_calls].
      destruct (invariant_after_call call tape Hinv) as (tape1 & -> & Hinv1 & Hs1).
      destruct (IH tape1 Hinv1) as (tape' & E & Hinv' & Hs').
      exists tape'. split; [exact E |]. split; [exact Hinv' | congruence].
  - intros H. unfold QuantumTape.new.
    destruct (Z.ltb_spec size 1) as [H1 | H1]; [reflexivity |].
    destruct (Z.ltb_spec 100 size) as [H2 | H2]; [reflexivity | lia].
Qed.

(** ** The tape: cells, log and serialization *)

(** X26: In exact arithmetic, for a position inside the tape
    setState(position, state) followed by getState(position) returns the
    normalized copy state.clone() (the state itself when it is normalized),
    getState at every other position returns what it returned before, and
    head and size are unchanged; for a position outside the tape setState
    changes nothing at all (no log entry either) and getState returns |0>. *)
Theorem QuantumTape_setState_getState (tape : QuantumTape.t R) (timestamp position : Z)
    (state : QuantumState.t R) :
  ((0 <= position < QuantumTape.size tape)%Z ->
   exists tape',
     QuantumTape.setState timestamp position state tape = (Ok tt, tape') /\
     QuantumTape.getState position tape' = (Ok (QuantumState.clone state), tape') /\
     (normalized state -> QuantumTape.getState position tape' = (Ok state, tape')) /\
     (forall q : Z, q <> position ->
        fst (QuantumTape.getState q tape') = fst (QuantumTape.getState q tape)) /\
     QuantumTape.headPosition tape' = QuantumTape.headPosition tape /\
     QuantumTape.size tape' = QuantumTape.size tape) /\
  ((position < 0 \/ QuantumTape.size tape <= position)%Z ->
   QuantumTape.setState timestamp position state tape = (Ok tt, tape) /\
   QuantumTape.getState position tape = (Ok QuantumState.zero, tape)).
Proof.
  split.
  - intros Hp. unfold QuantumTape.setState.
    destruct (Z.leb_spec 0 position) as [_ | H]; [| lia].
    destruct (Z.ltb_spec position (QuantumTape.size tape)) as [_ | H]; [| lia].
    cbn [andb].
    destruct (addToHistory_bounded timestamp "setState" position (Some state)
                HistoryEntry.no_metadata
                (QuantumTape.set_cells
                   (array_set (Z.to_nat position) (QuantumState.clone state)
                      (QuantumTape.cells tape)) tape)) as (history & -> & _).
    eexists. split; [reflexivity |].
    assert (Hget : QuantumTape.getState position
                     (QuantumTape.set_operationHistory history
                        (QuantumTape.set_cells
                           (array_set (Z.to_nat position) (QuantumState.clone state)
                              (QuantumTape.cells tape)) tape))
                   = (Ok (QuantumState.clone state),
                      QuantumTape.set_operationHistory history
                        (QuantumTape.set_cells
                           (array_set (Z.to_nat position) (QuantumState.clone state)
                              (QuantumTape.cells tape)) tape))).
    { unfold QuantumTape.getState.
      cbn [QuantumTape.size QuantumTape.cells QuantumTape.set_operationHistory
           QuantumTape.set_cells].
      destruct (Z.ltb_spec position 0) as [H | _]; [lia |].
      destruct (Z.leb_spec (QuantumTape.size tape) position) as [H | _]; [lia |].
      cbn [orb]. rewrite array_get_set_same.
      rewrite (clone_of_normalized _ (clone_normalized state)). reflexivity. }
    split; [exact Hget |].
    split; [intros Hn; rewrite Hget, (clone_of_normalized _ Hn); reflexivity |].
    split; [| split; reflexivity].
    intros q Hq. unfold QuantumTape.getState.
    cbn [QuantumTape.size QuantumTape.cells QuantumTape.set_operationHistory
         QuantumTape.set_cells].
    destruct (Z.ltb_spec q 0) as [H | H0]; [reflexivity |].
    destruct (Z.leb_spec (QuantumTape.size tape) q) as [H | H1]; [reflexivity |].
    cbn [orb]. rewrite array_get_set_other by lia.
    destruct (array_get (Z.to_nat q) (QuantumTape.cells tape)); reflexivity.
  - intros Hp. unfold QuantumTape.setState, QuantumTape.getState.
    destruct (Z.leb_spec 0 position) as [H0 | H0];
      destruct (Z.ltb_spec position (QuantumTape.size tape)) as [H1 | H1]; try lia;
      cbn [andb]; (split; [reflexivity |]).
    + destruct (Z.ltb_spec position 0); [reflexivity |].
      destruct (Z.leb_spec (QuantumTape.size tape) position); [reflexivity | lia].
    + destruct (Z.ltb_spec position 0); [reflexivity | lia].
    + destruct (Z.ltb_spec position 0); [reflexivity | lia].
Qed.

(** X27: addToHistory appends an entry whose step is the length of the log
    plus one and changes nothing else; when the log already holds 1000
    entries it then keeps only the last 500 (the new entry, with step 1001,
    being the last), so that the next entry gets step 501 and step numbers
    repeat. getHistory(limit) returns the last limit entries for limit > 0,
    but getHistory(0) returns the whole log. This holds for any number type. *)
Theorem QuantumTape_history_is_capped {F} {N : JsNum F} {M : JsMath F}
    (tape : QuantumTape.t F) (timestamp : Z) (operation : string) (position : Z)
    (state : option (QuantumState.t F)) (metadata : HistoryEntry.Metadata F) :
  let history := QuantumTape.operationHistory tape in
  let tape' := snd (QuantumTape.addToHistory timestamp operation position state metadata
                      tape) in
  let history' := QuantumTape.operationHistory tape' in
  let entry := HistoryEntry.Build (length history + 1) timestamp operation position
                 (option_map QuantumState.clone state) metadata in
  tape' = QuantumTape.set_operationHistory history' tape /\
  last history' = Some entry /\
  ((length history < 1000)%nat -> history' = history ++ [entry]) /\
  ((length history = 1000)%nat ->
   history' = drop 501 history ++ [entry] /\
   length history' = 500%nat /\
   HistoryEntry.step entry = 1001%nat /\
   forall timestamp2 operation2 position2 state2 metadata2,
     HistoryEntry.step
       <$> last (QuantumTape.operationHistory
                   (snd (QuantumTape.addToHistory timestamp2 operation2 position2 state2
                           metadata2 tape')))
     = Some 501%nat) /\
  (forall limit : Z, (0 < limit)%Z ->
     QuantumTape.getHistory limit tape
     = drop (length history - Z.to_nat limit) history) /\
  QuantumTape.getHistory 0 tape = history.
Proof.
  intros history tape' history' entry.
  assert (Hentry : history'
                   = if (1000 <? length (history ++ [entry]))%nat
                     then slice (-500) (history ++ [entry]) else history ++ [entry]).
  { subst history' tape' entry history. unfold QuantumTape.addToHistory. cbv zeta.
    cbn [snd QuantumTape.operationHistory QuantumTape.set_operationHistory].
    destruct state; reflexivity. }
  assert (Hlen : length (history ++ [entry]) = (length history + 1)%nat)
    by (rewrite length_app; reflexivity).
  split; [reflexivity |].
  split.
  { rewrite Hentry. destruct (Nat.ltb_spec 1000 (length (history ++ [entry]))) as [H | H];
      [| apply last_snoc].
    change (-500)%Z with (- Z.of_nat 500)%Z. rewrite slice_last by lia.
    rewrite drop_app_le by lia. apply last_snoc. }
  split.
  { intros H. rewrite Hentry.
    destruct (Nat.ltb_spec 1000 (length (history ++ [entry]))) as [H' | _]; [lia |].
    reflexivity. }
  split.
  { intros H.
    assert (Hh : history' = drop 501 history ++ [entry]).
    { rewrite Hentry.
      destruct (Nat.ltb_spec 1000 (length (history ++ [entry]))) as [_ | H']; [| lia].
      change (-500)%Z with (- Z.of_nat 500)%Z. rewrite slice_last by lia.
      rewrite Hlen, H. change (1000 + 1 - 500)%nat with 501%nat.
      rewrite drop_app_le by lia. reflexivity. }
    assert (Hl : length history' = 500%nat).
    { rewrite Hh, length_app, length_drop, H. reflexivity. }
    split; [exact Hh |]. split; [exact Hl |].
    split; [cbn; lia |].
    intros timestamp2 operation2 position2 state2 metadata2.
    unfold QuantumTape.addToHistory. cbv zeta.
    cbn [snd QuantumTape.operationHistory QuantumTape.set_operationHistory].
    fold history'.
    match goal with |- context [(1000 <? length ?l)%nat] =>
      destruct (Nat.ltb_spec 1000 (length l)) as [H' | _];
        [rewrite length_app, Hl in H'; cbn in H'; lia |] end.
    rewrite last_snoc. cbn [fmap option_fmap option_map HistoryEntry.step].
    rewrite Hl. reflexivity. }
  split.
  { intros limit Hlimit. unfold QuantumTape.getHistory.
    replace (- limit)%Z with (- Z.of_nat (Z.to_nat limit))%Z by lia.
    rewrite slice_last by lia. reflexivity. }
  unfold QuantumTape.getHistory. change (- 0)%Z with 0%Z. apply slice_0.
Qed.

Lemma cells_round_trip (cells : list (option (QuantumState.t R))) :
  Forall (fun cell => exists s, cell = Some s /\ normalized s) cells ->
  map (option_map
         (fun cellData : TapeJSON.cell R =>
            QuantumState.new
              (Complex.Build (Complex.re (TapeJSON.alpha cellData))
                 (Complex.im (TapeJSON.alpha cellData)))
              (Complex.Build (Complex.re (TapeJSON.beta cellData))
                 (Complex.im (TapeJSON.beta cellData)))))
    (map (option_map
            (fun cell : QuantumState.t R =>
               TapeJSON.Cell
                 (Complex.Build (Complex.re (QuantumState.alpha cell))
                    (Complex.im (QuantumState.alpha cell)))
                 (Complex.Build (Complex.re (QuantumState.beta cell))
                    (Complex.im (QuantumState.beta cell)))))
       cells)
  = cells.
Proof.
  induction 1 as [| cell cells (s & -> & Hn) _ IH]; [reflexivity |].
  cbn [map option_map]. rewrite IH. do 2 f_equal.
  cbn [TapeJSON.alpha TapeJSON.beta Complex.re Complex.im].
  destruct s as [[ar ai] [br bi]]. cbn [QuantumState.alpha QuantumState.beta Complex.re Complex.im].
  apply QuantumState_new_normalized_id. exact Hn.
Qed.

(** X28: In exact arithmetic, for a tape that satisfies the class's
    invariant (size in [1, 100], size normalized cells, the head on a cell),
    QuantumTape.fromJSON(tape.toJSON()) is the same tape with an empty log:
    size, type, head position and every cell are restored, the log is lost
    and only its length is written to the JSON; when the size is outside [1,
    100] fromJSON throws. *)
Theorem QuantumTape_toJSON_fromJSON (tape : QuantumTape.t R) :
  (tape_invariant tape ->
   QuantumTape.fromJSON (QuantumTape.toJSON tape)
   = Some (QuantumTape.set_operationHistory [] tape)) /\
  ((QuantumTape.size tape < 1 \/ 100 < QuantumTape.size tape)%Z ->
   QuantumTape.fromJSON (QuantumTape.toJSON tape) = None) /\
  TapeJSON.historyLength (QuantumTape.toJSON tape)
  = length (QuantumTape.operationHistory tape).
Proof.
  split; [| split; [| reflexivity]].
  - intros (Hs & Hl & Hc & Hh & Hlog).
    unfold QuantumTape.fromJSON, QuantumTape.toJSON.
    cbn [TapeJSON.size TapeJSON.type TapeJSON.headPosition TapeJSON.cells].
    unfold QuantumTape.new.
    destruct (Z.ltb_spec (QuantumTape.size tape) 1) as [H | _]; [lia |].
    destruct (Z.ltb_spec 100 (QuantumTape.size tape)) as [H | _]; [lia |].
    cbn [orb]. cbv zeta. rewrite (cells_round_trip _ Hc).
    destruct tape as [size type cells head history].
    cbn [QuantumTape.size QuantumTape.type QuantumTape.cells QuantumTape.headPosition
         QuantumTape.operationHistory] in *.
    unfold QuantumTape.initializeTape. cbn [snd].
    unfold QuantumTape.set_cells, QuantumTape.set_headPosition,
      QuantumTape.set_operationHistory.
    cbn [QuantumTape.size QuantumTape.type QuantumTape.cells QuantumTape.headPosition
         QuantumTape.operationHistory].
    destruct (Z.eqb_spec head 0) as [-> | _]; reflexivity.
  - intros H. unfold QuantumTape.fromJSON, QuantumTape.toJSON.
    cbn [TapeJSON.size TapeJSON.type TapeJSON.headPosition TapeJSON.cells].
    unfold QuantumTape.new.
    destruct (Z.ltb_spec (QuantumTape.size tape) 1) as [H1 | H1]; [reflexivity |].
    destruct (Z.ltb_spec 100 (QuantumTape.size tape)) as [H2 | H2]; [reflexivity | lia].
Qed.

(** ** Entropy and Bloch angles of a lone qubit *)

Lemma ln_le_sub (x : R) : (0 < x)%R -> (ln x <= x - 1)%R.
Proof.
  intros H. pose proof (exp_ineq1_le (ln x)) as E. rewrite exp_ln in E by exact H. lra.
Qed.

(* -p ln p for a probability p *)
Lemma entropy_term_bounds (p : R) :
  (0 < p <= 1)%R ->
  (0 <= - (p * ln p) /\ - (p * ln p) <= 1 - p /\
   - (p * ln p) <= p * ln 2 + 1 / 2 - p)%R.
Proof.
  intros Hp.
  pose proof (ln_le_sub p ltac:(lra)) as H1.
  assert (H2 : (- ln p <= / p - 1)%R).
  { rewrite <- ln_Rinv by lra. apply ln_le_sub. apply Rinv_0_lt_compat. lra. }
  assert (H3 : (- ln p - ln 2 <= / (2 * p) - 1)%R).
  { replace (- ln p - ln 2)%R with (ln (/ (2 * p))).
    - apply ln_le_sub. apply Rinv_0_lt_compat. lra.
    - rewrite ln_Rinv by lra. rewrite ln_mult by lra. ring. }
  assert (Hi : (p * / p = 1)%R) by (field; lra).
  assert (Hi2 : (p * / (2 * p) = 1 / 2)%R) by (field; lra).
  repeat split.
  - assert (ln p <= 0)%R by lra. nra.
  - assert (p * (- ln p) <= p * (/ p - 1))%R by (apply Rmult_le_compat_l; lra). nra.
  - assert (p * (- ln p - ln 2) <= p * (/ (2 * p) - 1))%R
      by (apply Rmult_le_compat_l; lra).
    nra.
Qed.

Lemma getEntropy_terms (s : QuantumState.t R) :
  let term (p : R) := if Rltb (1 / 10 ^ 15) p then (- (p * ln p))%R else 0%R in
  QuantumState.getEntropy s
  = ((term (QuantumState.getProbability0 s) + term (QuantumState.getProbability1 s))
     / ln 2)%R.
Proof.
  intros term. unfold QuantumState.getEntropy, term. cbv zeta.
  cbn [nlog2 Real_Math]. real_ops.
  pose proof ln_lt_2 as L.
  destruct (Rltb (1 / 10 ^ 15) (QuantumState.getProbability0 s));
    destruct (Rltb (1 / 10 ^ 15) (QuantumState.getProbability1 s)); field; lra.
Qed.

Lemma getEntropy_bounds (s : QuantumState.t R) :
  normalized s -> (0 <= QuantumState.getEntropy s <= 1)%R.
Proof.
  intros Hn. rewrite getEntropy_terms. cbv zeta. unfold normalized in Hn.
  assert (H0 : (0 <= QuantumState.getProbability0 s)%R)
    by (destruct s as [a b]; apply prob_nonneg).
  assert (H1 : (0 <= QuantumState.getProbability1 s)%R)
    by (destruct s as [a b]; apply prob_nonneg).
  set (p0 := QuantumState.getProbability0 s) in *.
  set (p1 := QuantumState.getProbability1 s) in *.
  pose proof ln_lt_2 as L. pose proof tiny_pos as Ht. pose proof tiny_lt_1 as Ht1.
  assert (Hdiv : forall x, (0 <= x <= ln 2)%R -> (0 <= x / ln 2 <= 1)%R).
  { intros x Hx. split.
    - apply Rmult_le_pos; [lra |]. left. apply Rinv_0_lt_compat. lra.
    - apply (Rmult_le_reg_r (ln 2)); [lra |]. unfold Rdiv.
      rewrite Rmult_assoc, Rinv_l by lra. lra. }
  apply Hdiv.
  unfold Rltb. destruct (Rlt_dec (1 / 10 ^ 15) p0) as [G0 | G0];
    destruct (Rlt_dec (1 / 10 ^ 15) p1) as [G1 | G1].
  - destruct (entropy_term_bounds p0 ltac:(lra)) as (A0 & _ & B0).
    destruct (entropy_term_bounds p1 ltac:(lra)) as (A1 & _ & B1).
    assert (p0 * ln 2 + p1 * ln 2 = ln 2)%R by (rewrite <- Rmult_plus_distr_r, Hn; ring).
    lra.
  - destruct (entropy_term_bounds p0 ltac:(lra)) as (A0 & B0 & _). lra.
  - destruct (entropy_term_bounds p1 ltac:(lra)) as (A1 & B1 & _). lra.
  - lra.
Qed.

Lemma getEntropy_of_probabilities (s : QuantumState.t R) (p0 p1 : R) :
  QuantumState.getProbability0 s = p0 -> QuantumState.getProbability1 s = p1 ->
  QuantumState.getEntropy s
  = (((if Rltb (1 / 10 ^ 15) p0 then - (p0 * ln p0) else 0)
      + (if Rltb (1 / 10 ^ 15) p1 then - (p1 * ln p1) else 0)) / ln 2)%R.
Proof. intros <- <-. apply getEntropy_terms. Qed.

Lemma inv_sqrt2_sq : (1 / sqrt 2 * (1 / sqrt 2) = 1 / 2)%R.
Proof. pose proof sqrt2_sqrt2. pose proof sqrt2_pos. field_simplify_eq; lra. Qed.

(** X29: In exact arithmetic, getEntropy() of any state the QuantumState
    constructor builds lies between 0 and 1; it is 0 for the basis states
    |0> and |1> and 1 for |+> and |->. *)
Theorem QuantumState_getEntropy_bounds (alpha beta : C) :
  (0 <= QuantumState.getEntropy (QuantumState.new alpha beta) <= 1)%R /\
  QuantumState.getEntropy (F := R) QuantumState.zero = 0%R /\
  QuantumState.getEntropy (F := R) QuantumState.one = 0%R /\
  QuantumState.getEntropy (F := R) QuantumState.plus = 1%R /\
  QuantumState.getEntropy (F := R) QuantumState.minus = 1%R.
Proof.
  pose proof ln_lt_2 as L. pose proof tiny_pos as Ht. pose proof tiny_lt_1 as Ht1.
  pose proof half_not_tiny as Hh. pose proof inv_sqrt2_sq as Hs.
  assert (Lh : ln (1 / 2) = (- ln 2)%R)
    by (replace (1 / 2)%R with (/ 2)%R by lra; apply ln_Rinv; lra).
  split; [apply getEntropy_bounds, QuantumState_new_sum_one |].
  split; [| split; [| split]].
  - unfold QuantumState.zero. real_ops.
    rewrite QuantumState_new_normalized_id by (rewrite !prob_real; lra).
    rewrite (getEntropy_of_probabilities _ 1 0);
      [| unfold QuantumState.getProbability0; cbn [QuantumState.alpha]; cbv zeta; real_ops;
         fold (prob (Cx 1 0)); rewrite prob_real; lra
       | unfold QuantumState.getProbability1; cbn [QuantumState.beta]; cbv zeta; real_ops;
         fold (prob (Cx 0 0)); rewrite prob_real; lra].
    rewrite Rltb_true by lra. rewrite Rltb_false by lra. rewrite ln_1. field. lra.
  - unfold QuantumState.one. real_ops.
    rewrite QuantumState_new_normalized_id by (rewrite !prob_real; lra).
    rewrite (getEntropy_of_probabilities _ 0 1);
      [| unfold QuantumState.getProbability0; cbn [QuantumState.alpha]; cbv zeta; real_ops;
         fold (prob (Cx 0 0)); rewrite prob_real; lra
       | unfold QuantumState.getProbability1; cbn [QuantumState.beta]; cbv zeta; real_ops;
         fold (prob (Cx 1 0)); rewrite prob_real; lra].
    rewrite Rltb_false by lra. rewrite Rltb_true by lra. rewrite ln_1. field. lra.
  - unfold QuantumState.plus. cbv zeta. real_ops.
    rewrite QuantumState_new_normalized_id by (rewrite !prob_real; lra).
    rewrite (getEntropy_of_probabilities _ (1 / 2) (1 / 2));
      [| unfold QuantumState.getProbability0; cbn [QuantumState.alpha]; cbv zeta; real_ops;
         fold (prob (Cx (1 / sqrt 2) 0)); rewrite prob_real; lra
       | unfold QuantumState.getProbability1; cbn [QuantumState.beta]; cbv zeta; real_ops;
         fold (prob (Cx (1 / sqrt 2) 0)); rewrite prob_real; lra].
    rewrite Rltb_true by lra. rewrite Lh. field. lra.
  - unfold QuantumState.minus. cbv zeta. real_ops.
    assert (Hm : (-1 / sqrt 2 * (-1 / sqrt 2) = 1 / 2)%R)
      by (rewrite neg_inv_sqrt2; lra).
    rewrite QuantumState_new_normalized_id by (rewrite !prob_real; lra).
    rewrite (getEntropy_of_probabilities _ (1 / 2) (1 / 2));
      [| unfold QuantumState.getProbability0; cbn [QuantumState.alpha]; cbv zeta; real_ops;
         fold (prob (Cx (1 / sqrt 2) 0)); rewrite prob_real; lra
       | unfold QuantumState.getProbability1; cbn [QuantumState.beta]; cbv zeta; real_ops;
         fold (prob (Cx (-1 / sqrt 2) 0)); rewrite prob_real; lra].
    rewrite Rltb_true by lra. rewrite Lh. field. lra.
Qed.

(** X30: In exact arithmetic, QuantumState.fromBlochAngles(theta, phi) has
    alpha = cos(theta/2) and beta = (cos(phi) + i sin(phi)) sin(theta/2),
    stored as they are because they are already normalized, hence the
    probabilities cos^2(theta/2) of reading 0 and sin^2(theta/2) of reading
    1; theta = 0 gives |0> for every phi, and theta = pi with phi = 0 gives
    |1>. *)
Theorem QuantumState_fromBlochAngles_spec (theta phi : R) :
  let s := QuantumState.fromBlochAngles theta phi in
  QuantumState.alpha s = Cx (cos (theta / 2)) 0 /\
  QuantumState.beta s = Cx (cos phi * sin (theta / 2)) (sin phi * sin (theta / 2)) /\
  QuantumState.getProbability0 s = (cos (theta / 2) * cos (theta / 2))%R /\
  QuantumState.getProbability1 s = (sin (theta / 2) * sin (theta / 2))%R /\
  QuantumState.fromBlochAngles 0%R phi = QuantumState.Build (Cx 1 0) (Cx 0 0) /\
  QuantumState.fromBlochAngles PI 0%R = QuantumState.Build (Cx 0 0) (Cx 1 0).
Proof.
  assert (E : QuantumState.fromBlochAngles theta phi
              = QuantumState.Build (Cx (cos (theta / 2)) 0)
                  (Cx (cos phi * sin (theta / 2)) (sin phi * sin (theta / 2)))).
  { unfold QuantumState.fromBlochAngles, Complex.exp, Complex.mul. cbv zeta.
    cbn [Complex.re Complex.im ncos nsin Real_Math]. real_ops.
    replace (cos phi * sin (theta / 2) - sin phi * 0)%R with (cos phi * sin (theta / 2))%R
      by ring.
    replace (cos phi * 0 + sin phi * sin (theta / 2))%R with (sin phi * sin (theta / 2))%R
      by ring.
    apply QuantumState_new_normalized_id. rewrite !prob_re_im.
    cbn [Complex.re Complex.im].
    pose proof (cos2_sin2 (theta / 2)). pose proof (cos2_sin2 phi). nra. }
  intros s. subst s.
  split; [rewrite E; reflexivity |]. split; [rewrite E; reflexivity |].
  split; [| split; [| split]].
  - rewrite E. unfold QuantumState.getProbability0. cbn [QuantumState.alpha]. cbv zeta.
    real_ops. fold (prob (Cx (cos (theta / 2)) 0)). apply prob_real.
  - rewrite E. unfold QuantumState.getProbability1. cbn [QuantumState.beta]. cbv zeta.
    real_ops.
    fold (prob (Cx (cos phi * sin (theta / 2)) (sin phi * sin (theta / 2)))).
    rewrite prob_re_im. cbn [Complex.re Complex.im].
    pose proof (cos2_sin2 phi). nra.
  - clear E. unfold QuantumState.fromBlochAngles, Complex.exp, Complex.mul. cbv zeta.
    cbn [Complex.re Complex.im ncos nsin Real_Math]. real_ops.
    replace (0 / 2)%R with 0%R by lra. rewrite cos_0, sin_0.
    replace (cos phi * 0 - sin phi * 0)%R with 0%R by ring.
    replace (cos phi * 0 + sin phi * 0)%R with 0%R by ring.
    apply QuantumState_new_normalized_id. rewrite !prob_real. lra.
  - clear E. unfold QuantumState.fromBlochAngles, Complex.exp, Complex.mul. cbv zeta.
    cbn [Complex.re Complex.im ncos nsin Real_Math]. real_ops.
    rewrite cos_PI2, sin_PI2, cos_0, sin_0.
    replace (1 * 1 - 0 * 0)%R with 1%R by ring.
    replace (1 * 0 + 0 * 1)%R with 0%R by ring.
    apply QuantumState_new_normalized_id. rewrite !prob_real. lra.
Qed.

(** ** Instances of the theorems that have hypotheses *)

Lemma sumAbsSquared_reg2 (a0 a1 a2 a3 : R) :
  ComplexUtils.sumAbsSquared (QuantumRegister.amplitudes (reg2 a0 a1 a2 a3))
  = (a0 * a0 + a1 * a1 + a2 * a2 + a3 * a3)%R.
Proof.
  rewrite sumAbsSquared_list. cbn [QuantumRegister.amplitudes map Rlist_sum fold_right].
  rewrite !prob_real. ring.
Qed.

Lemma basis_state_normalized :
  (QuantumState.getProbability0 (QuantumState.Build (Cx 1 0) (Cx 0 0))
   + QuantumState.getProbability1 (QuantumState.Build (Cx 1 0) (Cx 0 0)) = 1)%R.
Proof.
  destruct (state_probabilities (Cx 1 0) (Cx 0 0)) as [-> ->]. rewrite !prob_real. lra.
Qed.

Lemma setAmplitude_getAmplitude_witness :
  QuantumRegister.wf (reg2 1 0 0 0) /\
  (0 <= 1 < Z.of_nat (QuantumRegister.dimension (reg2 1 0 0 0)))%Z /\
  exists r',
    QuantumRegister.setAmplitude 1 (Cx 0 1) (reg2 1 0 0 0) = (Ok tt, r') /\
    QuantumRegister.getAmplitude 1 r' = (Ok (Cx 0 1), r').
Proof.
  split; [apply wf_reg2 |]. split; [cbn; lia |].
  destruct (setAmplitude_getAmplitude (reg2 1 0 0 0) 1 (Cx 0 1) (wf_reg2 1 0 0 0))
    as [Hin _].
  destruct (Hin ltac:(cbn; lia)) as (r' & E & _ & G & _).
  exists r'. split; [exact E | exact G].
Defined.

Lemma QuantumRegister_normalize_witness :
  QuantumRegister.wf (reg2 2 0 0 0) /\
  exists r',
    QuantumRegister.normalize (reg2 2 0 0 0) = (Ok tt, r') /\
    ComplexUtils.sumAbsSquared (QuantumRegister.amplitudes r') = 1%R.
Proof.
  split; [apply wf_reg2 |].
  destruct (QuantumRegister_normalize_always_normalizes (reg2 2 0 0 0) (wf_reg2 2 0 0 0))
    as (r' & E & _ & H1 & _).
  exists r'. split; [exact E | exact H1].
Defined.

Lemma measureAll_born_rule_witness :
  QuantumRegister.wf (reg2 0 1 0 0) /\
  ComplexUtils.sumAbsSquared (QuantumRegister.amplitudes (reg2 0 1 0 0)) = 1%R /\
  (0 <= 1 / 2 < 1)%R /\
  exists r',
    QuantumRegister.measureAll (1 / 2)%R (reg2 0 1 0 0) = (Ok 1%nat, r') /\
    QuantumRegister.amplitudes r' !!! 0%nat = Complex.ONE /\
    QuantumRegister.amplitudes r' !!! 1%nat = Complex.ONE /\
    QuantumRegister.amplitudes r' !!! 2%nat = Complex.ZERO /\
    QuantumRegister.amplitudes r' !!! 3%nat = Complex.ZERO /\
    ComplexUtils.sumAbsSquared (QuantumRegister.amplitudes r') = 2%R.
Proof.
  assert (H1 : ComplexUtils.sumAbsSquared (QuantumRegister.amplitudes (reg2 0 1 0 0)) = 1%R)
    by (rewrite sumAbsSquared_reg2; lra).
  split; [apply wf_reg2 |]. split; [exact H1 |]. split; [lra |].
  destruct (measureAll_born_rule (reg2 0 1 0 0) (1 / 2)%R (wf_reg2 0 1 0 0) H1
              ltac:(lra)) as (i & r' & Hi & E & Hc & _ & _ & Hs & Hn).
  assert (Ei : i = 1%nat).
  { cbn [QuantumRegister.dimension] in Hi. unfold cumulative in Hc.
    cbn [QuantumRegister.amplitudes] in Hc.
    destruct i as [|[|[|[|i]]]]; [| reflexivity | | | lia];
      cbn [Rsum lookup_total list_lookup_total] in Hc; rewrite !prob_real in Hc; lra. }
  subst i. exists r'. split; [exact E |].
  split; [exact (Hs 0%nat ltac:(cbn; lia)) |].
  split; [exact (Hs 1%nat ltac:(cbn; lia)) |].
  split; [exact (Hs 2%nat ltac:(cbn; lia)) |].
  split; [exact (Hs 3%nat ltac:(cbn; lia)) |].
  exact Hn.
Defined.

Lemma measureQubit_repeatable_witness :
  QuantumRegister.wf (reg2 1 0 0 0) /\
  (0 <= 1 / 2)%R /\ (0 <= 1 / 4 < 1)%R /\
  exists outcome r1,
    QuantumRegister.measureQubit 0 (1 / 2)%R (reg2 1 0 0 0) = (Ok outcome, r1) /\
    QuantumRegister.measureQubit 0 (1 / 4)%R r1 = (Ok outcome, r1).
Proof.
  split; [apply wf_reg2 |]. split; [lra |]. split; [lra |].
  destruct (measureQubit_spec (reg2 1 0 0 0) 0 (1 / 2)%R (wf_reg2 1 0 0 0)
              ltac:(cbn; lia)) as (new & E & _).
  cbv zeta in E. change (Z.of_nat 0) with 0%Z in E.
  eexists _, _. split; [exact E |].
  exact (measureQubit_repeatable _ _ 0%Z (1 / 2)%R (1 / 4)%R _ (wf_reg2 1 0 0 0)
           ltac:(lra) ltac:(lra) E).
Defined.

Lemma pauli_gates_on_register_witness :
  QuantumRegister.wf (reg2 1 0 0 0) /\
  (0 <= 0 < Z.of_nat (QuantumRegister.numQubits (reg2 1 0 0 0)))%Z /\
  exists r',
    QuantumRegister.applySingleQubitGate QuantumGates.X 0 (reg2 1 0 0 0) = (Ok tt, r') /\
    QuantumRegister.amplitudes r' !!! 1%nat = Cx 1 0.
Proof.
  split; [apply wf_reg2 |]. split; [cbn; lia |].
  destruct (pauli_gates_on_register (reg2 1 0 0 0) 0%Z (wf_reg2 1 0 0 0) ltac:(cbn; lia))
    as ((r' & E & _ & Hs) & _).
  exists r'. split; [exact E |].
  exact (Hs 1%nat ltac:(cbn; lia)).
Defined.

Lemma two_qubit_gates_on_register_witness :
  QuantumRegister.wf (reg2 0 1 0 0) /\
  (0 <= 0 < Z.of_nat (QuantumRegister.numQubits (reg2 0 1 0 0)))%Z /\
  (0 <= 1 < Z.of_nat (QuantumRegister.numQubits (reg2 0 1 0 0)))%Z /\
  0%Z <> 1%Z /\
  exists r',
    QuantumRegister.applyTwoQubitGate QuantumGates.CNOT 0 1 (reg2 0 1 0 0) = (Ok tt, r') /\
    QuantumRegister.amplitudes r' !!! 3%nat = Cx 1 0.
Proof.
  split; [apply wf_reg2 |]. split; [cbn; lia |]. split; [cbn; lia |]. split; [lia |].
  destruct (two_qubit_gates_on_register (reg2 0 1 0 0) 0%Z 1%Z (wf_reg2 0 1 0 0)
              ltac:(cbn; lia) ltac:(cbn; lia) ltac:(lia))
    as ((r' & E & Hs) & _).
  exists r'. split; [exact E |].
  exact (Hs 3%nat ltac:(cbn; lia)).
Defined.

Lemma self_inverse_gates_on_register_witness :
  In (QuantumGates.H (F := R))
     [QuantumGates.X; QuantumGates.Y; QuantumGates.Z; QuantumGates.H] /\
  QuantumRegister.wf (reg2 1 0 0 0) /\
  (0 <= 0 < Z.of_nat (QuantumRegister.numQubits (reg2 1 0 0 0)))%Z /\
  (QuantumRegister.applySingleQubitGate QuantumGates.H 0 >>
   QuantumRegister.applySingleQubitGate QuantumGates.H 0)%method (reg2 1 0 0 0)
  = (Ok tt, reg2 1 0 0 0).
Proof.
  assert (Hin : In (QuantumGates.H (F := R))
                  [QuantumGates.X; QuantumGates.Y; QuantumGates.Z; QuantumGates.H])
    by (right; right; right; left; reflexivity).
  split; [exact Hin |]. split; [apply wf_reg2 |]. split; [cbn; lia |].
  exact (self_inverse_gates_on_register QuantumGates.H (reg2 1 0 0 0) 0%Z Hin
           (wf_reg2 1 0 0 0) ltac:(cbn; lia)).
Defined.

Lemma gates_on_different_qubits_commute_witness :
  QuantumRegister.wf (reg2 1 0 0 0) /\
  (0 <= 0 < Z.of_nat (QuantumRegister.numQubits (reg2 1 0 0 0)))%Z /\
  (0 <= 1 < Z.of_nat (QuantumRegister.numQubits (reg2 1 0 0 0)))%Z /\
  0%Z <> 1%Z /\
  (QuantumRegister.applySingleQubitGate
     (QuantumMatrix.new [[Cx 0 0; Cx 1 0]; [Cx 1 0; Cx 0 0]]) 0 >>
   QuantumRegister.applySingleQubitGate
     (QuantumMatrix.new [[Cx 1 0; Cx 0 0]; [Cx 0 0; Cx (-1) 0]]) 1)%method (reg2 1 0 0 0)
  = (QuantumRegister.applySingleQubitGate
       (QuantumMatrix.new [[Cx 1 0; Cx 0 0]; [Cx 0 0; Cx (-1) 0]]) 1 >>
     QuantumRegister.applySingleQubitGate
       (QuantumMatrix.new [[Cx 0 0; Cx 1 0]; [Cx 1 0; Cx 0 0]]) 0)%method (reg2 1 0 0 0).
Proof.
  split; [apply wf_reg2 |]. split; [cbn; lia |]. split; [cbn; lia |]. split; [lia |].
  exact (gates_on_different_qubits_commute
           (Cx 0 0) (Cx 1 0) (Cx 1 0) (Cx 0 0) (Cx 1 0) (Cx 0 0) (Cx 0 0) (Cx (-1) 0)
           (reg2 1 0 0 0) 0%Z 1%Z (wf_reg2 1 0 0 0)
           ltac:(cbn; lia) ltac:(cbn; lia) ltac:(lia)).
Defined.

Lemma deutschAlgorithm_always_answers_constant_witness :
  (0 <= 1 / 2 < 1)%R /\
  exists res,
    QuantumAlgorithms.deutschAlgorithm "constant-0" (1 / 2)%R = Ok res /\
    DeutschResult.interpretation res = constant /\
    DeutschResult.isCorrect res = true.
Proof.
  split; [lra |].
  destruct (deutschAlgorithm_always_answers_constant "constant-0" (1 / 2)%R ltac:(lra))
    as (res & E & _ & Hi & Hc).
  exists res. split; [exact E |]. split; [exact Hi | exact Hc].
Defined.

Lemma QuantumState_measure_collapses_witness :
  (0 <= 1 / 4 < 1)%R /\
  QuantumState.measure (1 / 4)%R
    (snd (QuantumState.measure (1 / 2)%R (QuantumState.Build (Cx 1 0) (Cx 0 0))))
  = QuantumState.measure (1 / 2)%R (QuantumState.Build (Cx 1 0) (Cx 0 0)).
Proof.
  split; [lra |].
  pose proof (QuantumState_measure_collapses (QuantumState.Build (Cx 1 0) (Cx 0 0))
                (1 / 2)%R (1 / 4)%R ltac:(lra)) as P.
  destruct (QuantumState.measure (1 / 2)%R (QuantumState.Build (Cx 1 0) (Cx 0 0)))
    as [outcome s'].
  destruct P as (_ & _ & _ & _ & E). exact E.
Defined.

Lemma lone_qubit_gates_compose_witness :
  (QuantumState.getProbability0 (QuantumState.Build (Cx 1 0) (Cx 0 0))
   + QuantumState.getProbability1 (QuantumState.Build (Cx 1 0) (Cx 0 0)) = 1)%R /\
  exists s1,
    QuantumGates.pauliX (QuantumState.Build (Cx 1 0) (Cx 0 0)) = Ok s1 /\
    QuantumGates.pauliX s1 = Ok (QuantumState.Build (Cx 1 0) (Cx 0 0)) /\
    QuantumState.alpha s1 = Cx 0 0 /\
    QuantumState.beta s1 = Cx 1 0.
Proof.
  split; [exact basis_state_normalized |].
  destruct (lone_qubit_gates_compose _ basis_state_normalized) as (HX & _).
  exact HX.
Defined.
